(** * A breadth-first web crawler: shallow embedding and verification

    The development follows [src/web_crawler.go] (the current crawler) and
    [src/unnamed/part_000] (its earlier revision, kept in module [Legacy]).

    Layout:
    - [GoStrings]: Go strings as byte sequences, UTF-8 decoding, and the
      functions of packages [strings], [unicode] and [unicode/utf8] the
      crawler calls;
    - [url]: the part of package [net/url] the crawler calls;
    - [goquery]: parsed HTML documents and the selections the crawler
      makes;
    - the outside world of a run (collection, HTTP client, parser, clock)
      and the effects of a run;
    - the crawler itself: [isAllowedDomain], [normalizeURL], [upsertPage],
      [pageExists], [fetchPage], [extractPage], [crawlSeeds], each after
      its source, a panic being a result of its own;
    - facts about strings and UTF-8, then the properties of the
      specification, each under the identifier of its claim;
    - further properties of the code, each under an identifier [X]: runes
      and trimming, extraction, runs of the crawler, the environment, the
      earlier revision, the process ([connectMongo] and [main]), and
      [cleanSnippet] of the results page [src/script.js].

    The three library modules are written after the Go libraries, not
    after this repository; the crawler's functions call them as the
    source calls the libraries. *)

From stdpp Require Import gmap strings list.
From Stdlib Require Import ZArith Ascii String Lia Bool.

Local Open Scope string_scope.
Local Open Scope Z_scope.

(* ===================================================================== *)
(** * Go strings                                                          *)
(* ===================================================================== *)

(** A Go [string] is an immutable sequence of bytes; Rocq's [string] is a
    sequence of 8-bit [ascii] characters, so the two coincide.  A Go [int]
    is a [Z]; string lengths and indices stay far from the 64-bit bounds. *)
Module GoStrings.

Definition byte (c : ascii) : Z := Z.of_N (N_of_ascii c).
Definition chr (z : Z) : ascii := ascii_of_N (Z.to_N z).

(** [len(s)] *)
Definition len (s : string) : Z := Z.of_nat (String.length s).

(** [s[:n]] and [s[n:]] for [0 <= n]; the callers stay within [len(s)]. *)
Fixpoint sliceTo (n : Z) (s : string) : string :=
  match s with
  | "" => ""
  | String c r => if n <=? 0 then "" else String c (sliceTo (n - 1) r)
  end.

Fixpoint sliceFrom (n : Z) (s : string) : string :=
  match s with
  | "" => ""
  | String c r => if n <=? 0 then s else sliceFrom (n - 1) r
  end.

(** [strings.HasPrefix] *)
Fixpoint HasPrefix (s prefix : string) : bool :=
  match prefix, s with
  | "", _ => true
  | String p prefix', String c s' => Ascii.eqb c p && HasPrefix s' prefix'
  | String _ _, "" => false
  end.

(** [strings.HasSuffix]:
    [len(s) >= len(suffix) && s[len(s)-len(suffix):] == suffix] *)
Definition HasSuffix (s suffix : string) : bool :=
  (len suffix <=? len s) && String.eqb (sliceFrom (len s - len suffix) s) suffix.

(** [strings.Index]: the index of the first instance of [sub], or -1. *)
Fixpoint Index (s sub : string) : Z :=
  if HasPrefix s sub then 0
  else match s with
       | "" => -1
       | String _ r => let i := Index r sub in if i <? 0 then -1 else i + 1
       end.

(** [strings.LastIndex]: the index of the last instance of [sub], or -1. *)
Fixpoint LastIndex (s sub : string) : Z :=
  match s with
  | "" => if HasPrefix s sub then 0 else -1
  | String _ r =>
      let i := LastIndex r sub in
      if 0 <=? i then i + 1 else if HasPrefix s sub then 0 else -1
  end.

(** [strings.Contains] *)
Definition Contains (s sub : string) : bool := 0 <=? Index s sub.

(** [strings.Cut]: [(before, after, found)] around the first [sep]. *)
Definition Cut (s sep : string) : string * string * bool :=
  let i := Index s sep in
  if 0 <=? i then (sliceTo i s, sliceFrom (i + len sep) s, true)
  else (s, "", false).

(** [strings.Split] for a non-empty [sep]: the pieces between the
    instances of [sep]; [fuel] bounds the number of cuts. *)
Fixpoint splitFrom (fuel : nat) (s sep : string) : list string :=
  match fuel with
  | O => [s]
  | S fuel' =>
      let i := Index s sep in
      if i <? 0 then [s]
      else sliceTo i s :: splitFrom fuel' (sliceFrom (i + len sep) s) sep
  end.
Definition Split (s sep : string) : list string := splitFrom (String.length s) s sep.

(** [strings.Count] for a non-empty [sub]: non-overlapping instances. *)
Fixpoint countFrom (fuel : nat) (s sub : string) : Z :=
  match fuel with
  | O => 0
  | S fuel' =>
      let i := Index s sub in
      if i <? 0 then 0 else 1 + countFrom fuel' (sliceFrom (i + len sub) s) sub
  end.
Definition Count (s sub : string) : Z := countFrom (String.length s) s sub.

(** ** Package [unicode/utf8] *)

Definition RuneError : Z := 0xFFFD.
Definition RuneSelf : Z := 0x80.

Definition locb : Z := 0x80.
Definition hicb : Z := 0xBF.

(** The table [first] with [acceptRanges]: for a leading byte, the size of
    the sequence and the range accepted for the second byte; [None] for
    the bytes that start no sequence (0x80-0xC1, 0xF5-0xFF). *)
Definition first (s0 : Z) : option (Z * Z * Z) :=
  if (0xC2 <=? s0) && (s0 <=? 0xDF) then Some (2, locb, hicb)
  else if s0 =? 0xE0 then Some (3, 0xA0, hicb)
  else if (0xE1 <=? s0) && (s0 <=? 0xEC) then Some (3, locb, hicb)
  else if s0 =? 0xED then Some (3, locb, 0x9F)
  else if (0xEE <=? s0) && (s0 <=? 0xEF) then Some (3, locb, hicb)
  else if s0 =? 0xF0 then Some (4, 0x90, hicb)
  else if (0xF1 <=? s0) && (s0 <=? 0xF3) then Some (4, locb, hicb)
  else if s0 =? 0xF4 then Some (4, locb, 0x8F)
  else None.

Definition mask2 : Z := 0x1F.
Definition mask3 : Z := 0x0F.
Definition mask4 : Z := 0x07.
Definition maskx : Z := 0x3F.

(** [utf8.DecodeRuneInString]: the first rune of [s] and its width in
    bytes; [(RuneError, 0)] for the empty string and [(RuneError, 1)] for
    an invalid encoding. *)
Definition DecodeRuneInString (s : string) : Z * nat :=
  match s with
  | "" => (RuneError, 0%nat)
  | String c0 r0 =>
      let s0 := byte c0 in
      if s0 <? RuneSelf then (s0, 1%nat)
      else
        match first s0 with
        | None => (RuneError, 1%nat)
        | Some (sz, lo, hi) =>
            match r0 with
            | "" => (RuneError, 1%nat)
            | String c1 r1 =>
                let s1 := byte c1 in
                if (s1 <? lo) || (hi <? s1) then (RuneError, 1%nat)
                else if sz <=? 2 then
                  (Z.lor (Z.shiftl (Z.land s0 mask2) 6) (Z.land s1 maskx), 2%nat)
                else
                  match r1 with
                  | "" => (RuneError, 1%nat)
                  | String c2 r2 =>
                      let s2 := byte c2 in
                      if (s2 <? locb) || (hicb <? s2) then (RuneError, 1%nat)
                      else if sz <=? 3 then
                        (Z.lor (Z.lor (Z.shiftl (Z.land s0 mask3) 12)
                                      (Z.shiftl (Z.land s1 maskx) 6))
                               (Z.land s2 maskx), 3%nat)
                      else
                        match r2 with
                        | "" => (RuneError, 1%nat)
                        | String c3 _ =>
                            let s3 := byte c3 in
                            if (s3 <? locb) || (hicb <? s3) then (RuneError, 1%nat)
                            else
                              (Z.lor (Z.lor (Z.lor (Z.shiftl (Z.land s0 mask4) 18)
                                                   (Z.shiftl (Z.land s1 maskx) 12))
                                            (Z.shiftl (Z.land s2 maskx) 6))
                                     (Z.land s3 maskx), 4%nat)
                        end
                  end
            end
        end
  end.

(** One step of [for i, c := range s]: the rune [c] and the bytes [raw]
    it was decoded from.  An invalid byte yields [RuneError] with a
    single raw byte. *)
Record Chunk := mkChunk { rune : Z; raw : string }.

(** [for _, c := range s]: the runes of [s] in order, each with its
    bytes. *)
Fixpoint rangeString (s : string) : list Chunk :=
  match s with
  | "" => []
  | String c0 r0 =>
      let (r, w) := DecodeRuneInString s in
      match w, r0 with
      | 2%nat, String c1 r1 =>
          mkChunk r (String c0 (String c1 "")) :: rangeString r1
      | 3%nat, String c1 (String c2 r2) =>
          mkChunk r (String c0 (String c1 (String c2 ""))) :: rangeString r2
      | 4%nat, String c1 (String c2 (String c3 r3)) =>
          mkChunk r (String c0 (String c1 (String c2 (String c3 ""))))
            :: rangeString r3
      | _, _ => mkChunk r (String c0 "") :: rangeString r0
      end
  end.

(** The test [c == RuneError && wid == 1] of the standard library: the
    chunk is an invalid byte, not an encoded U+FFFD. *)
Definition isInvalid (c : Chunk) : bool :=
  (rune c =? RuneError) && (len (raw c) =? 1).

Definition concatRaw (cs : list Chunk) : string :=
  fold_right (fun c acc => raw c +:+ acc) "" cs.

(** [utf8.ValidString] *)
Definition ValidString (s : string) : bool :=
  forallb (fun c => negb (isInvalid c)) (rangeString s).

(** [utf8.RuneCountInString], also [len([]rune(s))] *)
Definition RuneCountInString (s : string) : Z :=
  Z.of_nat (List.length (rangeString s)).

(** [[]rune(s)] *)
Definition toRunes (s : string) : list Z := map rune (rangeString s).

Definition t2 : Z := 0xC0.
Definition t3 : Z := 0xE0.
Definition t4 : Z := 0xF0.
Definition tx : Z := 0x80.

(** [utf8.EncodeRune] / [utf8.AppendRune] *)
Definition threeBytes (r : Z) : string :=
  String (chr (Z.lor t3 (Z.shiftr r 12)))
    (String (chr (Z.lor tx (Z.land (Z.shiftr r 6) maskx)))
       (String (chr (Z.lor tx (Z.land r maskx))) "")).

Definition EncodeRune (r : Z) : string :=
  if (0 <=? r) && (r <=? 0x7F) then String (chr r) ""
  else if (0 <=? r) && (r <=? 0x7FF) then
    String (chr (Z.lor t2 (Z.shiftr r 6)))
      (String (chr (Z.lor tx (Z.land r maskx))) "")
  else if (r <? 0) || (0x10FFFF <? r) || ((0xD800 <=? r) && (r <=? 0xDFFF)) then
    threeBytes RuneError
  else if r <=? 0xFFFF then threeBytes r
  else
    String (chr (Z.lor t4 (Z.shiftr r 18)))
      (String (chr (Z.lor tx (Z.land (Z.shiftr r 12) maskx)))
         (String (chr (Z.lor tx (Z.land (Z.shiftr r 6) maskx)))
            (String (chr (Z.lor tx (Z.land r maskx))) ""))).

(** [string(runes)] *)
Definition ofRunes (rs : list Z) : string :=
  fold_right (fun r acc => EncodeRune r +:+ acc) "" rs.

(** [runes[:n]] for [0 <= n <= len(runes)] *)
Fixpoint sliceRunes {A : Type} (n : Z) (l : list A) : list A :=
  match l with
  | [] => []
  | x :: l' => if n <=? 0 then [] else x :: sliceRunes (n - 1) l'
  end.

(** ** Package [strings], continued *)

(** [strings.ToValidUTF8]: runs of invalid bytes are replaced by
    [replacement]; [invalid] records that the previous byte was invalid. *)
Fixpoint toValidLoop (replacement : string) (invalid : bool)
                     (cs : list Chunk) : string :=
  match cs with
  | [] => ""
  | c :: cs' =>
      if isInvalid c then
        (if invalid then "" else replacement) +:+ toValidLoop replacement true cs'
      else raw c +:+ toValidLoop replacement false cs'
  end.

Definition ToValidUTF8 (s replacement : string) : string :=
  toValidLoop replacement false (rangeString s).

(** [unicode.IsSpace]: the White_Space property. *)
Definition IsSpace (r : Z) : bool :=
  ((0x09 <=? r) && (r <=? 0x0D)) || (r =? 0x20) || (r =? 0x85) || (r =? 0xA0)
  || (r =? 0x1680) || ((0x2000 <=? r) && (r <=? 0x200A))
  || (r =? 0x2028) || (r =? 0x2029) || (r =? 0x202F) || (r =? 0x205F)
  || (r =? 0x3000).

Definition spaceChunk (c : Chunk) : bool := negb (isInvalid c) && IsSpace (rune c).

Fixpoint trimLeft (cs : list Chunk) : list Chunk :=
  match cs with
  | [] => []
  | c :: cs' => if spaceChunk c then trimLeft cs' else cs
  end.

Definition trimRight (cs : list Chunk) : list Chunk := rev (trimLeft (rev cs)).

(** [strings.TrimSpace]: the string without its leading and trailing
    white space, as Unicode defines it. *)
Definition TrimSpace (s : string) : string :=
  concatRaw (trimRight (trimLeft (rangeString s))).

(** [unicode.ToLower] on the runes that matter to a comparison with ASCII
    text: the ASCII capitals and the two capitals outside ASCII whose lower
    case is an ASCII letter (U+0130 and the Kelvin sign U+212A).  The
    lower-case mapping between other non-ASCII runes is left out: it
    never produces an ASCII rune. *)
Definition runeToLower (r : Z) : Z :=
  if (0x41 <=? r) && (r <=? 0x5A) then r + 0x20
  else if r =? 0x130 then 0x69
  else if r =? 0x212A then 0x6B
  else r.

(** [strings.ToLower] *)
Definition ToLower (s : string) : string :=
  ofRunes (map runeToLower (toRunes s)).

End GoStrings.

Import GoStrings.

(* ===================================================================== *)
(** * Package [net/url]                                                   *)
(* ===================================================================== *)

(** The URL structure and the functions [Parse], [ResolveReference],
    [URL.String], [Hostname] and [IsAbs], written after the Go standard
    library.  A failed call returns [None]; the crawler never looks at
    the error value of this package. *)
Module url.

Record Userinfo := mkUserinfo {
  username : string;
  password : string;
  passwordSet : bool
}.

Record URL := mkURL {
  Scheme : string;
  Opaque : string;
  User : option Userinfo;
  Host : string;
  Path : string;
  RawPath : string;
  OmitHost : bool;
  ForceQuery : bool;
  RawQuery : string;
  Fragment : string;
  RawFragment : string
}.

Inductive encoding :=
| encodePath | encodeHost | encodeZone | encodeUserPassword | encodeFragment.

Definition isMode (a b : encoding) : bool :=
  match a, b with
  | encodePath, encodePath | encodeHost, encodeHost | encodeZone, encodeZone
  | encodeUserPassword, encodeUserPassword | encodeFragment, encodeFragment => true
  | _, _ => false
  end.

(** [c] is one of the bytes of [set]. *)
Fixpoint oneOf (c : ascii) (set : string) : bool :=
  match set with
  | "" => false
  | String d set' => Ascii.eqb c d || oneOf c set'
  end.

Definition between (lo hi : ascii) (c : ascii) : bool :=
  (byte lo <=? byte c) && (byte c <=? byte hi).

Definition isAlpha (c : ascii) : bool := between "a" "z" c || between "A" "Z" c.
Definition isDigit (c : ascii) : bool := between "0" "9" c.
Definition dquote : ascii := chr 34.

Definition ishex (c : ascii) : bool :=
  isDigit c || between "a" "f" c || between "A" "F" c.

Definition unhex (c : ascii) : Z :=
  if isDigit c then byte c - byte "0"
  else if between "a" "f" c then byte c - byte "a" + 10
  else if between "A" "F" c then byte c - byte "A" + 10
  else 0.

Definition upperhex (n : Z) : ascii :=
  if n <? 10 then chr (byte "0" + n) else chr (byte "A" + n - 10).

(** [shouldEscape]: must byte [c] be escaped in the part [mode] of a URL? *)
Definition shouldEscape (c : ascii) (mode : encoding) : bool :=
  if isAlpha c || isDigit c then false
  else if (isMode mode encodeHost || isMode mode encodeZone)
          && (oneOf c "!$&'()*+,;=:[]<>" || Ascii.eqb c dquote) then false
  else if oneOf c "-_.~" then false
  else if oneOf c "$&+,/:;=?@" then
    match mode with
    | encodePath => Ascii.eqb c "?"
    | encodeUserPassword => oneOf c "@/?:"
    | encodeFragment => false
    | encodeHost | encodeZone => true
    end
  else if isMode mode encodeFragment && oneOf c "!()*" then false
  else true.

(** The first pass of [unescape]: every [%] is followed by two hex
    digits, and a host holds no byte it may not hold. *)
Fixpoint unescapeOK (s : string) (mode : encoding) : bool :=
  match s with
  | "" => true
  | String c r =>
      if Ascii.eqb c "%" then
        match r with
        | String h1 (String h2 r2) =>
            if negb (ishex h1 && ishex h2) then false
            else if isMode mode encodeHost && (unhex h1 <? 8)
                    && negb (Ascii.eqb h1 "2" && Ascii.eqb h2 "5") then false
            else if isMode mode encodeZone
                    && negb (Ascii.eqb h1 "2" && Ascii.eqb h2 "5")
                    && negb (Z.lor (Z.shiftl (unhex h1) 4) (unhex h2) =? 32)
                    && shouldEscape (chr (Z.lor (Z.shiftl (unhex h1) 4) (unhex h2)))
                                    encodeHost then false
            else unescapeOK r2 mode
        | _ => false
        end
      else if (isMode mode encodeHost || isMode mode encodeZone)
              && (byte c <? 0x80) && shouldEscape c encodeHost then false
      else unescapeOK r mode
  end.

(** The second pass of [unescape]: [%XX] becomes the byte it names. *)
Fixpoint unescapeBytes (s : string) : string :=
  match s with
  | "" => ""
  | String c r =>
      if Ascii.eqb c "%" then
        match r with
        | String h1 (String h2 r2) =>
            String (chr (Z.lor (Z.shiftl (unhex h1) 4) (unhex h2))) (unescapeBytes r2)
        | _ => String c (unescapeBytes r)
        end
      else String c (unescapeBytes r)
  end.

Definition unescape (s : string) (mode : encoding) : option string :=
  if unescapeOK s mode then Some (unescapeBytes s) else None.

Fixpoint escape (s : string) (mode : encoding) : string :=
  match s with
  | "" => ""
  | String c r =>
      if shouldEscape c mode then
        String "%" (String (upperhex (Z.shiftr (byte c) 4))
                      (String (upperhex (Z.land (byte c) 15)) (escape r mode)))
      else String c (escape r mode)
  end.

Fixpoint validEncoded (s : string) (mode : encoding) : bool :=
  match s with
  | "" => true
  | String c r =>
      (if oneOf c "!$&'()*+,;=:@[]%" then true else negb (shouldEscape c mode))
      && validEncoded r mode
  end.

(** [stringContainsCTLByte] *)
Fixpoint stringContainsCTLByte (s : string) : bool :=
  match s with
  | "" => false
  | String c r => (byte c <? 0x20) || (byte c =? 0x7F) || stringContainsCTLByte r
  end.

(** [getScheme]: [(scheme, rest)], or [None] for "missing protocol
    scheme".  [i] is the index of the head of [s] in [rawURL]. *)
Fixpoint getSchemeFrom (rawURL : string) (i : Z) (s : string)
  : option (string * string) :=
  match s with
  | "" => Some ("", rawURL)
  | String c r =>
      if isAlpha c then getSchemeFrom rawURL (i + 1) r
      else if isDigit c || oneOf c "+-." then
        if i =? 0 then Some ("", rawURL) else getSchemeFrom rawURL (i + 1) r
      else if Ascii.eqb c ":" then
        if i =? 0 then None else Some (sliceTo i rawURL, r)
      else Some ("", rawURL)
  end.

Definition getScheme (rawURL : string) : option (string * string) :=
  getSchemeFrom rawURL 0 rawURL.

(** [validOptionalPort]: empty, or a colon and digits. *)
Fixpoint allDigits (s : string) : bool :=
  match s with
  | "" => true
  | String c r => isDigit c && allDigits r
  end.

Definition validOptionalPort (port : string) : bool :=
  match port with
  | "" => true
  | String c r => Ascii.eqb c ":" && allDigits r
  end.

(** [parseHost] *)
Definition parseHost (host : string) : option string :=
  if HasPrefix host "[" then
    let i := LastIndex host "]" in
    if i <? 0 then None
    else if negb (validOptionalPort (sliceFrom (i + 1) host)) then None
    else
      let zone := Index (sliceTo i host) "%25" in
      if 0 <=? zone then
        match unescape (sliceTo zone host) encodeHost,
              unescape (sliceFrom zone (sliceTo i host)) encodeZone,
              unescape (sliceFrom i host) encodeHost with
        | Some host1, Some host2, Some host3 => Some (host1 +:+ host2 +:+ host3)
        | _, _, _ => None
        end
      else unescape host encodeHost
  else
    let i := LastIndex host ":" in
    if (0 <=? i) && negb (validOptionalPort (sliceFrom i host)) then None
    else unescape host encodeHost.

(** [validUserinfo] *)
Definition validUserinfo (s : string) : bool :=
  forallb (fun c =>
             let r := rune c in
             ((0x41 <=? r) && (r <=? 0x5A)) || ((0x61 <=? r) && (r <=? 0x7A))
             || ((0x30 <=? r) && (r <=? 0x39))
             || ((r <? 0x80) && oneOf (chr r) "-._:~!$&'()*+,;=%@"))
          (rangeString s).

(** [parseAuthority] *)
Definition parseAuthority (authority : string) : option (option Userinfo * string) :=
  let i := LastIndex authority "@" in
  match (if i <? 0 then parseHost authority
         else parseHost (sliceFrom (i + 1) authority)) with
  | None => None
  | Some host =>
      if i <? 0 then Some (None, host)
      else
        let userinfo := sliceTo i authority in
        if negb (validUserinfo userinfo) then None
        else if negb (Contains userinfo ":") then
          match unescape userinfo encodeUserPassword with
          | None => None
          | Some u => Some (Some (mkUserinfo u "" false), host)
          end
        else
          let '(uname, pass, _) := Cut userinfo ":" in
          match unescape uname encodeUserPassword,
                unescape pass encodeUserPassword with
          | Some u, Some p => Some (Some (mkUserinfo u p true), host)
          | _, _ => None
          end
  end.

(** [URL.setPath] *)
Definition setPath (u : URL) (p : string) : option URL :=
  match unescape p encodePath with
  | None => None
  | Some path =>
      Some (mkURL (Scheme u) (Opaque u) (User u) (Host u) path
                  (if String.eqb p (escape path encodePath) then "" else p)
                  (OmitHost u) (ForceQuery u) (RawQuery u)
                  (Fragment u) (RawFragment u))
  end.

(** [URL.setFragment] *)
Definition setFragment (u : URL) (f : string) : option URL :=
  match unescape f encodeFragment with
  | None => None
  | Some frag =>
      Some (mkURL (Scheme u) (Opaque u) (User u) (Host u) (Path u) (RawPath u)
                  (OmitHost u) (ForceQuery u) (RawQuery u) frag
                  (if String.eqb f (escape frag encodeFragment) then "" else f))
  end.

(** [parse(rawURL, viaRequest = false)] *)
Definition parse (rawURL : string) : option URL :=
  if stringContainsCTLByte rawURL then None
  else if String.eqb rawURL "*" then
    Some (mkURL "" "" None "" "*" "" false false "" "" "")
  else
    match getScheme rawURL with
    | None => None
    | Some (scheme0, rest0) =>
        let scheme := ToLower scheme0 in
        let '(rest, forceQuery, rawQuery) :=
          if HasSuffix rest0 "?" && (Count rest0 "?" =? 1)
          then (sliceTo (len rest0 - 1) rest0, true, "")
          else let '(before, after, _) := Cut rest0 "?" in (before, false, after) in
        let url := mkURL scheme "" None "" "" "" false forceQuery rawQuery "" "" in
        if negb (HasPrefix rest "/") && negb (String.eqb scheme "") then
          (* a rootless path after a scheme is opaque *)
          Some (mkURL scheme rest None "" "" "" false forceQuery rawQuery "" "")
        else if negb (HasPrefix rest "/")
                && Contains (fst (fst (Cut rest "/"))) ":" then
          (* first path segment in URL cannot contain colon *)
          None
        else if (negb (String.eqb scheme "") || negb (HasPrefix rest "///"))
                && HasPrefix rest "//" then
          let authority0 := sliceFrom 2 rest in
          let i := Index authority0 "/" in
          let '(authority, rest') :=
            if 0 <=? i then (sliceTo i authority0, sliceFrom i authority0)
            else (authority0, "") in
          match parseAuthority authority with
          | None => None
          | Some (user, host) =>
              setPath (mkURL scheme "" user host "" "" false forceQuery rawQuery "" "")
                      rest'
          end
        else if negb (String.eqb scheme "") && HasPrefix rest "/" then
          setPath (mkURL scheme "" None "" "" "" true forceQuery rawQuery "" "") rest
        else setPath url rest
    end.

(** [url.Parse] *)
Definition Parse (rawURL : string) : option URL :=
  let '(u, frag, _) := Cut rawURL "#" in
  match parse u with
  | None => None
  | Some url => if String.eqb frag "" then Some url else setFragment url frag
  end.

(** [URL.IsAbs] *)
Definition IsAbs (u : URL) : bool := negb (String.eqb (Scheme u) "").

(** [URL.EscapedPath] *)
Definition EscapedPath (u : URL) : string :=
  if negb (String.eqb (RawPath u) "") && validEncoded (RawPath u) encodePath
     && match unescape (RawPath u) encodePath with
        | Some p => String.eqb p (Path u)
        | None => false
        end
  then RawPath u
  else if String.eqb (Path u) "*" then "*"
  else escape (Path u) encodePath.

(** [URL.EscapedFragment] *)
Definition EscapedFragment (u : URL) : string :=
  if negb (String.eqb (RawFragment u) "") && validEncoded (RawFragment u) encodeFragment
     && match unescape (RawFragment u) encodeFragment with
        | Some f => String.eqb f (Fragment u)
        | None => false
        end
  then RawFragment u
  else escape (Fragment u) encodeFragment.

(** [Userinfo.String] *)
Definition UserinfoString (ui : Userinfo) : string :=
  escape (username ui) encodeUserPassword
  +:+ (if passwordSet ui then ":" +:+ escape (password ui) encodeUserPassword else "").

Definition hasUser (u : URL) : bool :=
  match User u with Some _ => true | None => false end.

(** [splitHostPort] *)
Definition splitHostPort (hostPort : string) : string * string :=
  let colon := LastIndex hostPort ":" in
  let '(host, port) :=
    if (0 <=? colon) && validOptionalPort (sliceFrom colon hostPort)
    then (sliceTo colon hostPort, sliceFrom (colon + 1) hostPort)
    else (hostPort, "") in
  if HasPrefix host "[" && HasSuffix host "]"
  then (sliceTo (len host - 2) (sliceFrom 1 host), port)
  else (host, port).

(** [URL.Hostname] *)
Definition Hostname (u : URL) : string := fst (splitHostPort (Host u)).

(** The loop of [resolvePath] over the segments of [full]: [dst] is the
    text written so far, [first] tells that no segment has been written
    since the start or the last reset; the result is [dst] with the last
    segment [elem] cut off.  Every turn consumes a segment, so
    [len(full) + 1] turns are enough. *)
Fixpoint resolveLoop (fuel : nat) (remaining dst : string) (first : bool)
  : string * string :=
  match fuel with
  | O => (dst, "")
  | S fuel' =>
      let '(elem, remaining', found) := Cut remaining "/" in
      let '(dst', first') :=
        if String.eqb elem "." then (dst, false)
        else if String.eqb elem ".." then
          let str := sliceFrom 1 dst in
          let index := LastIndex str "/" in
          if index <? 0 then ("/", true) else ("/" +:+ sliceTo index str, first)
        else ((if first then dst else dst +:+ "/") +:+ elem, false) in
      if found then resolveLoop fuel' remaining' dst' first' else (dst', elem)
  end.

(** [resolvePath] *)
Definition resolvePath (base ref : string) : string :=
  let full :=
    if String.eqb ref "" then base
    else if negb (HasPrefix ref "/") then
      sliceTo (LastIndex base "/" + 1) base +:+ ref
    else ref in
  if String.eqb full "" then ""
  else
    let '(dst, elem) := resolveLoop (S (String.length full)) full "/" true in
    let r := if String.eqb elem "." || String.eqb elem ".." then dst +:+ "/" else dst in
    if (1 <? len r) && HasPrefix (sliceFrom 1 r) "/" then sliceFrom 1 r else r.

(** [url.setPath(p)] with the error dropped, as [ResolveReference] calls
    it. *)
Definition withPath (u : URL) (p : string) : URL :=
  match setPath u p with
  | Some u' => u'
  | None => u
  end.

(** [URL.ResolveReference] *)
Definition ResolveReference (u ref : URL) : URL :=
  let url := mkURL (if String.eqb (Scheme ref) "" then Scheme u else Scheme ref)
                   (Opaque ref) (User ref) (Host ref) (Path ref) (RawPath ref)
                   (OmitHost ref) (ForceQuery ref) (RawQuery ref)
                   (Fragment ref) (RawFragment ref) in
  if negb (String.eqb (Scheme ref) "") || negb (String.eqb (Host ref) "")
     || hasUser ref
  then withPath url (resolvePath (EscapedPath ref) "")
  else if negb (String.eqb (Opaque ref) "") then
    mkURL (Scheme url) (Opaque url) None "" "" (RawPath url) (OmitHost url)
          (ForceQuery url) (RawQuery url) (Fragment url) (RawFragment url)
  else
    let inherit := String.eqb (Path ref) "" && negb (ForceQuery ref)
                   && String.eqb (RawQuery ref) "" in
    let url :=
      if inherit then
        mkURL (Scheme url) (Opaque url) (User url) (Host url) (Path url)
              (RawPath url) (OmitHost url) (ForceQuery url) (RawQuery u)
              (if String.eqb (Fragment ref) "" then Fragment u else Fragment url)
              (if String.eqb (Fragment ref) "" then RawFragment u else RawFragment url)
      else url in
    if String.eqb (Path ref) "" && negb (String.eqb (Opaque u) "") then
      mkURL (Scheme url) (Opaque u) None "" "" (RawPath url) (OmitHost url)
            (ForceQuery url) (RawQuery url) (Fragment url) (RawFragment url)
    else
      withPath (mkURL (Scheme url) (Opaque url) (User u) (Host u) (Path url)
                      (RawPath url) (OmitHost url) (ForceQuery url) (RawQuery url)
                      (Fragment url) (RawFragment url))
               (resolvePath (EscapedPath u) (EscapedPath ref)).

(** [URL.String] *)
Definition String (u : URL) : string :=
  let buf := if String.eqb (Scheme u) "" then "" else Scheme u +:+ ":" in
  let buf :=
    if negb (String.eqb (Opaque u) "") then buf +:+ Opaque u
    else
      let buf :=
        if negb (String.eqb (Scheme u) "") || negb (String.eqb (Host u) "")
           || hasUser u
        then
          if OmitHost u && String.eqb (Host u) "" && negb (hasUser u) then buf
          else
            buf
            +:+ (if negb (String.eqb (Host u) "") || negb (String.eqb (Path u) "")
                    || hasUser u then "//" else "")
            +:+ match User u with
                | Some ui => UserinfoString ui +:+ "@"
                | None => ""
                end
            +:+ (if String.eqb (Host u) "" then "" else escape (Host u) encodeHost)
        else buf in
      let path := EscapedPath u in
      let buf :=
        if negb (String.eqb path "") && negb (HasPrefix path "/")
           && negb (String.eqb (Host u) "")
        then buf +:+ "/" else buf in
      let buf :=
        if String.eqb buf "" && Contains (fst (fst (Cut path "/"))) ":"
        then buf +:+ "./" else buf in
      buf +:+ path in
  let buf :=
    if ForceQuery u || negb (String.eqb (RawQuery u) "")
    then buf +:+ "?" +:+ RawQuery u else buf in
  if String.eqb (Fragment u) "" then buf
  else buf +:+ "#" +:+ EscapedFragment u.

End url.


(* ===================================================================== *)
(** * Parsed HTML and package [goquery]                                    *)
(* ===================================================================== *)

(** A parsed document is the node tree of [golang.org/x/net/html]; a
    [goquery] selection is the list of the nodes it matched, in document
    order.  The selector strings of the crawler are the three shapes of
    [Selector]. *)
Module goquery.

Record Attribute := mkAttr { Key : string; Val : string }.

#[warnings="-register-all"]
Inductive Node :=
| TextNode (data : string)
| CommentNode (data : string)
| ElementNode (tag : string) (attr : list Attribute) (children : list Node).

(** The children of the document node. *)
Definition Document := list Node.

Definition Selection := list Node.

Inductive Selector :=
| byTag (tag : string)                    (* "p" *)
| byTagAttr (tag key : string)            (* "a[href]" *)
| byTagAttrEq (tag key val : string).     (* meta[name="description"] *)

Definition hasAttr (key : string) (n : Node) : bool :=
  match n with
  | ElementNode _ attr _ => existsb (fun a => String.eqb (Key a) key) attr
  | _ => false
  end.

Definition hasAttrEq (key val : string) (n : Node) : bool :=
  match n with
  | ElementNode _ attr _ =>
      existsb (fun a => String.eqb (Key a) key && String.eqb (Val a) val) attr
  | _ => false
  end.

Definition hasTag (tag : string) (n : Node) : bool :=
  match n with
  | ElementNode t _ _ => String.eqb t tag
  | _ => false
  end.

Definition matches (sel : Selector) (n : Node) : bool :=
  match sel with
  | byTag tag => hasTag tag n
  | byTagAttr tag key => hasTag tag n && hasAttr key n
  | byTagAttrEq tag key val => hasTag tag n && hasAttrEq key val n
  end.

(** [Selector.MatchAll]: the node itself when it matches, then the
    matches among its descendants, in document order. *)
Fixpoint matchAll (sel : Selector) (n : Node) : list Node :=
  ((if matches sel n then [n] else [])
   ++ match n with
      | ElementNode _ _ children =>
          (fix all (cs : list Node) : list Node :=
             match cs with
             | [] => []
             | c :: cs' => matchAll sel c ++ all cs'
             end) children
      | _ => []
      end)%list.

(** [doc.Find(selector)] *)
Definition Find (doc : Document) (sel : Selector) : Selection :=
  flat_map (matchAll sel) doc.

(** [Selection.First] *)
Definition First (s : Selection) : Selection :=
  match s with
  | [] => []
  | n :: _ => [n]
  end.

(** The text nodes below [n], concatenated. *)
Fixpoint nodeText (n : Node) : string :=
  match n with
  | TextNode data => data
  | CommentNode _ => ""
  | ElementNode _ _ children =>
      (fix all (cs : list Node) : string :=
         match cs with
         | [] => ""
         | c :: cs' => nodeText c +:+ all cs'
         end) children
  end.

(** [Selection.Text] *)
Definition Text (s : Selection) : string :=
  fold_right (fun n acc => nodeText n +:+ acc) "" s.

(** [getAttributeValue] *)
Fixpoint attrValue (name : string) (attr : list Attribute) : string * bool :=
  match attr with
  | [] => ("", false)
  | a :: attr' => if String.eqb (Key a) name then (Val a, true) else attrValue name attr'
  end.

(** [Selection.Attr]: the attribute of the first node of the selection,
    and whether it is there. *)
Definition Attr (s : Selection) (name : string) : string * bool :=
  match s with
  | ElementNode _ attr _ :: _ => attrValue name attr
  | _ => ("", false)
  end.

(** [Selection.Each(func(i int, s *Selection))] for a function that
    updates variables of the enclosing function: [f] maps the
    one-node selection and the variables before to the variables after.
    No callback of the crawler uses the index [i]. *)
Definition Each {S : Type} (s : Selection) (f : Selection -> S -> S) (vars : S) : S :=
  fold_left (fun acc n => f [n] acc) s vars.

End goquery.


(* ===================================================================== *)
(** * The outside world of a crawl run                                    *)
(* ===================================================================== *)

(** [FindOne(...).Err()] and [UpdateOne(...)] of the MongoDB driver:
    [None] is [nil]. *)
Inductive MongoError := ErrNoDocuments | ErrOther.

(** What [client.Get] answers: the [Content-Type] header and the body;
    [Body = None] when reading the body fails. *)
Record Response := mkResponse { ContentType : string; Body : option string }.

(** The collaborators of the crawler: the page collection, the HTTP
    client, the HTML parser and the clock.  Their answers are under no
    constraint: an answer may depend on the moment of the call, given as
    the number of the loop iteration that makes it.  [P] is the type of
    the documents written to the collection. *)
Record World (P : Type) := mkWorld {
  FindOne : nat -> string -> option MongoError;
  UpdateOne : nat -> string -> P -> option MongoError;
  Get : nat -> string -> option Response;
  NewDocumentFromReader : string -> option goquery.Document;
  Now : nat -> Z
}.
Arguments FindOne {P}.
Arguments UpdateOne {P}.
Arguments Get {P}.
Arguments NewDocumentFromReader {P}.
Arguments Now {P}.

(** The lines the two revisions write with [log.Printf], by format. *)
Inductive LogLine :=
| Fetching (u : string)                 (* "Fetching: %s" *)
| Error_                                (* "error: %v" *)
| Crawled (n : Z)                       (* "Crawled %d pages" *)
| InvalidURL (u : string)               (* "invalid url %s: %v" *)
| SkipURL (u : string)                  (* "skip url (domain not allowed): %s" *)
| ErrorChecking (u : string)            (* "error checking existence for %s: %v" *)
| AlreadyInDB (u : string)              (* "already in DB, skipping: %s" *)
| FetchingAt (u : string) (depth : Z)   (* "Fetching: %s (depth %d)" *)
| ErrorFetching (u : string)            (* "error fetching %s: %v" *)
| ErrorUpserting (u : string)           (* "error upserting %s: %v" *)
| CrawledSoFar (n : Z)                  (* "Crawled %d pages so far" *)
| Finished (n : Z).                     (* "Finished crawl run. Pages crawled: %d" *)

(** The effects of a run, in the order they happen. *)
Inductive Event (P : Type) :=
| Log (line : LogLine)
| FindOneCall (pageURL : string)
| GetCall (u : string)
| UpdateOneCall (filterURL : string) (doc : P) (err : option MongoError)
| Sleep.
Arguments Log {P}.
Arguments FindOneCall {P}.
Arguments GetCall {P}.
Arguments UpdateOneCall {P}.
Arguments Sleep {P}.

(** [type QueueItem struct { URL string; Depth int }] *)
Module QueueItem.
Record t := mk { URL : string; Depth : Z }.
End QueueItem.

(** The variables of [crawlSeeds] that live across iterations: [queue],
    [visited] (a [map[string]bool] that only ever holds [true]) and
    [pagesCrawled]; with them the number of iterations made so far and the
    effects so far, the latest first.  [pagesCrawled] and the depths are
    Go [int]s, here [Z]: each is incremented only while it is below its
    bound, so neither wraps around. *)
Record State (P : Type) := mkState {
  queue : list QueueItem.t;
  visited : gset string;
  pagesCrawled : Z;
  tick : nat;
  trace : list (Event P)
}.
Arguments mkState {P}.
Arguments queue {P}.
Arguments visited {P}.
Arguments pagesCrawled {P}.
Arguments tick {P}.
Arguments trace {P}.

(** One evaluation of the loop condition and, when it holds, of the loop
    body: the loop is left, the body ran to its end or to a [continue], or
    the body panicked. *)
Inductive Step (P : Type) :=
| Exit
| Continue (s : State P)
| Panic (s : State P).
Arguments Exit {P}.
Arguments Continue {P}.
Arguments Panic {P}.

(** How a run of the loop ends. *)
Inductive Outcome (P : Type) :=
| Returned (s : State P)
| Panicked (s : State P).
Arguments Returned {P}.
Arguments Panicked {P}.

Definition finalState {P : Type} (o : Outcome P) : State P :=
  match o with
  | Returned s => s
  | Panicked s => s
  end.

(** The bounds of the [const] block that the loop reads.  The loop is
    written over any bounds; the source's are [sourceConfig]. *)
Record Config := mkConfig { maxPages : Z; maxDepth : Z }.

Section Loop.
Context {P : Type}.

Definition emit (e : Event P) (s : State P) : State P :=
  mkState (queue s) (visited s) (pagesCrawled s) (tick s) (e :: trace s).

Definition logPrintf (line : LogLine) (s : State P) : State P := emit (Log line) s.

(** [for cond { body }], given one evaluation [step] of condition and
    body; [None] when [fuel] iterations did not end the loop. *)
Fixpoint loop (step : State P -> Step P) (fuel : nat) (s : State P)
  : option (Outcome P) :=
  match fuel with
  | O => None
  | S fuel' =>
      match step s with
      | Exit => Some (Returned s)
      | Continue s' => loop step fuel' s'
      | Panic s' => Some (Panicked s')
      end
  end.

(** The state after [n] iterations, as long as the loop goes on. *)
Fixpoint iterate (step : State P -> Step P) (n : nat) (s : State P)
  : option (State P) :=
  match n with
  | O => Some s
  | S n' =>
      match step s with
      | Continue s' => iterate step n' s'
      | _ => None
      end
  end.

(** The documents passed to [UpdateOne], the latest first. *)
Fixpoint upserts (tr : list (Event P)) : list P :=
  match tr with
  | [] => []
  | UpdateOneCall _ doc _ :: tr' => doc :: upserts tr'
  | _ :: tr' => upserts tr'
  end.

(** The URLs passed to [client.Get], the latest first. *)
Fixpoint fetches (tr : list (Event P)) : list string :=
  match tr with
  | [] => []
  | GetCall u :: tr' => u :: fetches tr'
  | _ :: tr' => fetches tr'
  end.

(** The lines logged, the latest first. *)
Fixpoint logged (tr : list (Event P)) : list LogLine :=
  match tr with
  | [] => []
  | Log line :: tr' => line :: logged tr'
  | _ :: tr' => logged tr'
  end.

End Loop.

(* ===================================================================== *)
(** * The crawler: [src/web_crawler.go]                                   *)
(* ===================================================================== *)

(** ** Config *)

Definition MaxPagesPerRun : Z := 500.
Definition MaxBodyBytes : Z := 2 * 1024 * 1024.
Definition MaxDepth : Z := 5.
Definition MaxTextChars : Z := 70000.

Definition sourceConfig : Config := mkConfig MaxPagesPerRun MaxDepth.

(** ** UTF-8 safe *)

Definition safeUTF8 (s : string) : string := ToValidUTF8 s "".

(** ** Domain helpers *)

Definition isAllowedDomain (u : url.URL) (allowedDomains : list string) : bool :=
  if Z.of_nat (List.length allowedDomains) =? 0 then true
  else
    let host := url.Hostname u in
    existsb (fun d => HasSuffix host d) allowedDomains.

(** The three [return nil, err] of [normalizeURL]. *)
Inductive NormalizeError :=
| EmptyHref            (* fmt.Errorf("empty href") *)
| ParseError           (* the error of url.Parse *)
| UnsupportedScheme.   (* fmt.Errorf("unsupported scheme") *)

(** [parsed.Fragment = ""] *)
Definition clearFragment (u : url.URL) : url.URL :=
  url.mkURL (url.Scheme u) (url.Opaque u) (url.User u) (url.Host u) (url.Path u)
            (url.RawPath u) (url.OmitHost u) (url.ForceQuery u) (url.RawQuery u)
            "" (url.RawFragment u).

Definition normalizeURL (base : url.URL) (href : string) : url.URL + NormalizeError :=
  let href := TrimSpace href in
  if String.eqb href "" then inr EmptyHref
  else
    match url.Parse href with
    | None => inr ParseError
    | Some parsed =>
        let parsed :=
          if negb (url.IsAbs parsed) then url.ResolveReference base parsed
          else parsed in
        if negb (String.eqb (url.Scheme parsed) "http")
           && negb (String.eqb (url.Scheme parsed) "https")
        then inr UnsupportedScheme
        else inl (clearFragment parsed)
    end.

(** ** Page stored in MongoDB *)

Record Page := mkPage {
  URL : string;
  Title : string;
  Snippet : string;
  Favicon : string;
  SiteName : string;
  Image : string;
  Text : string;
  Links : list string;
  CrawlTime : Z
}.

(** ** Mongo *)

(** The document [upsertPage] hands to [UpdateOne]: the seven scalar
    string fields pass through [safeUTF8]; [Links] and [CrawlTime] are
    left as they come. *)
Definition sanitized (p : Page) : Page :=
  mkPage (safeUTF8 (URL p)) (safeUTF8 (Title p)) (safeUTF8 (Snippet p))
         (safeUTF8 (Favicon p)) (safeUTF8 (SiteName p)) (safeUTF8 (Image p))
         (safeUTF8 (Text p)) (Links p) (CrawlTime p).

(** [upsertPage]: the filter and the document of the call, and the error
    returned. *)
Definition upsertPage (w : World Page) (t : nat) (p : Page)
  : Event Page * option MongoError :=
  let p := sanitized p in
  let err := UpdateOne w t (URL p) p in
  (UpdateOneCall (URL p) p err, err).

Definition pageExists {P : Type} (w : World P) (t : nat) (pageURL : string)
  : bool * option MongoError :=
  let err := FindOne w t pageURL in
  match err with
  | Some ErrNoDocuments => (false, None)
  | _ => (match err with None => true | Some _ => false end, err)
  end.

(** ** Fetch *)

Definition fetchPage {P : Type} (w : World P) (t : nat) (u : string)
  : option goquery.Document :=
  match Get w t u with
  | None => None
  | Some resp =>
      if negb (Contains (ContentType resp) "text/html") then None
      else
        match Body resp with
        | None => None
        | Some body => NewDocumentFromReader w (sliceTo MaxBodyBytes body)
        end
  end.

(** ** Extract page *)

Definition metaContent (doc : goquery.Document) (key val : string) : string * bool :=
  goquery.Attr (goquery.Find doc (goquery.byTagAttrEq "meta" key val)) "content".

(** Lines 183: the title. *)
Definition extractTitle (doc : goquery.Document) : string :=
  TrimSpace (goquery.Text (goquery.First (goquery.Find doc (goquery.byTag "title")))).

(** Lines 185-219: the snippet, through the updates of [snippet]. *)
Definition extractSnippet (doc : goquery.Document) : string :=
  let snippet := "" in
  (* 1. meta description *)
  let snippet :=
    let (desc, ok) := metaContent doc "name" "description" in
    if ok then TrimSpace desc else snippet in
  (* 2. og:description *)
  let snippet :=
    if String.eqb snippet "" then
      let (og, ok) := metaContent doc "property" "og:description" in
      if ok then TrimSpace og else snippet
    else snippet in
  (* 3. first <p> *)
  let snippet :=
    if String.eqb snippet "" then
      goquery.Each (goquery.Find doc (goquery.byTag "p"))
        (fun s snippet =>
           let txt := TrimSpace (goquery.Text s) in
           if (40 <? len txt) && String.eqb snippet "" then txt else snippet)
        snippet
    else snippet in
  (* 4. fallback *)
  if String.eqb snippet "" then
    let raw := TrimSpace (goquery.Text (goquery.Find doc (goquery.byTag "body"))) in
    let runes := toRunes raw in
    if 300 <? Z.of_nat (List.length runes) then ofRunes (sliceRunes 300 runes)
    else raw
  else snippet.

(** Lines 232-236 and 273-277, the same code for the favicon and the
    image: [ref] is parsed and, when relative, resolved against the page.
    [None] is the panic of a method called on a nil [*url.URL]: [String]
    on the [fu] of a failed parse, or [ResolveReference] on the
    [parsedURL] of a page address that did not parse. *)
Definition absolute (parsedURL : option url.URL) (ref : string) : option string :=
  match url.Parse ref with
  | None => None
  | Some fu =>
      if negb (url.IsAbs fu) then
        match parsedURL with
        | None => None
        | Some base => Some (url.String (url.ResolveReference base fu))
        end
      else Some (url.String fu)
  end.

(** Lines 222-237: the favicon; [None] is a panic. *)
Definition extractFavicon (parsedURL : option url.URL) (doc : goquery.Document)
  : option string :=
  let favicon :=
    goquery.Each (goquery.Find doc (goquery.byTag "link"))
      (fun s favicon =>
         let (rel, _) := goquery.Attr s "rel" in
         let (href, _) := goquery.Attr s "href" in
         if Contains (ToLower rel) "icon" then href else favicon)
      "" in
  if negb (String.eqb favicon "") then absolute parsedURL favicon
  else Some favicon.

(** Lines 240-245: the site name; [None] is the panic of [Hostname] on a
    nil [parsedURL]. *)
Definition extractSiteName (parsedURL : option url.URL) (doc : goquery.Document)
  : option string :=
  match parsedURL with
  | None => None
  | Some pu =>
      let siteName := url.Hostname pu in
      let (sn, ok) := metaContent doc "property" "og:site_name" in
      Some (if ok && negb (String.eqb (TrimSpace sn) "") then sn else siteName)
  end.

(** Lines 248-278: the preview image; [None] is a panic. *)
Definition extractImage (parsedURL : option url.URL) (doc : goquery.Document)
  : option string :=
  let img := "" in
  let img :=
    let (ogImg, ok) := metaContent doc "property" "og:image" in
    if ok then ogImg else img in
  let img :=
    if String.eqb img "" then
      let (twImg, ok) := metaContent doc "name" "twitter:image" in
      if ok then twImg else img
    else img in
  let img :=
    if String.eqb img "" then
      goquery.Each (goquery.Find doc (goquery.byTag "img"))
        (fun s img =>
           if negb (String.eqb img "") then img
           else
             let (src, ok) := goquery.Attr s "src" in
             if negb ok || String.eqb src "" then img
             else if Contains src "logo" then img
             else src)
        img
    else img in
  if negb (String.eqb img "") then absolute parsedURL img
  else Some img.

(** Lines 281-285: the text of the body, cut to [MaxTextChars] runes. *)
Definition extractText (doc : goquery.Document) : string :=
  let text := TrimSpace (goquery.Text (goquery.Find doc (goquery.byTag "body"))) in
  let runes := toRunes text in
  if MaxTextChars <? Z.of_nat (List.length runes)
  then ofRunes (sliceRunes MaxTextChars runes)
  else text.

(** Lines 288-292: the links, each through [safeUTF8]. *)
Definition extractLinks (doc : goquery.Document) : list string :=
  goquery.Each (goquery.Find doc (goquery.byTagAttr "a" "href"))
    (fun s links => let (h, _) := goquery.Attr s "href" in (links ++ [safeUTF8 h])%list)
    [].

(** [extractPage]; [now] is the reading of [time.Now().UTC()].  [None] is
    a panic, a run-time error that ends the process. *)
Definition extractPage (u : string) (doc : goquery.Document) (now : Z) : option Page :=
  let parsedURL := url.Parse u in
  let title := extractTitle doc in
  let snippet := extractSnippet doc in
  favicon ← extractFavicon parsedURL doc;
  siteName ← extractSiteName parsedURL doc;
  img ← extractImage parsedURL doc;
  let text := extractText doc in
  let links := extractLinks doc in
  Some (mkPage u title snippet favicon siteName img text links now).

(** ** Crawling *)

(** Lines 380-385: the links of a crawled page that normalize and are not
    in [visited] join the queue, one level deeper. *)
Definition enqueueLinks (parsedURL : url.URL) (visited : gset string) (depth : Z)
                        (links : list string) (queue : list QueueItem.t)
  : list QueueItem.t :=
  fold_left
    (fun queue href =>
       match normalizeURL parsedURL href with
       | inl norm =>
           if negb (bool_decide (url.String norm ∈ visited))
           then (queue ++ [QueueItem.mk (url.String norm) (depth + 1)])%list
           else queue
       | inr _ => queue
       end)
    links queue.

(** Lines 342-389: the loop condition and one pass through the body. *)
Definition crawlStep (cfg : Config) (allowedDomains : list string) (w : World Page)
                     (s : State Page) : Step Page :=
  match queue s with
  | [] => Exit
  | item :: rest =>
      if negb (pagesCrawled s <? maxPages cfg) then Exit
      else
        let t := tick s in
        let s := mkState rest (visited s) (pagesCrawled s) (S t) (trace s) in
        if bool_decide (QueueItem.URL item ∈ visited s) then Continue s
        else
          let s := mkState (queue s) ({[QueueItem.URL item]} ∪ visited s)
                           (pagesCrawled s) (tick s) (trace s) in
          match url.Parse (QueueItem.URL item) with
          | None => Continue s
          | Some parsedURL =>
              if negb (isAllowedDomain parsedURL allowedDomains) then Continue s
              else
                let (exists_, err) := pageExists w t (QueueItem.URL item) in
                let s := emit (FindOneCall (QueueItem.URL item)) s in
                if (match err with None => true | Some _ => false end) && exists_
                then Continue s
                else
                  let s := logPrintf (Fetching (QueueItem.URL item)) s in
                  let s := emit (GetCall (QueueItem.URL item)) s in
                  match fetchPage w t (QueueItem.URL item) with
                  | None => Continue (logPrintf Error_ s)
                  | Some doc =>
                      match extractPage (QueueItem.URL item) doc (Now w t) with
                      | None => Panic s
                      | Some page =>
                          let (call, _) := upsertPage w t page in
                          let s := emit call s in
                          let s := mkState (queue s) (visited s) (pagesCrawled s + 1)
                                           (tick s) (trace s) in
                          let s := logPrintf (Crawled (pagesCrawled s)) s in
                          let s :=
                            if QueueItem.Depth item <? maxDepth cfg then
                              mkState (enqueueLinks parsedURL (visited s)
                                         (QueueItem.Depth item) (Links page) (queue s))
                                      (visited s) (pagesCrawled s) (tick s) (trace s)
                            else s in
                          Continue (emit Sleep s)
                      end
                  end
          end
  end.

(** Lines 315-338: the seeds and the allowed domains, from the values of
    [SEED_URLS] and [ALLOWED_DOMAINS]. *)
Definition seedQueue (seedsEnv : string) : list QueueItem.t :=
  fold_left
    (fun queue s =>
       let s := TrimSpace s in
       if negb (String.eqb s "") then (queue ++ [QueueItem.mk s 0])%list else queue)
    (Split seedsEnv ",") [].

Definition allowedDomainsOf (allowedDomainsEnv : string) : list string :=
  if negb (String.eqb allowedDomainsEnv "")
  then map TrimSpace (Split allowedDomainsEnv ",")
  else [].

Definition initialState {P : Type} (seedsEnv : string) : State P :=
  mkState (seedQueue seedsEnv) ∅ 0 0%nat [].

(** The result of [crawlSeeds]: the error of line 313, the [nil] of line
    391, or a panic on the way. *)
Inductive RunResult (P : Type) :=
| SeedsNotSet
| ReturnedNil (s : State P)
| Crashed (s : State P).
Arguments SeedsNotSet {P}.
Arguments ReturnedNil {P}.
Arguments Crashed {P}.

(** [crawlSeeds], over the bounds [cfg]; [None] when [fuel] iterations did
    not end the loop. *)
Definition crawlSeedsWith (cfg : Config) (w : World Page)
                          (seedsEnv allowedDomainsEnv : string) (fuel : nat)
  : option (RunResult Page) :=
  if String.eqb seedsEnv "" then Some SeedsNotSet
  else
    match loop (crawlStep cfg (allowedDomainsOf allowedDomainsEnv) w) fuel
               (initialState seedsEnv) with
    | None => None
    | Some (Returned s) => Some (ReturnedNil s)
    | Some (Panicked s) => Some (Crashed s)
    end.

Definition crawlSeeds := crawlSeedsWith sourceConfig.

(* ===================================================================== *)
(** * The earlier revision: [src/unnamed/part_000]                        *)
(* ===================================================================== *)

(** The earlier revision has the same constants, [isAllowedDomain],
    [normalizeURL], [pageExists] and [fetchPage]; its page has five
    fields, nothing passes through [safeUTF8], and the loop logs more and
    checks the result of [upsertPage]. *)
Module Legacy.

Record Page := mkPage {
  URL : string;
  Title : string;
  Text : string;
  Links : list string;
  CrawlTime : Z
}.

(** [upsertPage]: the page goes to [UpdateOne] as it is. *)
Definition upsertPage (w : World Page) (t : nat) (p : Page)
  : Event Page * option MongoError :=
  let err := UpdateOne w t (URL p) p in
  (UpdateOneCall (URL p) p err, err).

Definition extractPage (u : string) (doc : goquery.Document) (now : Z) : Page :=
  let title :=
    TrimSpace (goquery.Text (goquery.First (goquery.Find doc (goquery.byTag "title")))) in
  let text := TrimSpace (goquery.Text (goquery.Find doc (goquery.byTag "body"))) in
  let runes := toRunes text in
  let text :=
    if MaxTextChars <? Z.of_nat (List.length runes)
    then ofRunes (sliceRunes MaxTextChars runes)
    else text in
  let links :=
    goquery.Each (goquery.Find doc (goquery.byTagAttr "a" "href"))
      (fun s links => let (href, _) := goquery.Attr s "href" in (links ++ [href])%list)
      [] in
  mkPage u title text links now.

(** Lines 230-293: the loop condition and one pass through the body.
    The inner loop of lines 279-290 is [enqueueLinks]. *)
Definition crawlStep (cfg : Config) (allowedDomains : list string) (w : World Page)
                     (s : State Page) : Step Page :=
  match queue s with
  | [] => Exit
  | item :: rest =>
      if negb (pagesCrawled s <? maxPages cfg) then Exit
      else
        let t := tick s in
        let s := mkState rest (visited s) (pagesCrawled s) (S t) (trace s) in
        if bool_decide (QueueItem.URL item ∈ visited s) then Continue s
        else
          let s := mkState (queue s) ({[QueueItem.URL item]} ∪ visited s)
                           (pagesCrawled s) (tick s) (trace s) in
          match url.Parse (QueueItem.URL item) with
          | None => Continue (logPrintf (InvalidURL (QueueItem.URL item)) s)
          | Some parsedURL =>
              if negb (isAllowedDomain parsedURL allowedDomains)
              then Continue (logPrintf (SkipURL (QueueItem.URL item)) s)
              else
                let (exists_, err) := pageExists w t (QueueItem.URL item) in
                let s := emit (FindOneCall (QueueItem.URL item)) s in
                let s :=
                  match err with
                  | Some _ => logPrintf (ErrorChecking (QueueItem.URL item)) s
                  | None => s
                  end in
                if exists_
                then Continue (logPrintf (AlreadyInDB (QueueItem.URL item)) s)
                else
                  let s := logPrintf (FetchingAt (QueueItem.URL item)
                                                 (QueueItem.Depth item)) s in
                  let s := emit (GetCall (QueueItem.URL item)) s in
                  match fetchPage w t (QueueItem.URL item) with
                  | None => Continue (logPrintf (ErrorFetching (QueueItem.URL item)) s)
                  | Some doc =>
                      let page := extractPage (QueueItem.URL item) doc (Now w t) in
                      let (call, err) := upsertPage w t page in
                      let s := emit call s in
                      match err with
                      | Some _ =>
                          Continue (logPrintf (ErrorUpserting (QueueItem.URL item)) s)
                      | None =>
                          let s := mkState (queue s) (visited s) (pagesCrawled s + 1)
                                           (tick s) (trace s) in
                          let s := logPrintf (CrawledSoFar (pagesCrawled s)) s in
                          let s :=
                            if QueueItem.Depth item <? maxDepth cfg then
                              mkState (enqueueLinks parsedURL (visited s)
                                         (QueueItem.Depth item) (Links page) (queue s))
                                      (visited s) (pagesCrawled s) (tick s) (trace s)
                            else s in
                          Continue (emit Sleep s)
                      end
                  end
          end
  end.

(** [crawlSeeds], over the bounds [cfg]. *)
Definition crawlSeedsWith (cfg : Config) (w : World Page)
                          (seedsEnv allowedDomainsEnv : string) (fuel : nat)
  : option (RunResult Page) :=
  if String.eqb seedsEnv "" then Some SeedsNotSet
  else
    match loop (crawlStep cfg (allowedDomainsOf allowedDomainsEnv) w) fuel
               (initialState seedsEnv) with
    | None => None
    | Some (Returned s) =>
        Some (ReturnedNil (logPrintf (Finished (pagesCrawled s)) s))
    | Some (Panicked s) => Some (Crashed s)
    end.

Definition crawlSeeds := crawlSeedsWith sourceConfig.

End Legacy.

(* ===================================================================== *)
(** * Facts about Go strings                                              *)
(* ===================================================================== *)

Section StringFacts.

Lemma len_nonneg (s : string) : 0 <= len s.
Proof. unfold len. lia. Qed.

Lemma len_String (c : ascii) (s : string) : len (String c s) = len s + 1.
Proof. unfold len. cbn [String.length]. lia. Qed.

Lemma len_empty : len "" = 0.
Proof. reflexivity. Qed.

Lemma app_empty_l (s : string) : "" +:+ s = s.
Proof. reflexivity. Qed.

Lemma app_String (c : ascii) (s t : string) : String c s +:+ t = String c (s +:+ t).
Proof. reflexivity. Qed.

Lemma len_app (s t : string) : len (s +:+ t) = len s + len t.
Proof.
  induction s as [|c s IH].
  - rewrite app_empty_l, len_empty. lia.
  - rewrite app_String, !len_String, IH. lia.
Qed.

Lemma app_empty_r (s : string) : s +:+ "" = s.
Proof.
  induction s as [|c s IH]; [reflexivity|]. now rewrite app_String, IH.
Qed.

Lemma app_assoc_str (s t u : string) : (s +:+ t) +:+ u = s +:+ (t +:+ u).
Proof.
  induction s as [|c s IH]; [reflexivity|]. now rewrite !app_String, IH.
Qed.

(** [s[:n] + s[n:] == s] *)
Lemma sliceTo_sliceFrom (s : string) (n : Z) : sliceTo n s +:+ sliceFrom n s = s.
Proof.
  revert n. induction s as [|c s IH]; intros n; cbn [sliceTo sliceFrom].
  - reflexivity.
  - destruct (n <=? 0); [reflexivity | now rewrite app_String, IH].
Qed.

Lemma sliceFrom_app (p d : string) : sliceFrom (len p) (p +:+ d) = d.
Proof.
  induction p as [|c p IH].
  - rewrite app_empty_l, len_empty. destruct d; reflexivity.
  - rewrite app_String. cbn [sliceFrom]. rewrite len_String.
    pose proof (len_nonneg p).
    destruct (len p + 1 <=? 0) eqn:E; [lia|].
    replace (len p + 1 - 1) with (len p) by lia. exact IH.
Qed.

(** [strings.HasSuffix] holds exactly of the strings that end with the
    suffix. *)
Lemma HasSuffix_iff (s suffix : string) :
  HasSuffix s suffix = true <-> exists p, s = p +:+ suffix.
Proof.
  unfold HasSuffix. rewrite andb_true_iff, Z.leb_le, String.eqb_eq. split.
  - intros [_ H]. exists (sliceTo (len s - len suffix) s).
    rewrite <- H at 2. symmetry. apply sliceTo_sliceFrom.
  - intros [p ->]. rewrite len_app. pose proof (len_nonneg p). split; [lia|].
    replace (len p + len suffix - len suffix) with (len p) by lia.
    apply sliceFrom_app.
Qed.

(** ** Decoding UTF-8 *)

(** A chunk is stable when it decodes the same way in front of any
    text; that is the case of every chunk but an invalid byte. *)
Definition stable (c : Chunk) : Prop :=
  isInvalid c = false -> forall t, rangeString (raw c +:+ t) = c :: rangeString t.

Local Arguments byte : simpl never.
Local Arguments first : simpl never.
Local Arguments Z.lor : simpl never.
Local Arguments Z.land : simpl never.
Local Arguments Z.shiftl : simpl never.
Local Arguments Z.ltb : simpl never.
Local Arguments Z.leb : simpl never.
Local Arguments Z.eqb : simpl never.

Local Ltac step_with rest :=
  eexists _, rest;
  split; [reflexivity
         | split; [cbn [String.length]; lia | split; [reflexivity|]]].

Local Ltac stable_by_decoding :=
  intros _ t; cbn [raw]; rewrite !app_String, app_empty_l; cbn [rangeString];
  unfold DecodeRuneInString.

(** One turn of the range loop: it reads a chunk off the front. *)
Lemma rangeString_step (c0 : ascii) (r0 : string) :
  exists c rest,
    rangeString (String c0 r0) = c :: rangeString rest
    /\ (String.length rest <= String.length r0)%nat
    /\ raw c +:+ rest = String c0 r0
    /\ stable c.
Proof.
  cbn [rangeString]. unfold DecodeRuneInString.
  destruct (byte c0 <? RuneSelf) eqn:E0.
  { step_with r0. stable_by_decoding. rewrite E0. reflexivity. }
  destruct (first (byte c0)) as [[[sz lo] hi]|] eqn:E1.
  2:{ step_with r0; intros H; discriminate H. }
  destruct r0 as [|c1 r1]; [step_with ""; intros H; discriminate H|].
  destruct ((byte c1 <? lo) || (hi <? byte c1)) eqn:E2;
    [step_with (String c1 r1); intros H; discriminate H|].
  destruct (sz <=? 2) eqn:E3.
  { step_with r1. stable_by_decoding. rewrite E0, E1, E2, E3. reflexivity. }
  destruct r1 as [|c2 r2]; [step_with (String c1 ""); intros H; discriminate H|].
  destruct ((byte c2 <? locb) || (hicb <? byte c2)) eqn:E4;
    [step_with (String c1 (String c2 r2)); intros H; discriminate H|].
  destruct (sz <=? 3) eqn:E5.
  { step_with r2. stable_by_decoding. rewrite E0, E1, E2, E3, E4, E5. reflexivity. }
  destruct r2 as [|c3 r3];
    [step_with (String c1 (String c2 "")); intros H; discriminate H|].
  destruct ((byte c3 <? locb) || (hicb <? byte c3)) eqn:E6;
    [step_with (String c1 (String c2 (String c3 r3))); intros H; discriminate H|].
  step_with r3. stable_by_decoding. rewrite E0, E1, E2, E3, E4, E5, E6. reflexivity.
Qed.

(** Induction along the range loop. *)
Lemma rangeString_ind (Q : string -> list Chunk -> Prop) :
  Q "" [] ->
  (forall s c rest,
      raw c +:+ rest = s -> raw c <> "" -> stable c ->
      Q rest (rangeString rest) -> Q s (c :: rangeString rest)) ->
  forall s, Q s (rangeString s).
Proof.
  intros Hnil Hcons s.
  remember (String.length s) as n eqn:Hn.
  assert (Hle : (String.length s <= n)%nat) by lia. clear Hn.
  revert s Hle. induction n as [|n IH]; intros s Hle.
  - destruct s; [exact Hnil | cbn in Hle; lia].
  - destruct s as [|c0 r0]; [exact Hnil|].
    destruct (rangeString_step c0 r0) as (c & rest & Hr & Hlen & Hraw & Hst).
    rewrite Hr. apply Hcons; [exact Hraw | | exact Hst |].
    + intros E. rewrite E, app_empty_l in Hraw. subst rest.
      cbn [String.length] in Hlen. lia.
    + apply IH. cbn [String.length] in Hle. lia.
Qed.

Lemma concatRaw_cons (c : Chunk) (cs : list Chunk) :
  concatRaw (c :: cs) = raw c +:+ concatRaw cs.
Proof. reflexivity. Qed.

(** The chunks of a string are its bytes, in order. *)
Lemma concatRaw_rangeString (s : string) : concatRaw (rangeString s) = s.
Proof.
  apply (rangeString_ind (fun s cs => concatRaw cs = s)); [reflexivity|].
  intros s' c rest Hraw _ _ IH. now rewrite concatRaw_cons, IH.
Qed.

Lemma rangeString_stable (s : string) : Forall stable (rangeString s).
Proof.
  apply (rangeString_ind (fun _ cs => Forall stable cs)); [constructor|].
  intros s' c rest _ _ Hst IH. now constructor.
Qed.

Lemma rangeString_raw_nonempty (s : string) :
  Forall (fun c => raw c <> "") (rangeString s).
Proof.
  apply (rangeString_ind (fun _ cs => Forall (fun c => raw c <> "") cs));
    [constructor|].
  intros s' c rest _ Hne _ IH. now constructor.
Qed.

(** A string has at most as many runes as bytes. *)
Lemma RuneCount_le_len (s : string) : RuneCountInString s <= len s.
Proof.
  unfold RuneCountInString.
  apply (rangeString_ind (fun s cs => Z.of_nat (List.length cs) <= len s));
    [rewrite len_empty; cbn; lia|].
  intros s' c rest Hraw Hne _ IH. subst s'. rewrite len_app.
  cbn [List.length]. destruct (raw c) as [|a r]; [congruence|].
  rewrite len_String. pose proof (len_nonneg r). lia.
Qed.

(** Stable valid chunks, concatenated, decode to themselves. *)
Lemma rangeString_concatRaw (cs : list Chunk) :
  Forall stable cs -> forallb (fun c => negb (isInvalid c)) cs = true ->
  rangeString (concatRaw cs) = cs.
Proof.
  induction cs as [|c cs IH]; intros Hst Hv; [reflexivity|].
  inversion Hst as [|? ? Hc Hcs]; subst.
  cbn [forallb] in Hv. apply andb_true_iff in Hv as [Hvc Hvcs].
  rewrite concatRaw_cons, Hc, IH; auto.
  now apply negb_true_iff.
Qed.

Definition validChunks (cs : list Chunk) : list Chunk :=
  List.filter (fun c => negb (isInvalid c)) cs.

(** With the empty replacement, [ToValidUTF8] drops the invalid bytes
    and nothing else. *)
Lemma toValidLoop_empty (invalid : bool) (cs : list Chunk) :
  toValidLoop "" invalid cs = concatRaw (validChunks cs).
Proof.
  revert invalid. induction cs as [|c cs IH]; intros invalid; [reflexivity|].
  cbn [toValidLoop validChunks List.filter].
  destruct (isInvalid c); cbn [negb].
  - rewrite IH. destruct invalid; reflexivity.
  - rewrite IH. reflexivity.
Qed.

Lemma safeUTF8_strips (s : string) :
  safeUTF8 s = concatRaw (validChunks (rangeString s)).
Proof. unfold safeUTF8, ToValidUTF8. apply toValidLoop_empty. Qed.

Lemma Forall_filter_keep {A : Type} (Q : A -> Prop) (f : A -> bool) (l : list A) :
  Forall Q l -> Forall Q (List.filter f l).
Proof.
  induction 1 as [|x l Hx Hl IH]; cbn; [constructor|].
  destruct (f x); [constructor|]; assumption.
Qed.

Lemma forallb_filter_same {A : Type} (f : A -> bool) (l : list A) :
  forallb f (List.filter f l) = true.
Proof.
  induction l as [|x l IH]; [reflexivity|]. cbn.
  destruct (f x) eqn:E; [cbn; now rewrite E|exact IH].
Qed.

Lemma rangeString_safeUTF8 (s : string) :
  rangeString (safeUTF8 s) = validChunks (rangeString s).
Proof.
  rewrite safeUTF8_strips. apply rangeString_concatRaw.
  - apply Forall_filter_keep, rangeString_stable.
  - apply forallb_filter_same.
Qed.

(** What [safeUTF8] returns is valid UTF-8. *)
Lemma ValidString_safeUTF8 (s : string) : ValidString (safeUTF8 s) = true.
Proof.
  unfold ValidString. rewrite rangeString_safeUTF8. apply forallb_filter_same.
Qed.

Lemma filter_all_true {A : Type} (f : A -> bool) (l : list A) :
  forallb f l = true -> List.filter f l = l.
Proof.
  induction l as [|x l IH]; [reflexivity|]. cbn.
  intros H. apply andb_true_iff in H as [Hx Hl]. now rewrite Hx, IH.
Qed.

(** Valid UTF-8 passes through [safeUTF8] unchanged. *)
Lemma safeUTF8_valid (s : string) : ValidString s = true -> safeUTF8 s = s.
Proof.
  intros H. rewrite safeUTF8_strips. unfold validChunks.
  rewrite filter_all_true by exact H. apply concatRaw_rangeString.
Qed.

End StringFacts.

(* ===================================================================== *)
(** * Domain policy and URL normalization                                 *)
(* ===================================================================== *)

(** C10.  [isAllowedDomain] accepts every URL when the allow-list is
    empty; otherwise it accepts a URL exactly when the host name ends
    with one of the entries (a suffix match: a host name [p ++ e] for an
    entry [e]).  So a URL of [blog.example.com] passes the list
    [example.com], and a URL of [example.org] does not. *)
Theorem isAllowedDomain_suffix_match :
  (forall u allowedDomains,
      isAllowedDomain u allowedDomains = true <->
      allowedDomains = []
      \/ exists e p, In e allowedDomains /\ url.Hostname u = p +:+ e)
  /\ (exists u, url.Parse "https://blog.example.com" = Some u
                /\ isAllowedDomain u ["example.com"] = true)
  /\ (exists u, url.Parse "https://example.org" = Some u
                /\ isAllowedDomain u ["example.com"] = false).
Proof.
  split; [|split].
  - intros u l. unfold isAllowedDomain. destruct l as [|d l].
    + cbn. split; [intros _; now left | reflexivity].
    + replace (Z.of_nat (List.length (d :: l)) =? 0) with false
        by (symmetry; apply Z.eqb_neq; cbn [List.length]; lia).
      rewrite existsb_exists. split.
      * intros (e & Hin & Hsuf). right. apply HasSuffix_iff in Hsuf as [p Hp].
        now exists e, p.
      * intros [Hnil | (e & p & Hin & Hp)]; [discriminate Hnil|].
        exists e. split; [exact Hin|]. apply HasSuffix_iff. now exists p.
  - eexists. split; [vm_compute; reflexivity | vm_compute; reflexivity].
  - eexists. split; [vm_compute; reflexivity | vm_compute; reflexivity].
Qed.

(** The reference [parsed], resolved against [base] when it is not
    absolute. *)
Definition resolved (base parsed : url.URL) : url.URL :=
  if url.IsAbs parsed then parsed else url.ResolveReference base parsed.

Definition httpScheme (u : url.URL) : bool :=
  String.eqb (url.Scheme u) "http" || String.eqb (url.Scheme u) "https".

Lemma normalizeURL_unfold (base : url.URL) (href : string) :
  normalizeURL base href =
  if String.eqb (TrimSpace href) "" then inr EmptyHref
  else match url.Parse (TrimSpace href) with
       | None => inr ParseError
       | Some parsed =>
           if httpScheme (resolved base parsed)
           then inl (clearFragment (resolved base parsed))
           else inr UnsupportedScheme
       end.
Proof.
  unfold normalizeURL, resolved, httpScheme.
  destruct (String.eqb (TrimSpace href) ""); [reflexivity|].
  destruct (url.Parse (TrimSpace href)) as [parsed|]; [|reflexivity].
  destruct (url.IsAbs parsed); cbn [negb];
    match goal with
    | |- context [String.eqb (url.Scheme ?u) "http"] =>
        destruct (String.eqb (url.Scheme u) "http");
        destruct (String.eqb (url.Scheme u) "https"); reflexivity
    end.
Qed.

(** What a successful [normalizeURL] returns. *)
Lemma normalizeURL_ok (base : url.URL) (href : string) (u : url.URL) :
  normalizeURL base href = inl u ->
  httpScheme u = true /\ url.Fragment u = "".
Proof.
  rewrite normalizeURL_unfold.
  destruct (String.eqb (TrimSpace href) ""); [discriminate|].
  destruct (url.Parse (TrimSpace href)) as [parsed|]; [|discriminate].
  destruct (httpScheme (resolved base parsed)) eqn:E; [|discriminate].
  intros [= <-]. split; [exact E | reflexivity].
Qed.

(** C7.  [normalizeURL] trims the href, and fails exactly when the
    trimmed href is empty ([EmptyHref]), does not parse ([ParseError]),
    or has, once resolved against the base when it is relative, a scheme
    other than http and https ([UnsupportedScheme]).  On success the
    result is the resolved URL with the fragment cleared, every other
    field as it was.  So ["/y"] against [https://a.com/x] is
    [https://a.com/y], a [#frag] is dropped, and a [javascript:] href
    fails with [UnsupportedScheme]. *)
Theorem normalizeURL_spec :
  (forall base href,
      let h := TrimSpace href in
      (normalizeURL base href = inr EmptyHref <-> h = "")
      /\ (normalizeURL base href = inr ParseError <->
          h <> "" /\ url.Parse h = None)
      /\ (normalizeURL base href = inr UnsupportedScheme <->
          h <> "" /\ exists parsed,
            url.Parse h = Some parsed /\ httpScheme (resolved base parsed) = false)
      /\ (forall u, normalizeURL base href = inl u <->
          h <> "" /\ exists parsed,
            url.Parse h = Some parsed /\ httpScheme (resolved base parsed) = true
            /\ u = clearFragment (resolved base parsed)))
  /\ (forall u,
         url.Fragment (clearFragment u) = ""
         /\ url.Scheme (clearFragment u) = url.Scheme u
         /\ url.Opaque (clearFragment u) = url.Opaque u
         /\ url.User (clearFragment u) = url.User u
         /\ url.Host (clearFragment u) = url.Host u
         /\ url.Path (clearFragment u) = url.Path u
         /\ url.RawPath (clearFragment u) = url.RawPath u
         /\ url.ForceQuery (clearFragment u) = url.ForceQuery u
         /\ url.RawQuery (clearFragment u) = url.RawQuery u)
  /\ (exists base, url.Parse "https://a.com/x" = Some base
         /\ (exists u, normalizeURL base "/y" = inl u
                       /\ url.String u = "https://a.com/y")
         /\ (exists u, normalizeURL base "https://a.com/y#frag" = inl u
                       /\ url.String u = "https://a.com/y")
         /\ normalizeURL base "javascript:void(0)" = inr UnsupportedScheme).
Proof.
  split; [|split].
  - intros base href h. subst h. rewrite normalizeURL_unfold.
    destruct (String.eqb_spec (TrimSpace href) "") as [E|E];
      [|destruct (url.Parse (TrimSpace href)) as [parsed|] eqn:EP;
        [destruct (httpScheme (resolved base parsed)) eqn:ES|]];
      repeat split; intros;
      repeat match goal with
        | H : _ /\ _ |- _ => destruct H
        | H : exists _, _ |- _ => destruct H
        | H : Some _ = Some _ |- _ => injection H as H; subst
        | H : inl _ = inl _ |- _ => injection H as H; subst
        end;
      try congruence; eauto.
  - intros u. repeat split.
  - eexists. split; [vm_compute; reflexivity|].
    split; [|split].
    + eexists. split; [vm_compute; reflexivity | vm_compute; reflexivity].
    + eexists. split; [vm_compute; reflexivity | vm_compute; reflexivity].
    + vm_compute; reflexivity.
Qed.

(* ===================================================================== *)
(** * Extraction                                                          *)
(* ===================================================================== *)

Lemma Text_single (n : goquery.Node) : goquery.Text [n] = goquery.nodeText n.
Proof. cbn [goquery.Text fold_right]. apply app_empty_r. Qed.

(** ** The snippet *)

(** The fallback chain as the specification words it: the first
    candidate that is not empty wins.  [measure] is the size that the
    third candidate compares with 40. *)
Definition firstNonEmpty (candidates : list string) : string :=
  match List.find (fun s => negb (String.eqb s "")) candidates with
  | Some s => s
  | None => ""
  end.

Definition metaCandidate (doc : goquery.Document) (key val : string) : string :=
  TrimSpace (fst (metaContent doc key val)).

Definition paragraphCandidate (measure : string -> Z) (doc : goquery.Document) : string :=
  match List.find (fun txt => 40 <? measure txt)
                  (map (fun n => TrimSpace (goquery.nodeText n))
                       (goquery.Find doc (goquery.byTag "p"))) with
  | Some txt => txt
  | None => ""
  end.

Definition firstRunes (n : Z) (s : string) : string :=
  if RuneCountInString s <=? n then s else ofRunes (sliceRunes n (toRunes s)).

Definition bodyCandidate (doc : goquery.Document) : string :=
  firstRunes 300 (TrimSpace (goquery.Text (goquery.Find doc (goquery.byTag "body")))).

Definition snippetChain (measure : string -> Z) (doc : goquery.Document) : string :=
  firstNonEmpty [ metaCandidate doc "name" "description";
                  metaCandidate doc "property" "og:description";
                  paragraphCandidate measure doc;
                  bodyCandidate doc ].

(** A document with nothing but one paragraph. *)
Definition onlyParagraph (t : string) : goquery.Document :=
  [goquery.ElementNode "html" []
     [goquery.ElementNode "head" [] [];
      goquery.ElementNode "body" [] [goquery.ElementNode "p" [] [goquery.TextNode t]]]].

Lemma TrimSpace_empty : TrimSpace "" = "".
Proof. reflexivity. Qed.

Lemma metaContent_absent (doc : goquery.Document) (key val : string) :
  snd (metaContent doc key val) = false -> fst (metaContent doc key val) = "".
Proof.
  unfold metaContent, goquery.Attr.
  destruct (goquery.Find doc (goquery.byTagAttrEq "meta" key val)) as [|[d|d|tag attr ch] ?];
    try reflexivity.
  induction attr as [|a attr IH]; cbn [goquery.attrValue]; [reflexivity|].
  destruct (String.eqb (goquery.Key a) "content"); [discriminate | exact IH].
Qed.

(** The loop over the paragraphs keeps the first text of more than 40
    bytes. *)
Lemma paragraph_loop (ps : list goquery.Node) (snippet : string) :
  goquery.Each ps
    (fun s snippet =>
       let txt := TrimSpace (goquery.Text s) in
       if (40 <? len txt) && String.eqb snippet "" then txt else snippet)
    snippet
  = if String.eqb snippet "" then
      match List.find (fun txt => 40 <? len txt)
                      (map (fun n => TrimSpace (goquery.nodeText n)) ps) with
      | Some txt => txt
      | None => ""
      end
    else snippet.
Proof.
  unfold goquery.Each. revert snippet.
  induction ps as [|n ps IH]; intros snippet; cbn [fold_left map List.find].
  - destruct (String.eqb_spec snippet ""); congruence.
  - rewrite IH, Text_single.
    destruct (String.eqb_spec snippet "") as [->|Hne].
    + rewrite andb_true_r.
      destruct (40 <? len (TrimSpace (goquery.nodeText n))) eqn:E; [|reflexivity].
      destruct (String.eqb_spec (TrimSpace (goquery.nodeText n)) "") as [E0|]; [|reflexivity].
      rewrite E0, len_empty in E. discriminate E.
    + rewrite andb_false_r. destruct (String.eqb_spec snippet ""); congruence.
Qed.

Lemma metaCandidate_eq (doc : goquery.Document) (key val : string) (snippet : string) :
  snippet = "" ->
  (let (content, ok) := metaContent doc key val in
   if ok then TrimSpace content else snippet) = metaCandidate doc key val.
Proof.
  intros ->. unfold metaCandidate.
  pose proof (metaContent_absent doc key val) as H.
  destruct (metaContent doc key val) as [content [|]]; cbn [fst snd] in *;
    [reflexivity|]. now rewrite H.
Qed.

Lemma extractSnippet_chain (doc : goquery.Document) :
  extractSnippet doc = snippetChain len doc.
Proof.
  unfold extractSnippet, snippetChain, firstNonEmpty. cbv zeta.
  rewrite (metaCandidate_eq doc "name" "description" "" eq_refl).
  cbn [List.find].
  destruct (String.eqb (metaCandidate doc "name" "description") "") eqn:E1;
    cbn [negb]; rewrite ?E1; [|reflexivity].
  apply String.eqb_eq in E1.
  rewrite (metaCandidate_eq doc "property" "og:description" _ E1).
  destruct (String.eqb (metaCandidate doc "property" "og:description") "") eqn:E2;
    cbn [negb]; rewrite ?E2; [|reflexivity].
  apply String.eqb_eq in E2.
  rewrite E2, paragraph_loop. cbn [String.eqb].
  fold (paragraphCandidate len doc).
  destruct (String.eqb (paragraphCandidate len doc) "") eqn:E3;
    cbn [negb]; rewrite ?E3; [|reflexivity].
  unfold bodyCandidate, firstRunes, RuneCountInString, toRunes.
  rewrite length_map.
  set (raw := TrimSpace (goquery.Text (goquery.Find doc (goquery.byTag "body")))).
  destruct (Z.ltb_spec 300 (Z.of_nat (List.length (rangeString raw))));
    destruct (Z.leb_spec (Z.of_nat (List.length (rangeString raw))) 300); try lia;
    match goal with
    | |- _ = match (if negb (String.eqb ?x "") then _ else _) with _ => _ end =>
        destruct (String.eqb_spec x "") as [->|]; reflexivity
    end.
Qed.

(** The claim counts the 40 of the third candidate in characters; a
    paragraph of 21 two-byte characters after some other text tells the
    two measures apart. *)
Definition shortParagraph : goquery.Document :=
  [goquery.ElementNode "html" []
     [goquery.ElementNode "body" []
        [goquery.TextNode "Hi ";
         goquery.ElementNode "p" [] [goquery.TextNode "ééééééééééééééééééééé"]]]].

(** C6, as stated, fails: with the 40 counted in characters the snippet
    of [shortParagraph] would be the body text, and [extractPage] takes
    the paragraph. *)
Lemma snippet_threshold_counts_bytes :
  RuneCountInString "ééééééééééééééééééééé" = 21
  /\ len "ééééééééééééééééééééé" = 42
  /\ extractSnippet shortParagraph = "ééééééééééééééééééééé"
  /\ snippetChain RuneCountInString shortParagraph = "Hi ééééééééééééééééééééé"
  /\ extractSnippet shortParagraph <> snippetChain RuneCountInString shortParagraph.
Proof.
  repeat split; try (vm_compute; reflexivity).
  vm_compute. intros H. discriminate H.
Qed.

Lemma extractPage_Snippet (u : string) (doc : goquery.Document) (now : Z) (p : Page) :
  extractPage u doc now = Some p -> Snippet p = extractSnippet doc.
Proof.
  unfold extractPage. intros H.
  destruct (extractFavicon (url.Parse u) doc); [|discriminate H].
  destruct (extractSiteName (url.Parse u) doc); [|discriminate H].
  destruct (extractImage (url.Parse u) doc); [|discriminate H].
  cbn in H. injection H as <-. reflexivity.
Qed.

(** C6, amended.  The snippet of an extracted page is the first
    non-empty candidate among: the trimmed content of
    [meta[name=description]], the trimmed content of
    [meta[property=og:description]], the trimmed text of the first [<p>]
    whose trimmed text is longer than 40 bytes, and the first 300
    characters of the trimmed body text.  A document with nothing but a
    paragraph of 50 characters has that paragraph, trimmed, as its
    snippet. *)
Theorem snippet_fallback_chain :
  (forall doc, extractSnippet doc = snippetChain len doc)
  /\ (forall u doc now p, extractPage u doc now = Some p ->
                           Snippet p = snippetChain len doc)
  /\ (forall t, RuneCountInString (TrimSpace t) = 50 ->
                extractSnippet (onlyParagraph t) = TrimSpace t).
Proof.
  split; [exact extractSnippet_chain|split].
  - intros u doc now p H. rewrite <- extractSnippet_chain.
    eapply extractPage_Snippet, H.
  - intros t H. rewrite extractSnippet_chain.
    pose proof (RuneCount_le_len (TrimSpace t)) as Hle.
    unfold snippetChain, firstNonEmpty, metaCandidate, paragraphCandidate.
    change (metaContent (onlyParagraph t) "name" "description") with ("", false).
    change (metaContent (onlyParagraph t) "property" "og:description") with ("", false).
    change (goquery.Find (onlyParagraph t) (goquery.byTag "p"))
      with [goquery.ElementNode "p" [] [goquery.TextNode t]].
    cbn [fst map goquery.nodeText]. rewrite TrimSpace_empty, app_empty_r.
    cbn [List.find String.eqb negb].
    destruct (Z.ltb_spec 40 (len (TrimSpace t))); [|lia].
    destruct (String.eqb_spec (TrimSpace t) "") as [E|]; [|reflexivity].
    rewrite E, len_empty in *. lia.
Qed.

(** The chain at work on a paragraph of 50 characters. *)
Lemma snippet_fallback_chain_witness :
  RuneCountInString (TrimSpace "  Fifty characters of text make up this paragraph ok  ") = 50
  /\ extractSnippet
       (onlyParagraph "  Fifty characters of text make up this paragraph ok  ")
     = TrimSpace "  Fifty characters of text make up this paragraph ok  ".
Proof.
  split; [vm_compute; reflexivity|].
  apply (proj2 (proj2 snippet_fallback_chain)). vm_compute; reflexivity.
Defined.

(** ** Panics *)

Definition pageWithIcon (href : string) : goquery.Document :=
  [goquery.ElementNode "html" []
     [goquery.ElementNode "head" []
        [goquery.ElementNode "link"
           [goquery.mkAttr "rel" "icon"; goquery.mkAttr "href" href] []];
      goquery.ElementNode "body" [] []]].

Definition pageWithImage (src : string) : goquery.Document :=
  [goquery.ElementNode "html" []
     [goquery.ElementNode "head" [] [];
      goquery.ElementNode "body" []
        [goquery.ElementNode "img" [goquery.mkAttr "src" src] []]]].

(** C4, the code at the failing inputs.  [url.Parse] rejects [":"]
    (a scheme is missing before the colon) and ["%zz"] (the escape is not
    hexadecimal).  A page whose icon link or first image has such an
    address makes [extractPage] panic, and so does a page address that
    does not parse; with addresses that parse, the same documents give a
    page. *)
Theorem extractPage_panics :
  url.Parse ":" = None
  /\ url.Parse "%zz" = None
  /\ extractPage "https://a.com/" (pageWithIcon ":") 0 = None
  /\ extractPage "https://a.com/" (pageWithImage "%zz") 0 = None
  /\ extractPage ":" (pageWithIcon "/favicon.ico") 0 = None
  /\ extractPage ":" [] 0 = None
  /\ extractPage "https://a.com/" (pageWithIcon "/favicon.ico") 0
     = Some (mkPage "https://a.com/" "" "" "https://a.com/favicon.ico" "a.com" "" ""
                    [] 0)
  /\ extractPage "https://a.com/" [] 0
     = Some (mkPage "https://a.com/" "" "" "" "a.com" "" "" [] 0).
Proof. repeat split; vm_compute; reflexivity. Qed.

(** ** Sanitization *)

(** The [href] values of the links of a document, as written. *)
Definition hrefs (doc : goquery.Document) : list string :=
  map (fun n => fst (goquery.Attr [n] "href"))
      (goquery.Find doc (goquery.byTagAttr "a" "href")).

Definition validPage (p : Page) : Prop :=
  ValidString (URL p) = true
  /\ ValidString (Title p) = true
  /\ ValidString (Snippet p) = true
  /\ ValidString (Favicon p) = true
  /\ ValidString (SiteName p) = true
  /\ ValidString (Image p) = true
  /\ ValidString (Text p) = true
  /\ Forall (fun link => ValidString link = true) (Links p).

Lemma extractLinks_map (doc : goquery.Document) :
  extractLinks doc = map safeUTF8 (hrefs doc).
Proof.
  unfold extractLinks, hrefs, goquery.Each.
  generalize (goquery.Find doc (goquery.byTagAttr "a" "href")) as ns.
  assert (G : forall ns acc,
             fold_left
               (fun links n =>
                  let (h, _) := goquery.Attr [n] "href" in (links ++ [safeUTF8 h])%list)
               ns acc
             = (acc ++ map safeUTF8 (map (fun n => fst (goquery.Attr [n] "href")) ns))%list).
  { induction ns as [|n ns IH]; intros acc; cbn [fold_left map].
    - now rewrite app_nil_r.
    - rewrite IH. destruct (goquery.Attr [n] "href") as [h ok]. cbn [fst].
      now rewrite <- app_assoc. }
  intros ns. apply (G ns []).
Qed.

Lemma extractPage_Links (u : string) (doc : goquery.Document) (now : Z) (p : Page) :
  extractPage u doc now = Some p -> Links p = map safeUTF8 (hrefs doc).
Proof.
  unfold extractPage. intros H.
  destruct (extractFavicon (url.Parse u) doc); [|discriminate H].
  destruct (extractSiteName (url.Parse u) doc); [|discriminate H].
  destruct (extractImage (url.Parse u) doc); [|discriminate H].
  cbn in H. injection H as <-. apply extractLinks_map.
Qed.

Lemma extractPage_URL (u : string) (doc : goquery.Document) (now : Z) (p : Page) :
  extractPage u doc now = Some p -> URL p = u.
Proof.
  unfold extractPage. intros H.
  destruct (extractFavicon (url.Parse u) doc); [|discriminate H].
  destruct (extractSiteName (url.Parse u) doc); [|discriminate H].
  destruct (extractImage (url.Parse u) doc); [|discriminate H].
  cbn in H. injection H as <-. reflexivity.
Qed.

(** A page out of [extractPage], once through [upsertPage]'s
    sanitization, holds valid UTF-8 only. *)
Lemma sanitized_extracted_valid (u : string) (doc : goquery.Document) (now : Z)
                                (p : Page) :
  extractPage u doc now = Some p -> validPage (sanitized p).
Proof.
  intros H. unfold validPage, sanitized. cbn [URL Title Snippet Favicon SiteName Image
                                               Text Links].
  repeat split; try apply ValidString_safeUTF8.
  rewrite (extractPage_Links _ _ _ _ H).
  apply List.Forall_forall. intros link Hin. apply in_map_iff in Hin as (h & <- & _).
  apply ValidString_safeUTF8.
Qed.

Lemma upsertPage_call (w : World Page) (t : nat) (p : Page) :
  fst (upsertPage w t p)
  = UpdateOneCall (URL (sanitized p)) (sanitized p)
                  (UpdateOne w t (URL (sanitized p)) (sanitized p)).
Proof. reflexivity. Qed.

(** A link with a byte that is no UTF-8: 0xFF before [/x]. *)
Definition badHref : string := String "255" "/x".

Definition pageWithLink (href : string) : goquery.Document :=
  [goquery.ElementNode "html" []
     [goquery.ElementNode "body" []
        [goquery.ElementNode "a" [goquery.mkAttr "href" href] [goquery.TextNode "x"]]]].

(** C2, as stated, fails for [Links]: the links are sanitized by
    [extractPage], before the page reaches [upsertPage], and [upsertPage]
    itself leaves [Links] alone, so that a page handed to it with an
    invalid link is written with that link. *)
Lemma links_sanitized_at_extraction :
  ValidString badHref = false
  /\ hrefs (pageWithLink badHref) = [badHref]
  /\ option_map Links (extractPage "https://a.com/" (pageWithLink badHref) 0)
     = Some ["/x"]
  /\ Links (sanitized (mkPage "https://a.com/" "" "" "" "" "" "" [badHref] 0))
     = [badHref]
  /\ ~ validPage (sanitized (mkPage "https://a.com/" "" "" "" "" "" "" [badHref] 0)).
Proof.
  repeat split; try (vm_compute; reflexivity).
  intros (_ & _ & _ & _ & _ & _ & _ & H).
  inversion H as [|? ? Hbad _]. vm_compute in Hbad. discriminate Hbad.
Qed.

(* ===================================================================== *)
(** * The crawl loop                                                      *)
(* ===================================================================== *)

(** ** Loops in general *)

Section LoopFacts.
Context {P : Type}.
Variable step : State P -> Step P.

Lemma iterate_S (n : nat) (s s' : State P) :
  iterate step (S n) s = Some s' <->
  exists m, iterate step n s = Some m /\ step m = Continue s'.
Proof.
  revert s. induction n as [|n IH]; intros s.
  - cbn [iterate]. split.
    + intros H. exists s. split; [reflexivity|].
      destruct (step s); congruence.
    + intros (m & [= <-] & Hm). now rewrite Hm.
  - change (iterate step (S (S n)) s)
      with (match step s with Continue s1 => iterate step (S n) s1 | _ => None end).
    change (iterate step (S n) s)
      with (match step s with Continue s1 => iterate step n s1 | _ => None end).
    destruct (step s) as [|s1|s1]; [| apply IH |]; split;
      try discriminate; intros (m & Hm & _); discriminate Hm.
Qed.

(** A property of the first state that every turn of the body keeps
    holds of every state the loop reaches. *)
Lemma iterate_invariant (I : State P -> Prop) (s0 : State P) :
  I s0 ->
  (forall s s', I s -> step s = Continue s' -> I s') ->
  forall n s, iterate step n s0 = Some s -> I s.
Proof.
  intros H0 Hstep n. induction n as [|n IH]; intros s Hs.
  - injection Hs as <-. exact H0.
  - apply iterate_S in Hs as (m & Hm & Hc). eauto.
Qed.

(** The loop ends after some number of full turns, by leaving or by a
    panic. *)
Lemma loop_Some (fuel : nat) (s0 : State P) (out : Outcome P) :
  loop step fuel s0 = Some out ->
  exists n m, iterate step n s0 = Some m
              /\ ((step m = Exit /\ out = Returned m)
                  \/ (exists s', step m = Panic s' /\ out = Panicked s')).
Proof.
  revert s0. induction fuel as [|fuel IH]; intros s0; cbn [loop]; [discriminate|].
  destruct (step s0) as [|s1|s1] eqn:E.
  - intros [= <-]. exists 0%nat, s0. split; [reflexivity|]. left. auto.
  - intros H. apply IH in H as (n & m & Hm & Hend).
    exists (S n), m. split; [|exact Hend]. cbn [iterate]. now rewrite E.
  - intros [= <-]. exists 0%nat, s0. split; [reflexivity|]. right. eauto.
Qed.

Lemma loop_more_fuel (fuel : nat) (s : State P) (out : Outcome P) :
  loop step fuel s = Some out -> loop step (S fuel) s = Some out.
Proof.
  revert s. induction fuel as [|fuel IH]; intros s; [discriminate|].
  intros H. change (loop step (S (S fuel)) s)
    with (match step s with
          | Exit => Some (Returned s)
          | Continue s' => loop step (S fuel) s'
          | Panic s' => Some (Panicked s')
          end).
  cbn [loop] in H. destruct (step s); auto.
Qed.

(** The result of a loop does not depend on the fuel, once there is
    enough of it. *)
Lemma loop_fuel_le (fuel fuel' : nat) (s : State P) (out : Outcome P) :
  loop step fuel s = Some out -> (fuel <= fuel')%nat -> loop step fuel' s = Some out.
Proof.
  intros H Hle. induction Hle as [|fuel' Hle IH]; [exact H|].
  apply loop_more_fuel, IH.
Qed.

(** A loop ends when every turn of its body either uses up one of the
    [bound] pages still allowed or, at the same count, shortens the
    queue, and it goes on only while pages are allowed. *)
Lemma loop_terminates (bound : Z) :
  (forall s s', step s = Continue s' ->
                pagesCrawled s < bound
                /\ ((pagesCrawled s' = pagesCrawled s
                     /\ (List.length (queue s') < List.length (queue s))%nat)
                    \/ pagesCrawled s' = pagesCrawled s + 1)) ->
  forall s, exists fuel out, loop step fuel s = Some out.
Proof.
  intros Hstep s.
  remember (Z.to_nat (bound - pagesCrawled s)) as k eqn:Hk.
  assert (Hk' : (Z.to_nat (bound - pagesCrawled s) <= k)%nat) by lia. clear Hk.
  remember (List.length (queue s)) as q eqn:Hq.
  assert (Hq' : (List.length (queue s) <= q)%nat) by lia. clear Hq.
  revert q s Hk' Hq'.
  induction k as [|k IHk]; intros q; induction q as [|q IHq]; intros s Hk Hq;
    destruct (step s) as [|s1|s1] eqn:E;
    try (exists 1%nat; eexists; cbn [loop]; rewrite E; reflexivity);
    destruct (Hstep _ _ E) as [Hlt [[Hsame Hshort]|Hinc]]; try lia.
  - destruct (IHk (List.length (queue s1)) s1) as (fuel & out & Hl); [lia|lia|].
    exists (S fuel), out. cbn [loop]. now rewrite E.
  - destruct (IHq s1) as (fuel & out & Hl); [lia|lia|].
    exists (S fuel), out. cbn [loop]. now rewrite E.
  - destruct (IHk (List.length (queue s1)) s1) as (fuel & out & Hl); [lia|lia|].
    exists (S fuel), out. cbn [loop]. now rewrite E.
Qed.

End LoopFacts.

(** ** One turn of the crawler's loop *)

(** The links of a page that join the queue: those that normalize to an
    address not in [visited], one level below the page. *)
Definition linkItems (parsedURL : url.URL) (visited : gset string) (depth : Z)
                     (links : list string) : list QueueItem.t :=
  flat_map
    (fun href =>
       match normalizeURL parsedURL href with
       | inl norm =>
           if bool_decide (url.String norm ∈ visited) then []
           else [QueueItem.mk (url.String norm) (depth + 1)]
       | inr _ => []
       end)
    links.

Lemma enqueueLinks_app (parsedURL : url.URL) (visited : gset string) (depth : Z)
                       (links : list string) (queue : list QueueItem.t) :
  enqueueLinks parsedURL visited depth links queue
  = ((queue ++ linkItems parsedURL visited depth links)%list).
Proof.
  unfold enqueueLinks, linkItems. revert queue.
  induction links as [|href links IH]; intros queue; cbn [fold_left flat_map].
  - now rewrite app_nil_r.
  - rewrite IH. destruct (normalizeURL parsedURL href) as [norm|e]; [|reflexivity].
    destruct (bool_decide (url.String norm ∈ visited)); cbn [negb];
      [reflexivity | now rewrite <- app_assoc].
Qed.

Lemma in_linkItems (parsedURL : url.URL) (visited : gset string) (depth : Z)
                   (links : list string) (item : QueueItem.t) :
  In item (linkItems parsedURL visited depth links) <->
  exists href norm,
    In href links /\ normalizeURL parsedURL href = inl norm
    /\ (url.String norm ∉ visited)
    /\ item = QueueItem.mk (url.String norm) (depth + 1).
Proof.
  unfold linkItems. rewrite in_flat_map. split.
  - intros (href & Hin & Hit).
    destruct (normalizeURL parsedURL href) as [norm|e] eqn:En; [|destruct Hit].
    case_bool_decide as Hv; [destruct Hit|].
    destruct Hit as [<-|[]]. exists href, norm. auto.
  - intros (href & norm & Hin & En & Hv & ->). exists href. split; [exact Hin|].
    rewrite En. rewrite bool_decide_false by exact Hv. now left.
Qed.

Section Iterations.
Variables (cfg : Config) (allowedDomains : list string) (w : World Page).

(** The head of the queue is taken: the queue is not empty and pages
    are still allowed. *)
Definition dequeues (s : State Page) (item : QueueItem.t) (rest : list QueueItem.t)
  : Prop :=
  queue s = item :: rest /\ pagesCrawled s < maxPages cfg.

(** The item passes the gates in front of the fetch: it is new, its
    address parses, its domain is allowed, and the collection does not
    answer that it holds the page. *)
Definition admitted (s : State Page) (item : QueueItem.t) (parsedURL : url.URL)
  : Prop :=
  (QueueItem.URL item ∉ visited s)
  /\ url.Parse (QueueItem.URL item) = Some parsedURL
  /\ isAllowedDomain parsedURL allowedDomains = true
  /\ FindOne w (tick s) (QueueItem.URL item) <> None.

(** The effects up to the fetch, the latest first. *)
Definition fetchEvents (u : string) : list (Event Page) :=
  [GetCall u; Log (Fetching u); FindOneCall u].

(** What one turn of the loop does, case by case. *)
Inductive iteration (s : State Page) : Step Page -> Prop :=
| it_exit :
    queue s = [] \/ maxPages cfg <= pagesCrawled s ->
    iteration s Exit
| it_visited item rest :
    dequeues s item rest ->
    QueueItem.URL item ∈ visited s ->
    iteration s (Continue (mkState rest (visited s) (pagesCrawled s)
                                   (S (tick s)) (trace s)))
| it_unparsable item rest :
    dequeues s item rest ->
    QueueItem.URL item ∉ visited s ->
    url.Parse (QueueItem.URL item) = None ->
    iteration s (Continue (mkState rest ({[QueueItem.URL item]} ∪ visited s)
                                   (pagesCrawled s) (S (tick s)) (trace s)))
| it_disallowed item rest parsedURL :
    dequeues s item rest ->
    QueueItem.URL item ∉ visited s ->
    url.Parse (QueueItem.URL item) = Some parsedURL ->
    isAllowedDomain parsedURL allowedDomains = false ->
    iteration s (Continue (mkState rest ({[QueueItem.URL item]} ∪ visited s)
                                   (pagesCrawled s) (S (tick s)) (trace s)))
| it_indexed item rest parsedURL :
    dequeues s item rest ->
    QueueItem.URL item ∉ visited s ->
    url.Parse (QueueItem.URL item) = Some parsedURL ->
    isAllowedDomain parsedURL allowedDomains = true ->
    FindOne w (tick s) (QueueItem.URL item) = None ->
    iteration s (Continue (mkState rest ({[QueueItem.URL item]} ∪ visited s)
                                   (pagesCrawled s) (S (tick s))
                                   (FindOneCall (QueueItem.URL item) :: trace s)))
| it_fetch_failed item rest parsedURL :
    dequeues s item rest ->
    admitted s item parsedURL ->
    fetchPage w (tick s) (QueueItem.URL item) = None ->
    iteration s (Continue (mkState rest ({[QueueItem.URL item]} ∪ visited s)
                                   (pagesCrawled s) (S (tick s))
                                   (Log Error_ :: fetchEvents (QueueItem.URL item)
                                      ++ trace s)))
| it_panic item rest parsedURL doc :
    dequeues s item rest ->
    admitted s item parsedURL ->
    fetchPage w (tick s) (QueueItem.URL item) = Some doc ->
    extractPage (QueueItem.URL item) doc (Now w (tick s)) = None ->
    iteration s (Panic (mkState rest ({[QueueItem.URL item]} ∪ visited s)
                                (pagesCrawled s) (S (tick s))
                                (fetchEvents (QueueItem.URL item) ++ trace s)))
| it_crawled item rest parsedURL doc page :
    dequeues s item rest ->
    admitted s item parsedURL ->
    fetchPage w (tick s) (QueueItem.URL item) = Some doc ->
    extractPage (QueueItem.URL item) doc (Now w (tick s)) = Some page ->
    iteration s
      (Continue
         (mkState
            (rest ++ if QueueItem.Depth item <? maxDepth cfg
                     then linkItems parsedURL ({[QueueItem.URL item]} ∪ visited s)
                                    (QueueItem.Depth item) (Links page)
                     else [])
            ({[QueueItem.URL item]} ∪ visited s)
            (pagesCrawled s + 1) (S (tick s))
            (Sleep :: Log (Crawled (pagesCrawled s + 1))
               :: fst (upsertPage w (tick s) page)
               :: fetchEvents (QueueItem.URL item) ++ trace s))).

(** [crawlStep] does what [iteration] tells. *)
Lemma crawlStep_iteration (s : State Page) :
  iteration s (crawlStep cfg allowedDomains w s).
Proof.
  unfold crawlStep.
  destruct (queue s) as [|item rest] eqn:Eq; [apply it_exit; now left|].
  destruct (Z.ltb_spec (pagesCrawled s) (maxPages cfg)) as [Hlt|Hge]; cbn [negb];
    [|apply it_exit; now right].
  assert (Hd : dequeues s item rest) by (split; assumption).
  cbn [visited queue pagesCrawled tick trace].
  case_bool_decide as Hv; [exact (it_visited s item rest Hd Hv)|].
  destruct (url.Parse (QueueItem.URL item)) as [parsedURL|] eqn:Ep;
    [|exact (it_unparsable s item rest Hd Hv Ep)].
  destruct (isAllowedDomain parsedURL allowedDomains) eqn:Ea; cbn [negb];
    [|exact (it_disallowed s item rest parsedURL Hd Hv Ep Ea)].
  unfold pageExists.
  destruct (FindOne w (tick s) (QueueItem.URL item)) as [e|] eqn:Ef.
  2:{ cbn [andb emit]. exact (it_indexed s item rest parsedURL Hd Hv Ep Ea Ef). }
  assert (Ha : admitted s item parsedURL).
  { repeat split; try assumption. rewrite Ef. discriminate. }
  assert (Hgo :
      iteration s
        match fetchPage w (tick s) (QueueItem.URL item) with
        | Some doc =>
            match extractPage (QueueItem.URL item) doc (Now w (tick s)) with
            | Some page =>
                Continue
                  (mkState
                     (rest ++ if QueueItem.Depth item <? maxDepth cfg
                              then linkItems parsedURL
                                     ({[QueueItem.URL item]} ∪ visited s)
                                     (QueueItem.Depth item) (Links page)
                              else [])
                     ({[QueueItem.URL item]} ∪ visited s)
                     (pagesCrawled s + 1) (S (tick s))
                     (Sleep :: Log (Crawled (pagesCrawled s + 1))
                        :: fst (upsertPage w (tick s) page)
                        :: fetchEvents (QueueItem.URL item) ++ trace s))
            | None =>
                Panic (mkState rest ({[QueueItem.URL item]} ∪ visited s)
                               (pagesCrawled s) (S (tick s))
                               (fetchEvents (QueueItem.URL item) ++ trace s))
            end
        | None =>
            Continue (mkState rest ({[QueueItem.URL item]} ∪ visited s)
                              (pagesCrawled s) (S (tick s))
                              (Log Error_ :: fetchEvents (QueueItem.URL item)
                                 ++ trace s))
        end).
  { destruct (fetchPage w (tick s) (QueueItem.URL item)) as [doc|] eqn:Efp;
      [|exact (it_fetch_failed s item rest parsedURL Hd Ha Efp)].
    destruct (extractPage (QueueItem.URL item) doc (Now w (tick s))) as [page|] eqn:Ex;
      [|exact (it_panic s item rest parsedURL doc Hd Ha Efp Ex)].
    exact (it_crawled s item rest parsedURL doc page Hd Ha Efp Ex). }
  destruct e; cbv beta iota zeta; cbn [andb];
    (destruct (fetchPage w (tick s) (QueueItem.URL item)) as [doc|];
     [|exact Hgo]);
    (destruct (extractPage (QueueItem.URL item) doc (Now w (tick s))) as [page|];
     [|exact Hgo]);
    unfold upsertPage, emit, logPrintf in *; cbv zeta;
    cbn [visited queue pagesCrawled tick trace fst] in *;
    (destruct (QueueItem.Depth item <? maxDepth cfg);
     cbn [visited queue pagesCrawled tick trace];
     [rewrite enqueueLinks_app | rewrite app_nil_r in Hgo]; exact Hgo).
Qed.

(** The loop is left exactly when the queue is empty or the page budget
    is spent. *)
Lemma crawlStep_Exit (s : State Page) :
  crawlStep cfg allowedDomains w s = Exit <->
  queue s = [] \/ maxPages cfg <= pagesCrawled s.
Proof.
  split.
  - intros H. pose proof (crawlStep_iteration s) as Hit. rewrite H in Hit.
    inversion Hit. assumption.
  - intros H. unfold crawlStep. destruct (queue s) as [|item rest]; [reflexivity|].
    destruct H as [H|H]; [discriminate H|].
    destruct (Z.ltb_spec (pagesCrawled s) (maxPages cfg)); [lia|reflexivity].
Qed.

(** Every turn uses up an allowed page or shortens the queue. *)
Lemma crawlStep_progress (s s' : State Page) :
  crawlStep cfg allowedDomains w s = Continue s' ->
  pagesCrawled s < maxPages cfg
  /\ ((pagesCrawled s' = pagesCrawled s
       /\ (List.length (queue s') < List.length (queue s))%nat)
      \/ pagesCrawled s' = pagesCrawled s + 1).
Proof.
  intros H. pose proof (crawlStep_iteration s) as Hit. rewrite H in Hit.
  inversion Hit as [ | item rest [Hq Hlt] | item rest [Hq Hlt]
                   | item rest pu [Hq Hlt] | item rest pu [Hq Hlt]
                   | item rest pu [Hq Hlt] | | item rest pu doc page [Hq Hlt] ];
    subst; cbn [pagesCrawled queue]; (split; [exact Hlt|]);
    try (left; split; [reflexivity | rewrite Hq; cbn [List.length]; lia]).
  now right.
Qed.

Lemma crawl_loop_terminates (s : State Page) :
  exists fuel out, loop (crawlStep cfg allowedDomains w) fuel s = Some out.
Proof. apply (loop_terminates _ (maxPages cfg)), crawlStep_progress. Qed.

End Iterations.

(** ** Runs of the crawler *)

Lemma upserts_app {P : Type} (tr1 tr2 : list (Event P)) :
  upserts (tr1 ++ tr2) = (upserts tr1 ++ upserts tr2)%list.
Proof.
  induction tr1 as [|e tr1 IH]; [reflexivity|].
  destruct e; cbn [app upserts]; rewrite IH; reflexivity.
Qed.

Lemma fetches_app {P : Type} (tr1 tr2 : list (Event P)) :
  fetches (tr1 ++ tr2) = (fetches tr1 ++ fetches tr2)%list.
Proof.
  induction tr1 as [|e tr1 IH]; [reflexivity|].
  destruct e; cbn [app fetches]; rewrite IH; reflexivity.
Qed.

(** The seeds: the pieces of [SEED_URLS] between commas, trimmed, the
    empty ones left out, at depth 0. *)
Definition seedAddresses (seedsEnv : string) : list string :=
  List.filter (fun s => negb (String.eqb s "")) (map TrimSpace (Split seedsEnv ",")).

Lemma seedQueue_map (seedsEnv : string) :
  seedQueue seedsEnv = map (fun u => QueueItem.mk u 0) (seedAddresses seedsEnv).
Proof.
  unfold seedQueue, seedAddresses.
  generalize (Split seedsEnv ",") as pieces.
  assert (G : forall pieces acc,
             fold_left
               (fun queue s =>
                  if negb (String.eqb (TrimSpace s) "")
                  then (queue ++ [QueueItem.mk (TrimSpace s) 0])%list else queue)
               pieces acc
             = (acc ++ map (fun u => QueueItem.mk u 0)
                         (List.filter (fun s => negb (String.eqb s ""))
                                      (map TrimSpace pieces)))%list).
  { induction pieces as [|p pieces IH]; intros acc; cbn [fold_left map List.filter].
    - now rewrite app_nil_r.
    - rewrite IH. destruct (negb (String.eqb (TrimSpace p) "")); [|reflexivity].
      cbn [map]. now rewrite <- app_assoc. }
  intros pieces. apply (G pieces []).
Qed.

Lemma seedQueue_empty : seedQueue "" = [].
Proof. reflexivity. Qed.

Section RunFacts.
Variables (cfg : Config) (allowedDomains : list string) (w : World Page).

Local Abbreviation step := (crawlStep cfg allowedDomains w).

(** A property that every turn keeps, be it a full turn or one cut
    short by a panic, holds where the loop ends. *)
Lemma crawl_loop_invariant (I : State Page -> Prop) (s0 : State Page) :
  I s0 ->
  (forall s s', I s -> step s = Continue s' \/ step s = Panic s' -> I s') ->
  forall fuel out, loop step fuel s0 = Some out -> I (finalState out).
Proof.
  intros H0 Hstep fuel out Hl.
  apply loop_Some in Hl as (n & m & Hm & Hend).
  assert (Im : I m).
  { eapply (iterate_invariant step I s0); eauto. }
  destruct Hend as [[_ ->]|(s' & Hp & ->)]; cbn [finalState]; eauto.
Qed.



(** No address is fetched twice, and every address fetched is marked
    visited. *)
Definition fetchedOnce (s : State Page) : Prop :=
  List.NoDup (fetches (trace s))
  /\ forall u, In u (fetches (trace s)) -> u ∈ visited s.

Lemma fetchedOnce_step (s s' : State Page) :
  fetchedOnce s -> step s = Continue s' \/ step s = Panic s' -> fetchedOnce s'.
Proof.
  intros [Hn Hv] Hs. pose proof (crawlStep_iteration cfg allowedDomains w s) as Hit.
  unfold fetchedOnce.
  destruct Hs as [Hs|Hs]; rewrite Hs in Hit; inversion Hit; subst;
    cbn [trace visited];
    rewrite ?fetches_app; cbn [fetches fetchEvents app fst upsertPage];
    repeat match goal with
      | H : admitted _ _ _ _ _ |- _ => destruct H as (Hnew & _)
      end;
    (split;
     [ first [ exact Hn
             | constructor; [intros Hin; apply Hnew, Hv, Hin | exact Hn] ]
     | intros u Hin;
       first [ specialize (Hv u Hin); set_solver
             | destruct Hin as [<-|Hin]; [|specialize (Hv u Hin)]; set_solver ] ]).
Qed.

(** Every page written holds valid UTF-8 only. *)
Lemma validUpserts_step (s s' : State Page) :
  Forall validPage (upserts (trace s)) ->
  step s = Continue s' \/ step s = Panic s' ->
  Forall validPage (upserts (trace s')).
Proof.
  intros Hv Hs. pose proof (crawlStep_iteration cfg allowedDomains w s) as Hit.
  destruct Hs as [Hs|Hs]; rewrite Hs in Hit; inversion Hit; subst;
    cbn [trace];
    rewrite ?upserts_app; cbn [upserts fetchEvents app fst upsertPage];
    try exact Hv.
  constructor; [|exact Hv]. eapply sanitized_extracted_valid. eassumption.
Qed.

End RunFacts.

(* ===================================================================== *)
(** * A small web to run the crawler on                                   *)
(* ===================================================================== *)

(** A page whose body is a list of links. *)
Definition linksTo (hrefs : list string) : goquery.Document :=
  [goquery.ElementNode "html" []
     [goquery.ElementNode "body" []
        (map (fun h => goquery.ElementNode "a" [goquery.mkAttr "href" h]
                         [goquery.TextNode "link"])
             hrefs)]].

(** A world with a fixed set of pages, all served as HTML; the body sent
    for an address stands for the HTML text of its page, and the parser
    maps it to that page.  The collection answers every lookup with
    [found] and every write with [written]. *)
Definition staticWeb {P : Type} (site : list (string * goquery.Document))
                     (found written : option MongoError) : World P :=
  mkWorld P
    (fun _ _ => found)
    (fun _ _ _ => written)
    (fun _ u =>
       if existsb (fun page => String.eqb (fst page) u) site
       then Some (mkResponse "text/html; charset=utf-8" (Some u))
       else None)
    (fun body => option_map snd (List.find (fun page => String.eqb (fst page) body) site))
    (fun _ => 0).

(** Two pages that link to the same third page. *)
Definition twoSources : list (string * goquery.Document) :=
  [ ("https://a.com/", linksTo ["https://c.com/"]);
    ("https://b.com/", linksTo ["https://c.com/#top"]);
    ("https://c.com/", linksTo []) ].

Definition twoSourcesWorld : World Page := staticWeb twoSources (Some ErrNoDocuments) None.

(* ===================================================================== *)
(** * The frontier                                                        *)
(* ===================================================================== *)

(** C1, as stated, fails: the seeds [a.com] and [b.com] both link to
    [c.com]; after the two seeds are crawled the queue holds [c.com]
    twice, because [visited] is written when an address is dequeued and
    [c.com] has not been dequeued yet. *)
Lemma same_address_enqueued_twice :
  option_map queue
    (iterate (crawlStep sourceConfig [] twoSourcesWorld) 2
             (initialState "https://a.com/,https://b.com/"))
  = Some [QueueItem.mk "https://c.com/" 1; QueueItem.mk "https://c.com/" 1].
Proof. vm_compute. reflexivity. Qed.

(** C1, amended.  In every run each address is taken up at most once: no
    address is fetched twice, and every address fetched is marked
    visited.  The check at enqueue time compares a link with the
    addresses dequeued so far: a link joins the queue exactly when it
    normalizes to an address that is not in [visited], so an address can
    be queued several times before its first copy is dequeued; the later
    copies are dropped when they are dequeued. *)
Theorem each_address_fetched_once :
  forall cfg w seedsEnv allowedDomainsEnv n s,
    iterate (crawlStep cfg (allowedDomainsOf allowedDomainsEnv) w) n
            (initialState seedsEnv) = Some s ->
    List.NoDup (fetches (trace s))
    /\ (forall u, In u (fetches (trace s)) -> u ∈ visited s)
    /\ (forall parsedURL visited depth links queue item,
           In item (enqueueLinks parsedURL visited depth links queue) <->
           In item queue
           \/ exists href norm,
               In href links /\ normalizeURL parsedURL href = inl norm
               /\ (url.String norm ∉ visited)
               /\ item = QueueItem.mk (url.String norm) (depth + 1))
    /\ (forall item rest,
           queue s = item :: rest -> pagesCrawled s < maxPages cfg ->
           QueueItem.URL item ∈ visited s ->
           exists s', crawlStep cfg (allowedDomainsOf allowedDomainsEnv) w s = Continue s'
                      /\ queue s' = rest /\ trace s' = trace s).
Proof.
  intros cfg w seedsEnv allowedDomainsEnv n s Hs.
  assert (Hinv : fetchedOnce s).
  { eapply (iterate_invariant _ fetchedOnce); [| |exact Hs].
    - split; [constructor | intros u []].
    - intros s1 s2 H1 H2. eapply fetchedOnce_step; eauto. }
  destruct Hinv as [Hn Hv]. split; [exact Hn|]. split; [exact Hv|]. split.
  - intros parsedURL visited depth links queue item.
    rewrite enqueueLinks_app, in_app_iff, in_linkItems. reflexivity.
  - intros item rest Hq Hlt Hin.
    unfold crawlStep. rewrite Hq.
    destruct (Z.ltb_spec (pagesCrawled s) (maxPages cfg)); [|lia]. cbn [negb visited].
    rewrite bool_decide_true by exact Hin. eexists. split; [reflexivity|].
    split; reflexivity.
Qed.

(** The state of [twoSourcesWorld] after four turns: the three pages are
    crawled and the second copy of [c.com] is dropped. *)
Definition twoSourcesEnd : State Page :=
  match iterate (crawlStep sourceConfig (allowedDomainsOf "") twoSourcesWorld) 4
                (initialState "https://a.com/,https://b.com/") with
  | Some s => s
  | None => initialState ""
  end.

Lemma each_address_fetched_once_witness :
  fetches (trace twoSourcesEnd) = ["https://c.com/"; "https://b.com/"; "https://a.com/"]
  /\ List.NoDup (fetches (trace twoSourcesEnd)).
Proof.
  split; [vm_compute; reflexivity|].
  apply (each_address_fetched_once sourceConfig twoSourcesWorld
           "https://a.com/,https://b.com/" "" 4%nat twoSourcesEnd).
  vm_compute. reflexivity.
Defined.

(* ===================================================================== *)
(** * The addresses of the pages written                                  *)
(* ===================================================================== *)

(** No byte of [s] is [#]. *)
Fixpoint noHash (s : string) : bool :=
  match s with
  | "" => true
  | String c r => negb (Ascii.eqb c "#") && noHash r
  end.

(** The parts of a URL that [URL.String] writes as they are hold no
    [#]. *)
Definition hashFree (u : url.URL) : Prop :=
  noHash (url.Opaque u) = true /\ noHash (url.RawQuery u) = true.

(** The text of an absolute http or https URL with the fragment
    removed: no [#] in the text, and [url.Parse] reads it as a URL with
    scheme [http] or [https] and no fragment. *)
Definition canonical (u : string) : Prop :=
  Contains u "#" = false
  /\ exists parsed,
       url.Parse u = Some parsed
       /\ url.IsAbs parsed = true
       /\ httpScheme parsed = true
       /\ url.Fragment parsed = "".

(** A link as [normalizeURL] returns it, written out: no [#] in the
    text, and the scheme [http] or [https] in front. *)
Definition linkText (u : string) : Prop :=
  noHash u = true /\ (HasPrefix u "http:" = true \/ HasPrefix u "https:" = true).

Section HashFacts.

Lemma Index_hash (c : ascii) (r : string) :
  Index (String c r) "#"
  = if Ascii.eqb c "#" then 0
    else let i := Index r "#" in if i <? 0 then -1 else i + 1.
Proof.
  cbn [Index HasPrefix]. destruct (Ascii.eqb c "#"); cbn [andb]; [|reflexivity].
  destruct r; reflexivity.
Qed.

Lemma Index_noHash (s : string) :
  if noHash s then Index s "#" = -1
  else 0 <= Index s "#" /\ noHash (sliceTo (Index s "#") s) = true.
Proof.
  induction s as [|c r IH]; [reflexivity|].
  rewrite Index_hash. cbn [noHash]. destruct (Ascii.eqb c "#") eqn:Ec; cbn [negb andb].
  - split; [lia | reflexivity].
  - cbv zeta. destruct (noHash r).
    + rewrite IH. reflexivity.
    + destruct IH as [Hpos Hcut]. destruct (Z.ltb_spec (Index r "#") 0); [lia|].
      split; [lia|]. cbn [sliceTo]. destruct (Z.leb_spec (Index r "#" + 1) 0); [lia|].
      cbn [noHash]. rewrite Ec. cbn [negb andb].
      now replace (Index r "#" + 1 - 1) with (Index r "#") by lia.
Qed.

Lemma Contains_noHash (s : string) : Contains s "#" = negb (noHash s).
Proof.
  unfold Contains. pose proof (Index_noHash s) as H. destruct (noHash s).
  - rewrite H. reflexivity.
  - destruct H as [H _]. cbn [negb]. now apply Z.leb_le.
Qed.

Lemma noHash_app (s t : string) : noHash (s +:+ t) = noHash s && noHash t.
Proof.
  induction s as [|c r IH]; [reflexivity|].
  rewrite app_String. cbn [noHash]. rewrite IH. now rewrite andb_assoc.
Qed.

Lemma noHash_sliceTo (n : Z) (s : string) :
  noHash s = true -> noHash (sliceTo n s) = true.
Proof.
  revert n. induction s as [|c r IH]; intros n H; [reflexivity|].
  cbn [sliceTo]. destruct (n <=? 0); [reflexivity|].
  cbn [noHash] in *. apply andb_true_iff in H as [-> H]. now rewrite IH.
Qed.

Lemma noHash_sliceFrom (n : Z) (s : string) :
  noHash s = true -> noHash (sliceFrom n s) = true.
Proof.
  revert n. induction s as [|c r IH]; intros n H; [reflexivity|].
  cbn [sliceFrom]. destruct (n <=? 0); [exact H|].
  cbn [noHash] in H. apply andb_true_iff in H as [_ H]. now apply IH.
Qed.

Lemma noHash_Cut (s sep a b : string) (found : bool) :
  noHash s = true -> Cut s sep = (a, b, found) ->
  noHash a = true /\ noHash b = true.
Proof.
  intros H. unfold Cut. destruct (0 <=? Index s sep); intros [= <- <- <-].
  - split; [now apply noHash_sliceTo | now apply noHash_sliceFrom].
  - split; [exact H | reflexivity].
Qed.

(** What [Parse] passes to [parse] holds no [#]. *)
Lemma noHash_before (s : string) : noHash (fst (fst (Cut s "#"))) = true.
Proof.
  unfold Cut. pose proof (Index_noHash s) as H. destruct (noHash s) eqn:E.
  - rewrite H. exact E.
  - destruct H as [Hpos Hcut]. destruct (Z.leb_spec 0 (Index s "#")); [|lia].
    exact Hcut.
Qed.

Lemma Cut_noHash (s : string) : noHash s = true -> Cut s "#" = (s, "", false).
Proof.
  intros H. unfold Cut. pose proof (Index_noHash s) as Hi. rewrite H in Hi.
  rewrite Hi. reflexivity.
Qed.

Lemma shouldEscape_hash (mode : url.encoding) : url.shouldEscape "#" mode = true.
Proof. destruct mode; reflexivity. Qed.

Lemma upperhex_noHash (c : ascii) :
  Ascii.eqb (url.upperhex (Z.shiftr (byte c) 4)) "#" = false
  /\ Ascii.eqb (url.upperhex (Z.land (byte c) 15)) "#" = false.
Proof. destruct c as [[] [] [] [] [] [] [] []]; split; vm_compute; reflexivity. Qed.

Lemma escape_noHash (s : string) (mode : url.encoding) :
  noHash (url.escape s mode) = true.
Proof.
  induction s as [|c r IH]; [reflexivity|]. cbn [url.escape].
  destruct (url.shouldEscape c mode) eqn:E; cbn [noHash].
  - destruct (upperhex_noHash c) as [-> ->]. rewrite IH. reflexivity.
  - rewrite IH. destruct (Ascii.eqb_spec c "#") as [->|]; [|reflexivity].
    now rewrite shouldEscape_hash in E.
Qed.

Lemma validEncoded_noHash (s : string) (mode : url.encoding) :
  url.validEncoded s mode = true -> noHash s = true.
Proof.
  induction s as [|c r IH]; [reflexivity|]. cbn [url.validEncoded noHash].
  intros H. apply andb_true_iff in H as [Hc Hr]. rewrite (IH Hr).
  destruct (Ascii.eqb_spec c "#") as [->|]; [|reflexivity].
  rewrite shouldEscape_hash in Hc. discriminate Hc.
Qed.

Lemma EscapedPath_noHash (u : url.URL) : noHash (url.EscapedPath u) = true.
Proof.
  unfold url.EscapedPath.
  destruct (negb (String.eqb (url.RawPath u) "")); cbn [andb];
    [destruct (url.validEncoded (url.RawPath u) url.encodePath) eqn:E; cbn [andb];
     [destruct (url.unescape (url.RawPath u) url.encodePath) as [p|];
      [destruct (String.eqb p (url.Path u));
       [exact (validEncoded_noHash _ _ E)|]|]|]|];
    (destruct (String.eqb (url.Path u) "*"); [reflexivity | apply escape_noHash]).
Qed.

Lemma UserinfoString_noHash (ui : url.Userinfo) :
  noHash (url.UserinfoString ui) = true.
Proof.
  unfold url.UserinfoString. rewrite noHash_app, escape_noHash.
  destruct (url.passwordSet ui); [|reflexivity].
  rewrite noHash_app, escape_noHash. reflexivity.
Qed.

(** [URL.String] writes no [#] but the one in front of the fragment. *)
Lemma String_noHash (u : url.URL) :
  hashFree u -> noHash (url.Scheme u) = true -> url.Fragment u = "" ->
  noHash (url.String u) = true.
Proof.
  intros [Ho Hq] Hs Hf. unfold url.String. rewrite Hf. cbn [String.eqb].
  pose proof (EscapedPath_noHash u) as Hp.
  destruct (url.User u) as [ui|];
    [pose proof (UserinfoString_noHash ui) as Hu|];
    repeat match goal with
      | |- context [if ?b then _ else _] => destruct b
      end;
    rewrite ?noHash_app, ?escape_noHash, ?Hu, ?Hp, ?Ho, ?Hq, ?Hs; reflexivity.
Qed.

Lemma HasPrefix_app (s t p : string) :
  HasPrefix s p = true -> HasPrefix (s +:+ t) p = true.
Proof.
  revert s. induction p as [|c p IH]; intros s H; [destruct (s +:+ t); reflexivity|].
  destruct s as [|d s]; [discriminate H|]. rewrite app_String.
  cbn [HasPrefix] in *. apply andb_true_iff in H as [-> H]. now rewrite IH.
Qed.

Lemma HasPrefix_self (s t : string) : HasPrefix (s +:+ t) s = true.
Proof.
  induction s as [|c s IH]; [destruct t; reflexivity|].
  rewrite app_String. cbn [HasPrefix]. now rewrite Ascii.eqb_refl, IH.
Qed.

Lemma HasPrefix_refl (s : string) : HasPrefix s s = true.
Proof. rewrite <- (app_empty_r s) at 1. apply HasPrefix_self. Qed.

Lemma HasPrefix_split (s p : string) :
  HasPrefix s p = true -> exists t, s = p +:+ t.
Proof.
  revert s. induction p as [|c p IH]; intros s H; [now exists s|].
  destruct s as [|d s]; [discriminate H|]. cbn [HasPrefix] in H.
  apply andb_true_iff in H as [Hc H]. apply Ascii.eqb_eq in Hc as ->.
  destruct (IH s H) as [t ->]. now exists t.
Qed.

(** The text of a URL with a scheme starts with the scheme and a colon. *)
Lemma String_scheme (u : url.URL) :
  url.Scheme u <> "" -> HasPrefix (url.String u) (url.Scheme u +:+ ":") = true.
Proof.
  intros Hs. unfold url.String.
  destruct (String.eqb_spec (url.Scheme u) "") as [E|_]; [contradiction|].
  repeat match goal with
    | |- context [if ?b then _ else _] => destruct b
    end;
    repeat first [apply HasPrefix_refl | apply HasPrefix_self | apply HasPrefix_app].
Qed.

Lemma setPath_fields (u u' : url.URL) (p : string) :
  url.setPath u p = Some u' ->
  url.Scheme u' = url.Scheme u /\ url.Opaque u' = url.Opaque u
  /\ url.RawQuery u' = url.RawQuery u /\ url.Fragment u' = url.Fragment u.
Proof.
  unfold url.setPath. destruct (url.unescape p url.encodePath); [|discriminate].
  intros [= <-]. repeat split.
Qed.

Lemma setFragment_fields (u u' : url.URL) (f : string) :
  url.setFragment u f = Some u' ->
  url.Scheme u' = url.Scheme u /\ url.Opaque u' = url.Opaque u
  /\ url.RawQuery u' = url.RawQuery u.
Proof.
  unfold url.setFragment. destruct (url.unescape f url.encodeFragment); [|discriminate].
  intros [= <-]. repeat split.
Qed.

Lemma withPath_fields (u : url.URL) (p : string) :
  url.Scheme (url.withPath u p) = url.Scheme u
  /\ url.Opaque (url.withPath u p) = url.Opaque u
  /\ url.RawQuery (url.withPath u p) = url.RawQuery u
  /\ url.Fragment (url.withPath u p) = url.Fragment u.
Proof.
  unfold url.withPath. destruct (url.setPath u p) as [u'|] eqn:E; [|repeat split].
  exact (setPath_fields _ _ _ E).
Qed.

Lemma getSchemeFrom_rest (rawURL : string) (i : Z) (s scheme rest : string) :
  noHash rawURL = true -> noHash s = true ->
  url.getSchemeFrom rawURL i s = Some (scheme, rest) -> noHash rest = true.
Proof.
  intros Hraw. revert i. induction s as [|c r IH]; intros i Hs; cbn [url.getSchemeFrom].
  - now intros [= _ <-].
  - cbn [noHash] in Hs. apply andb_true_iff in Hs as [_ Hr].
    destruct (url.isAlpha c); [now apply IH|].
    destruct (url.isDigit c || url.oneOf c "+-.").
    + destruct (i =? 0); [now intros [= _ <-] | now apply IH].
    + destruct (Ascii.eqb c ":").
      * destruct (i =? 0); [discriminate | now intros [= _ <-]].
      * now intros [= _ <-].
Qed.

(** What [parse] makes of a text: no fragment, the scheme in lower case,
    and no [#] in the parts written back as they are when the text holds
    none. *)
Lemma parse_fields (t : string) (u : url.URL) :
  url.parse t = Some u ->
  url.Fragment u = ""
  /\ (noHash t = true -> hashFree u)
  /\ (t <> "*" -> exists scheme rest,
        url.getScheme t = Some (scheme, rest) /\ url.Scheme u = ToLower scheme).
Proof.
  unfold url.parse. destruct (url.stringContainsCTLByte t); [discriminate|].
  destruct (String.eqb_spec t "*") as [->|Hne].
  { intros [= <-]. repeat split. intros H. now contradiction H. }
  destruct (url.getScheme t) as [[scheme0 rest0]|] eqn:Eg; [|discriminate].
  assert (Hrest0 : noHash t = true -> noHash rest0 = true).
  { intros Ht. exact (getSchemeFrom_rest _ _ _ _ _ Ht Ht Eg). }
  destruct (if HasSuffix rest0 "?" && (Count rest0 "?" =? 1)
            then (sliceTo (len rest0 - 1) rest0, true, "")
            else let '(before, after, _) := Cut rest0 "?" in (before, false, after))
    as [[rest forceQuery] rawQuery] eqn:Eq.
  assert (Hparts : noHash t = true -> noHash rest = true /\ noHash rawQuery = true).
  { intros Ht. specialize (Hrest0 Ht).
    destruct (HasSuffix rest0 "?" && (Count rest0 "?" =? 1)).
    - injection Eq as <- _ <-. split; [now apply noHash_sliceTo | reflexivity].
    - destruct (Cut rest0 "?") as [[before after] found] eqn:Ec.
      injection Eq as <- _ <-. exact (noHash_Cut _ _ _ _ _ Hrest0 Ec). }
  intros H.
  assert (Hgoal : url.Fragment u = "" /\ url.Scheme u = ToLower scheme0
                  /\ (url.Opaque u = "" \/ url.Opaque u = rest)
                  /\ url.RawQuery u = rawQuery).
  { repeat match type of H with
      | (if ?b then _ else _) = _ => destruct b
      | (let '(_, _) := ?p in _) = _ => destruct p
      | match ?m with Some _ => _ | None => _ end = _ =>
          destruct m as [[? ?]|]; [|discriminate H]
      | None = Some _ => discriminate H
      | Some _ = Some _ => injection H as <-; cbn; auto
      | url.setPath _ _ = Some _ =>
          apply setPath_fields in H as (-> & -> & -> & ->); cbn; auto
      end. }
  destruct Hgoal as (Hf & Hs & Ho & Hq). split; [exact Hf|]. split.
  - intros Ht. destruct (Hparts Ht) as [Hr Hrq]. unfold hashFree. rewrite Hq.
    split; [|exact Hrq]. destruct Ho as [-> | ->]; [reflexivity | exact Hr].
  - intros _. exists scheme0, rest0. auto.
Qed.

Lemma Parse_hashFree (s : string) (u : url.URL) :
  url.Parse s = Some u -> hashFree u.
Proof.
  unfold url.Parse. pose proof (noHash_before s) as Hb.
  destruct (Cut s "#") as [[before frag] found]. cbn [fst] in Hb.
  destruct (url.parse before) as [url|] eqn:Ep; [|discriminate].
  apply parse_fields in Ep as (_ & Hfree & _). specialize (Hfree Hb).
  destruct (String.eqb frag ""); [now intros [= <-]|].
  intros H. apply setFragment_fields in H as (_ & Ho & Hq).
  unfold hashFree. now rewrite Ho, Hq.
Qed.

Lemma Parse_noHash (s : string) (u : url.URL) :
  noHash s = true -> url.Parse s = Some u -> url.parse s = Some u.
Proof.
  intros Hs. unfold url.Parse. rewrite (Cut_noHash s Hs).
  destruct (url.parse s); [|discriminate]. now cbn [String.eqb].
Qed.

Lemma ResolveReference_hashFree (u ref : url.URL) :
  hashFree u -> hashFree ref -> hashFree (url.ResolveReference u ref).
Proof.
  intros [Huo Huq] [Hro Hrq]. unfold url.ResolveReference, hashFree.
  repeat match goal with
    | |- context [if ?b then _ else _] => destruct b
    end;
    repeat match goal with
      | |- context [url.withPath ?a ?b] =>
          let H := fresh in
          pose proof (withPath_fields a b) as H;
          destruct H as (_ & -> & -> & _)
      end;
    cbn [url.Opaque url.RawQuery]; auto.
Qed.

Lemma normalizeURL_text (base : url.URL) (href : string) (norm : url.URL) :
  hashFree base -> normalizeURL base href = inl norm -> linkText (url.String norm).
Proof.
  intros Hbase. rewrite normalizeURL_unfold.
  destruct (String.eqb (TrimSpace href) ""); [discriminate|].
  destruct (url.Parse (TrimSpace href)) as [parsed|] eqn:Ep; [|discriminate].
  destruct (httpScheme (resolved base parsed)) eqn:Eh; [|discriminate].
  intros [= <-]. apply Parse_hashFree in Ep.
  assert (Hfree : hashFree (resolved base parsed)).
  { unfold resolved. destruct (url.IsAbs parsed);
      [exact Ep | now apply ResolveReference_hashFree]. }
  set (r := resolved base parsed) in *.
  assert (Hs : url.Scheme (clearFragment r) = "http"
               \/ url.Scheme (clearFragment r) = "https").
  { unfold httpScheme in Eh. apply orb_true_iff in Eh as [E|E];
      apply String.eqb_eq in E; cbn [clearFragment url.Scheme]; auto. }
  split.
  - apply String_noHash; [exact Hfree | | reflexivity].
    destruct Hs as [-> | ->]; reflexivity.
  - destruct Hs as [Hs|Hs]; [left|right];
      (assert (Hne : url.Scheme (clearFragment r) <> "")
         by (rewrite Hs; discriminate));
      pose proof (String_scheme _ Hne) as Hp; rewrite Hs in Hp; exact Hp.
Qed.

(** A link that [url.Parse] accepts is canonical. *)
Lemma linkText_canonical (u : string) (parsed : url.URL) :
  linkText u -> url.Parse u = Some parsed -> canonical u.
Proof.
  intros [Hn Hp] HP. split; [rewrite Contains_noHash, Hn; reflexivity|].
  exists parsed. split; [exact HP|].
  apply (Parse_noHash _ _ Hn) in HP. apply parse_fields in HP as (Hf & _ & Hs).
  assert (Hscheme : url.Scheme parsed = "http" \/ url.Scheme parsed = "https").
  { destruct Hp as [Hp|Hp]; apply HasPrefix_split in Hp as [t ->];
      (destruct Hs as (scheme & rest & Hg & ->); [discriminate|]);
      cbv in Hg; injection Hg as <- _; [left|right]; reflexivity. }
  unfold url.IsAbs, httpScheme.
  destruct Hscheme as [-> | ->]; repeat split; auto.
Qed.

End HashFacts.

Section Origins.
Variables (cfg : Config) (allowedDomains : list string) (w : World Page).
Variable seedsEnv : string.

(** Where a queued address comes from: a seed, or a normalized link. *)
Definition origin (u : string) : Prop :=
  In u (seedAddresses seedsEnv) \/ linkText u.

Definition originsKnown (s : State Page) : Prop :=
  Forall (fun item => origin (QueueItem.URL item)) (queue s)
  /\ Forall (fun p => exists u, URL p = safeUTF8 u
                                /\ (In u (seedAddresses seedsEnv) \/ canonical u))
            (upserts (trace s)).

Lemma originsKnown_initial : originsKnown (initialState seedsEnv).
Proof.
  split; [|constructor]. cbn [initialState queue]. rewrite seedQueue_map.
  apply List.Forall_forall. intros item Hin.
  apply in_map_iff in Hin as (u & <- & Hu). now left.
Qed.

Lemma originsKnown_step (s s' : State Page) :
  originsKnown s -> crawlStep cfg allowedDomains w s = Continue s' -> originsKnown s'.
Proof.
  intros [Hq Hu] Hs. pose proof (crawlStep_iteration cfg allowedDomains w s) as Hit.
  rewrite Hs in Hit. unfold originsKnown.
  inversion Hit as [ | item rest [Eq _] | item rest [Eq _] | item rest pu [Eq _]
                   | item rest pu [Eq _] | item rest pu [Eq _] |
                   | item rest pu doc page [Eq _] Ha Hf Hx ];
    subst; cbn [queue trace]; rewrite Eq in Hq;
    apply List.Forall_cons_iff in Hq as [Hitem Hrest];
    rewrite ?upserts_app; cbn [upserts fetchEvents app fst upsertPage];
    try (split; assumption).
  destruct Ha as (_ & Hparse & _). split.
  - apply List.Forall_app. split; [exact Hrest|].
    destruct (QueueItem.Depth item <? maxDepth cfg); [|constructor].
    apply List.Forall_forall. intros it Hin.
    apply in_linkItems in Hin as (href & norm & _ & Hn & _ & ->).
    right. cbn [QueueItem.URL].
    exact (normalizeURL_text _ _ _ (Parse_hashFree _ _ Hparse) Hn).
  - constructor; [|exact Hu]. exists (QueueItem.URL item).
    split; [cbn [sanitized URL]; now rewrite (extractPage_URL _ _ _ _ Hx)|].
    destruct Hitem as [Hseed|Hlink]; [now left|right].
    exact (linkText_canonical _ _ Hlink Hparse).
Qed.

End Origins.

(** An address with a fragment is not canonical. *)
Lemma fragment_not_canonical : ~ canonical "https://a.com/#top".
Proof. intros [H _]. vm_compute in H. discriminate H. Qed.

(** C5, as stated, fails for seeds: a seed is queued as it is written,
    and the page of the seed [https://a.com/#top] is written under that
    address, fragment included. *)
Lemma seed_written_with_fragment :
  option_map (fun s => map URL (upserts (trace s)))
    (iterate (crawlStep sourceConfig []
                (staticWeb [("https://a.com/#top", linksTo [])] (Some ErrNoDocuments) None))
             1 (initialState "https://a.com/#top"))
  = Some ["https://a.com/#top"]
  /\ option_map url.Fragment (url.Parse "https://a.com/#top") = Some "top"
  /\ ~ canonical "https://a.com/#top".
Proof. repeat split; try (vm_compute; reflexivity). exact fragment_not_canonical. Qed.

(** C5, amended.  The address of every page written is, after
    [safeUTF8], either a seed as it stands in [SEED_URLS] (trimmed, not
    normalized) or a canonical address: it holds no [#], and [url.Parse]
    reads it as an absolute URL with scheme [http] or [https] and an
    empty fragment. *)
Theorem written_addresses :
  forall cfg w seedsEnv allowedDomainsEnv n s,
    iterate (crawlStep cfg (allowedDomainsOf allowedDomainsEnv) w) n
            (initialState seedsEnv) = Some s ->
    forall p, In p (upserts (trace s)) ->
      exists u, URL p = safeUTF8 u
                /\ (In u (seedAddresses seedsEnv) \/ canonical u).
Proof.
  intros cfg w seedsEnv allowedDomainsEnv n s Hs p Hp.
  assert (Hinv : originsKnown seedsEnv s).
  { eapply (iterate_invariant _ (originsKnown seedsEnv)); [| |exact Hs].
    - apply originsKnown_initial.
    - intros s1 s2 H1 H2. eapply originsKnown_step; eauto. }
  destruct Hinv as [_ Hu]. rewrite List.Forall_forall in Hu. exact (Hu p Hp).
Qed.

Lemma written_addresses_witness :
  map URL (upserts (trace twoSourcesEnd))
  = ["https://c.com/"; "https://b.com/"; "https://a.com/"]
  /\ forall p, In p (upserts (trace twoSourcesEnd)) ->
       exists u, URL p = safeUTF8 u
                 /\ (In u (seedAddresses "https://a.com/,https://b.com/") \/ canonical u).
Proof.
  split; [vm_compute; reflexivity|].
  apply (written_addresses sourceConfig twoSourcesWorld
           "https://a.com/,https://b.com/" "" 4%nat twoSourcesEnd).
  vm_compute. reflexivity.
Defined.

(* ===================================================================== *)
(** * Sanitization                                                        *)
(* ===================================================================== *)

(** C2, amended.  Every page written in a run holds valid UTF-8 in every
    string field.  [safeUTF8] drops the invalid bytes and keeps every
    other byte.  The seven scalar fields pass through it in
    [upsertPage], right before the write; the links pass through it
    earlier, in [extractPage], and [upsertPage] writes [Links] as it
    receives them. *)
Theorem written_pages_valid :
  (forall cfg w seedsEnv allowedDomainsEnv n s,
      iterate (crawlStep cfg (allowedDomainsOf allowedDomainsEnv) w) n
              (initialState seedsEnv) = Some s ->
      Forall validPage (upserts (trace s)))
  /\ (forall s,
         ValidString (safeUTF8 s) = true
         /\ safeUTF8 s = concatRaw (validChunks (rangeString s)))
  /\ (forall w t p,
         fst (upsertPage w t p)
         = UpdateOneCall (safeUTF8 (URL p))
             (mkPage (safeUTF8 (URL p)) (safeUTF8 (Title p)) (safeUTF8 (Snippet p))
                     (safeUTF8 (Favicon p)) (safeUTF8 (SiteName p))
                     (safeUTF8 (Image p)) (safeUTF8 (Text p)) (Links p) (CrawlTime p))
             (snd (upsertPage w t p)))
  /\ (forall u doc now p,
         extractPage u doc now = Some p -> Links p = map safeUTF8 (hrefs doc)).
Proof.
  split; [|split; [|split]].
  - intros cfg w seedsEnv allowedDomainsEnv n s Hs.
    eapply (iterate_invariant _ (fun s => Forall validPage (upserts (trace s))));
      [| |exact Hs].
    + constructor.
    + intros s1 s2 H1 H2. eapply validUpserts_step; eauto.
  - intros s. split; [apply ValidString_safeUTF8 | apply safeUTF8_strips].
  - intros w t p. reflexivity.
  - intros u doc now p. apply extractPage_Links.
Qed.

Lemma written_pages_valid_witness :
  List.length (upserts (trace twoSourcesEnd)) = 3%nat
  /\ Forall validPage (upserts (trace twoSourcesEnd)).
Proof.
  split; [vm_compute; reflexivity|].
  apply (proj1 written_pages_valid sourceConfig twoSourcesWorld
           "https://a.com/,https://b.com/" "" 4%nat twoSourcesEnd).
  vm_compute. reflexivity.
Defined.

(* ===================================================================== *)
(** * Budgets: pages and depth                                            *)
(* ===================================================================== *)

(** The turn that crawls the head of the queue. *)
Lemma crawlStep_crawled (cfg : Config) (allowedDomains : list string) (w : World Page)
      (s : State Page) (item : QueueItem.t) (rest : list QueueItem.t)
      (parsedURL : url.URL) (doc : goquery.Document) (page : Page) :
  queue s = item :: rest ->
  pagesCrawled s < maxPages cfg ->
  QueueItem.URL item ∉ visited s ->
  url.Parse (QueueItem.URL item) = Some parsedURL ->
  isAllowedDomain parsedURL allowedDomains = true ->
  FindOne w (tick s) (QueueItem.URL item) <> None ->
  fetchPage w (tick s) (QueueItem.URL item) = Some doc ->
  extractPage (QueueItem.URL item) doc (Now w (tick s)) = Some page ->
  crawlStep cfg allowedDomains w s
  = Continue
      (mkState
         (rest ++ if QueueItem.Depth item <? maxDepth cfg
                  then linkItems parsedURL ({[QueueItem.URL item]} ∪ visited s)
                                 (QueueItem.Depth item) (Links page)
                  else [])
         ({[QueueItem.URL item]} ∪ visited s)
         (pagesCrawled s + 1) (S (tick s))
         (Sleep :: Log (Crawled (pagesCrawled s + 1))
            :: UpdateOneCall (URL (sanitized page)) (sanitized page)
                 (UpdateOne w (tick s) (URL (sanitized page)) (sanitized page))
            :: GetCall (QueueItem.URL item) :: Log (Fetching (QueueItem.URL item))
            :: FindOneCall (QueueItem.URL item) :: trace s)).
Proof.
  intros Hq Hlt Hv Hp Ha Hf Hfp Hx. unfold crawlStep. rewrite Hq.
  destruct (Z.ltb_spec (pagesCrawled s) (maxPages cfg)); [|lia].
  cbn [negb visited queue pagesCrawled tick trace].
  rewrite bool_decide_false by exact Hv. rewrite Hp, Ha. cbn [negb].
  unfold pageExists.
  destruct (FindOne w (tick s) (QueueItem.URL item)) as [e|]; [|congruence].
  destruct e; cbv beta iota zeta; cbn [andb]; rewrite Hfp, Hx;
    unfold upsertPage, emit, logPrintf; cbv zeta;
    cbn [visited queue pagesCrawled tick trace];
    (destruct (QueueItem.Depth item <? maxDepth cfg);
     cbn [visited queue pagesCrawled tick trace];
     [rewrite enqueueLinks_app | rewrite app_nil_r]; reflexivity).
Qed.

Lemma initialState_nonempty {P : Type} (seedsEnv : string) (item : QueueItem.t)
                            (rest : list QueueItem.t) :
  seedQueue seedsEnv = item :: rest -> String.eqb seedsEnv "" = false.
Proof.
  intros H. destruct (String.eqb_spec seedsEnv "") as [->|]; [|reflexivity].
  rewrite seedQueue_empty in H. discriminate H.
Qed.


(** A page with two links, at [https://a.com/] and [https://b.com/]. *)
Definition linkedPair : list (string * goquery.Document) :=
  [ ("https://a.com/", linksTo ["/x"; "https://b.com/"]);
    ("https://b.com/", linksTo ["https://a.com/"]) ].

Definition linkedPairWorld : World Page := staticWeb linkedPair (Some ErrNoDocuments) None.

Definition pageOf (u : string) (doc : goquery.Document) : Page :=
  match extractPage u doc 0 with
  | Some p => p
  | None => mkPage "" "" "" "" "" "" "" [] 0
  end.


(** Two seeds; the page of the first one has an icon link whose address
    [url.Parse] rejects. *)
Definition brokenIcon : list (string * goquery.Document) :=
  [ ("https://a.com/", pageWithIcon ":");
    ("https://b.com/", linksTo []) ].

Definition brokenIconWorld : World Page := staticWeb brokenIcon (Some ErrNoDocuments) None.

(** The same two seeds, the icon link with an address that parses. *)
Definition soundIcon : list (string * goquery.Document) :=
  [ ("https://a.com/", pageWithIcon "/favicon.ico");
    ("https://b.com/", linksTo []) ].

Definition soundIconWorld : World Page := staticWeb soundIcon (Some ErrNoDocuments) None.

(** C8, the code at the failing input.  With the seeds [https://a.com/]
    and [https://b.com/], where the page of [a.com] has the icon link
    [<link rel="icon" href=":">], the run ends in its first iteration by
    the panic of [extractPage], however many iterations are allowed: the
    second seed is still queued, no page has been written and the whole
    page budget is left, so the loop has ended in a state in which its
    condition says to go on.  With an icon address that parses, the
    same run returns after both seeds are written, the queue empty. *)
Theorem crawl_ends_by_panic_with_queue_and_budget_left :
  (forall fuel,
      exists s,
        crawlSeeds brokenIconWorld "https://a.com/,https://b.com/" "" (S fuel)
        = Some (Crashed s)
        /\ queue s = [QueueItem.mk "https://b.com/" 0]
        /\ pagesCrawled s = 0
        /\ pagesCrawled s < maxPages sourceConfig
        /\ fetches (trace s) = ["https://a.com/"]
        /\ upserts (trace s) = []
        /\ crawlStep sourceConfig (allowedDomainsOf "") brokenIconWorld s <> Exit)
  /\ extractPage "https://a.com/" (pageWithIcon ":") 0 = None
  /\ (exists s,
         crawlSeeds soundIconWorld "https://a.com/,https://b.com/" "" 3
         = Some (ReturnedNil s)
         /\ queue s = []
         /\ map URL (upserts (trace s)) = ["https://b.com/"; "https://a.com/"]).
Proof.
  split; [|split].
  - intros fuel. eexists. split.
    + unfold crawlSeeds, crawlSeedsWith. cbn [String.eqb Ascii.eqb Bool.eqb loop].
      match goal with
      | |- context [crawlStep ?c ?a ?w ?s] =>
          let r := eval vm_compute in (crawlStep c a w s) in
          replace (crawlStep c a w s) with r by (vm_compute; reflexivity)
      end.
      reflexivity.
    + repeat split; try (vm_compute; reflexivity).
      vm_compute. discriminate.
  - vm_compute. reflexivity.
  - eexists. split; [vm_compute; reflexivity|]. split; vm_compute; reflexivity.
Qed.

(** C9.  The links of a page dequeued at depth [d] join the queue, at
    depth [d+1], exactly when [d] is below the depth budget: a link that
    normalizes to an address not visited is among the items added if and
    only if [d < maxDepth], and nothing else is added.  With a depth
    budget of 0 and one seed, the run fetches that seed at most and the
    queue is empty from the first iteration on, whatever links the page
    holds. *)
Theorem links_enqueued_below_depth :
  (forall cfg allowedDomains w s item rest parsedURL doc page,
      queue s = item :: rest ->
      pagesCrawled s < maxPages cfg ->
      QueueItem.URL item ∉ visited s ->
      url.Parse (QueueItem.URL item) = Some parsedURL ->
      isAllowedDomain parsedURL allowedDomains = true ->
      FindOne w (tick s) (QueueItem.URL item) <> None ->
      fetchPage w (tick s) (QueueItem.URL item) = Some doc ->
      extractPage (QueueItem.URL item) doc (Now w (tick s)) = Some page ->
      exists s' added,
        crawlStep cfg allowedDomains w s = Continue s'
        /\ queue s' = (rest ++ added)%list
        /\ (forall href norm,
               In href (Links page) ->
               normalizeURL parsedURL href = inl norm ->
               url.String norm ∉ visited s' ->
               (In (QueueItem.mk (url.String norm) (QueueItem.Depth item + 1)) added
                <-> QueueItem.Depth item < maxDepth cfg))
        /\ (forall queued,
               In queued added ->
               QueueItem.Depth item < maxDepth cfg
               /\ QueueItem.Depth queued = QueueItem.Depth item + 1
               /\ exists href norm,
                   In href (Links page) /\ normalizeURL parsedURL href = inl norm
                   /\ QueueItem.URL queued = url.String norm))
  /\ (forall pages w seedsEnv allowedDomainsEnv seed,
         0 < pages ->
         seedQueue seedsEnv = [QueueItem.mk seed 0] ->
         exists result,
           crawlSeedsWith (mkConfig pages 0) w seedsEnv allowedDomainsEnv 2 = Some result
           /\ match result with
              | SeedsNotSet => False
              | ReturnedNil s | Crashed s =>
                  queue s = []
                  /\ (fetches (trace s) = [] \/ fetches (trace s) = [seed])
                  /\ (List.length (upserts (trace s)) <= 1)%nat
              end).
Proof.
  split.
  - intros cfg allowedDomains w s item rest parsedURL doc page
           Hq Hlt Hv Hp Ha Hf Hfp Hx.
    eexists. eexists. split; [eapply crawlStep_crawled; eassumption|].
    cbn [queue visited]. split; [reflexivity|]. split.
    + intros href norm Hin Hn Hnv.
      destruct (Z.ltb_spec (QueueItem.Depth item) (maxDepth cfg)) as [Hd|Hd].
      * split; [intros _; exact Hd|]. intros _. apply in_linkItems.
        exists href, norm. auto.
      * split; [intros []|]. lia.
    + intros queued Hin.
      destruct (Z.ltb_spec (QueueItem.Depth item) (maxDepth cfg)) as [Hd|Hd];
        [|destruct Hin].
      apply in_linkItems in Hin as (href & norm & Hin & Hn & _ & ->).
      split; [exact Hd|]. split; [reflexivity|]. exists href, norm. auto.
  - intros pages w seedsEnv allowedDomainsEnv seed Hpages Hq.
    unfold crawlSeedsWith. rewrite (initialState_nonempty (P := Page) _ _ _ Hq).
    set (cfg := mkConfig pages 0). set (allowed := allowedDomainsOf allowedDomainsEnv).
    set (s0 := initialState seedsEnv).
    pose proof (crawlStep_iteration cfg allowed w s0) as Hit.
    assert (Hs0 : queue s0 = [QueueItem.mk seed 0] /\ pagesCrawled s0 = 0
                  /\ trace s0 = []) by (repeat split; exact Hq).
    destruct Hs0 as (Hq0 & Hp0 & Ht0).
    assert (Hexit : forall s1, queue s1 = [] -> crawlStep cfg allowed w s1 = Exit)
      by (intros s1 H1; apply crawlStep_Exit; now left).
    cbn [loop].
    destruct (crawlStep cfg allowed w s0) as [|s1|s1] eqn:E.
    + inversion Hit as [[H|H]| | | | | | |]; [congruence | cbn [maxPages cfg] in H; lia].
    + assert (H1 : queue s1 = []
                   /\ (fetches (trace s1) = [] \/ fetches (trace s1) = [seed])
                   /\ (List.length (upserts (trace s1)) <= 1)%nat).
      { inversion Hit as [ | item rest [Eq _] | item rest [Eq _] | item rest pu [Eq _]
                         | item rest pu [Eq _] | item rest pu [Eq _] |
                         | item rest pu doc page [Eq _] ];
          subst; rewrite Hq0 in Eq; injection Eq as <- <-;
          cbn [queue trace QueueItem.URL QueueItem.Depth maxDepth cfg];
          rewrite ?Ht0; cbn [fetches upserts fetchEvents app fst upsertPage List.length];
          repeat split; auto; try lia. }
      rewrite (Hexit s1 (proj1 H1)). eexists. split; [reflexivity|]. exact H1.
    + eexists. split; [reflexivity|].
      inversion Hit as [ | | | | | | item rest pu doc [Eq _] | ]; subst.
      rewrite Hq0 in Eq; injection Eq as <- <-.
      cbn [queue trace QueueItem.URL]. rewrite ?Ht0.
      cbn [fetches upserts fetchEvents app List.length]. repeat split; auto.
Qed.

(** A seed with links, crawled with a depth budget of 0: the page is
    written and no link is queued; with a depth budget of 1 its two
    links are. *)
Lemma links_enqueued_below_depth_witness :
  (exists s,
      crawlSeedsWith (mkConfig 500 0) linkedPairWorld "https://a.com/" "" 2
      = Some (ReturnedNil s)
      /\ queue s = [] /\ fetches (trace s) = ["https://a.com/"]
      /\ map Links (upserts (trace s)) = [["/x"; "https://b.com/"]])
  /\ exists s' added,
      crawlStep (mkConfig 500 1) [] linkedPairWorld (initialState "https://a.com/")
      = Continue s'
      /\ queue s' = ([] ++ added)%list
      /\ added = [QueueItem.mk "https://a.com/x" 1; QueueItem.mk "https://b.com/" 1].
Proof.
  split.
  - destruct (proj2 links_enqueued_below_depth 500 linkedPairWorld "https://a.com/" ""
                "https://a.com/") as (result & Hr & _);
      [lia | vm_compute; reflexivity |].
    eexists. split; [vm_compute; reflexivity|].
    repeat split; vm_compute; reflexivity.
  - destruct (proj1 links_enqueued_below_depth (mkConfig 500 1) [] linkedPairWorld
                (initialState "https://a.com/") (QueueItem.mk "https://a.com/" 0) []
                (url.mkURL "https" "" None "a.com" "/" "" false false "" "" "")
                (linksTo ["/x"; "https://b.com/"])
                (pageOf "https://a.com/" (linksTo ["/x"; "https://b.com/"])))
      as (s' & added & Hs & Hq & _);
      [ vm_compute; reflexivity | vm_compute; reflexivity
      | cbn [initialState visited]; set_solver
      | vm_compute; reflexivity | vm_compute; reflexivity
      | vm_compute; discriminate
      | vm_compute; reflexivity | vm_compute; reflexivity | ].
    exists s', added. split; [exact Hs|]. split; [exact Hq|].
    vm_compute in Hs. injection Hs as <-.
    cbn [queue app] in Hq. symmetry. exact Hq.
Defined.

(* ===================================================================== *)
(** * Errors of the collection                                            *)
(* ===================================================================== *)

(** The earlier revision leaves its loop on the loop condition only, and
    never panics. *)
Lemma legacy_crawlStep_Exit (cfg : Config) (allowedDomains : list string)
      (w : World Legacy.Page) (s : State Legacy.Page) :
  Legacy.crawlStep cfg allowedDomains w s = Exit <->
  queue s = [] \/ maxPages cfg <= pagesCrawled s.
Proof.
  unfold Legacy.crawlStep. destruct (queue s) as [|item rest].
  - split; [intros _; now left | reflexivity].
  - destruct (Z.ltb_spec (pagesCrawled s) (maxPages cfg)) as [Hlt|Hge]; cbn [negb].
    + split; [|intros [H|H]; [discriminate H | lia]].
      intros H. exfalso. revert H.
      repeat first [ discriminate
                   | progress cbv beta iota zeta
                   | match goal with
                     | |- context [match ?x with _ => _ end] => destruct x
                     end ].
    + split; [intros _; now right | reflexivity].
Qed.

Lemma legacy_crawlStep_no_panic (cfg : Config) (allowedDomains : list string)
      (w : World Legacy.Page) (s s' : State Legacy.Page) :
  Legacy.crawlStep cfg allowedDomains w s <> Panic s'.
Proof.
  unfold Legacy.crawlStep.
  repeat first [ discriminate
               | progress cbv beta iota zeta
               | match goal with
                 | |- context [match ?x with _ => _ end] => destruct x
                 end ].
Qed.







(* ===================================================================== *)
(** * Encoding and decoding runes                                         *)
(* ===================================================================== *)

Section RuneFacts.

Local Arguments byte : simpl never.
Local Arguments chr : simpl never.
Local Arguments first : simpl never.
Local Arguments Z.lor : simpl never.
Local Arguments Z.land : simpl never.
Local Arguments Z.shiftl : simpl never.
Local Arguments Z.shiftr : simpl never.
Local Arguments Z.ltb : simpl never.
Local Arguments Z.leb : simpl never.
Local Arguments Z.eqb : simpl never.
Local Arguments Z.mul : simpl never.
Local Arguments Z.add : simpl never.

(** A byte written by [chr] and read by [byte] is the same byte. *)
Lemma byte_chr (z : Z) : 0 <= z < 256 -> byte (chr z) = z.
Proof.
  intros H. unfold byte, chr. rewrite N_ascii_embedding; lia.
Qed.

(** [a<<n | b] is [a * 2^n + b] when [b] fits in [n] bits. *)
Lemma lor_shiftl_low (a b n : Z) :
  0 <= n -> 0 <= b < 2 ^ n -> Z.lor (Z.shiftl a n) b = a * 2 ^ n + b.
Proof.
  intros Hn Hb. rewrite Z.shiftl_mul_pow2 by exact Hn.
  symmetry. apply Z.add_nocarry_lor.
  apply Z.bits_inj'. intros i Hi. rewrite Z.land_spec, Z.bits_0.
  destruct (Z.lt_ge_cases i n) as [Hlt|Hge].
  - rewrite Z.mul_pow2_bits_low by lia. reflexivity.
  - rewrite <- (Z.mod_small b (2 ^ n)) by exact Hb.
    rewrite Z.mod_pow2_bits_high by lia. apply andb_false_r.
Qed.

Lemma lor3 (x y z : Z) :
  0 <= y < 64 -> 0 <= z < 64 ->
  Z.lor (Z.lor (Z.shiftl x 12) (Z.shiftl y 6)) z = x * 4096 + y * 64 + z.
Proof.
  intros Hy Hz.
  rewrite (lor_shiftl_low x) by (rewrite ?Z.shiftl_mul_pow2; lia).
  replace (x * 2 ^ 12 + Z.shiftl y 6) with (Z.shiftl (x * 64 + y) 6)
    by (rewrite !Z.shiftl_mul_pow2; lia).
  rewrite lor_shiftl_low; lia.
Qed.

Lemma lor4 (w x y z : Z) :
  0 <= x < 64 -> 0 <= y < 64 -> 0 <= z < 64 ->
  Z.lor (Z.lor (Z.lor (Z.shiftl w 18) (Z.shiftl x 12)) (Z.shiftl y 6)) z
  = w * 262144 + x * 4096 + y * 64 + z.
Proof.
  intros Hx Hy Hz.
  rewrite (lor_shiftl_low w) by (rewrite ?Z.shiftl_mul_pow2; lia).
  replace (w * 2 ^ 18 + Z.shiftl x 12) with (Z.shiftl (w * 64 + x) 12)
    by (rewrite !Z.shiftl_mul_pow2; lia).
  rewrite lor3 by lia. lia.
Qed.

Lemma land_low (a n : Z) : 0 <= n -> Z.land a (Z.ones n) = a mod 2 ^ n.
Proof. apply Z.land_ones. Qed.

(** The scalar value a rune stands for: itself or, out of range or a
    surrogate, [RuneError]. *)
Definition scalar (r : Z) : Z :=
  if (r <? 0) || (0x10FFFF <? r) || ((0xD800 <=? r) && (r <=? 0xDFFF))
  then RuneError else r.

Local Ltac test_once :=
  match goal with
  | |- context [?a <=? ?b] =>
      first [ rewrite (proj2 (Z.leb_le a b)) by lia
            | rewrite (proj2 (Z.leb_gt a b)) by lia ]
  | |- context [?a <? ?b] =>
      first [ rewrite (proj2 (Z.ltb_lt a b)) by lia
            | rewrite (proj2 (Z.ltb_ge a b)) by lia ]
  | |- context [?a =? ?b] =>
      first [ rewrite (proj2 (Z.eqb_eq a b)) by lia
            | rewrite (proj2 (Z.eqb_neq a b)) by lia ]
  end.

Local Ltac tests := repeat (test_once; cbn [andb orb negb]).

Local Ltac to_arith :=
  change 0x1F with (Z.ones 5); change 0x0F with (Z.ones 4);
  change 0x07 with (Z.ones 3); change 0x3F with (Z.ones 6);
  rewrite ?land_low by lia;
  rewrite ?Z.shiftr_div_pow2 by lia.

(** The payload of a sequence of two, three or four bytes. *)
Lemma rune2 (b0 b1 : Z) :
  0xC0 <= b0 <= 0xDF -> 0x80 <= b1 <= 0xBF ->
  Z.lor (Z.shiftl (Z.land b0 mask2) 6) (Z.land b1 maskx)
  = (b0 - 0xC0) * 64 + (b1 - 0x80).
Proof.
  intros H0 H1. unfold mask2, maskx. to_arith.
  rewrite lor_shiftl_low by (try lia; apply Z.mod_pos_bound; lia).
  change (2 ^ 6) with 64. change (2 ^ 5) with 32.
  Z.div_mod_to_equations. lia.
Qed.

Lemma rune3 (b0 b1 b2 : Z) :
  0xE0 <= b0 <= 0xEF -> 0x80 <= b1 <= 0xBF -> 0x80 <= b2 <= 0xBF ->
  Z.lor (Z.lor (Z.shiftl (Z.land b0 mask3) 12) (Z.shiftl (Z.land b1 maskx) 6))
        (Z.land b2 maskx)
  = (b0 - 0xE0) * 4096 + (b1 - 0x80) * 64 + (b2 - 0x80).
Proof.
  intros H0 H1 H2. unfold mask3, maskx. to_arith.
  rewrite lor3 by (apply Z.mod_pos_bound; lia).
  change (2 ^ 6) with 64. change (2 ^ 4) with 16.
  Z.div_mod_to_equations. lia.
Qed.

Lemma rune4 (b0 b1 b2 b3 : Z) :
  0xF0 <= b0 <= 0xF7 -> 0x80 <= b1 <= 0xBF -> 0x80 <= b2 <= 0xBF ->
  0x80 <= b3 <= 0xBF ->
  Z.lor (Z.lor (Z.lor (Z.shiftl (Z.land b0 mask4) 18)
                      (Z.shiftl (Z.land b1 maskx) 12))
               (Z.shiftl (Z.land b2 maskx) 6))
        (Z.land b3 maskx)
  = (b0 - 0xF0) * 262144 + (b1 - 0x80) * 4096 + (b2 - 0x80) * 64 + (b3 - 0x80).
Proof.
  intros H0 H1 H2 H3. unfold mask4, maskx. to_arith.
  rewrite lor4 by (apply Z.mod_pos_bound; lia).
  change (2 ^ 6) with 64. change (2 ^ 3) with 8.
  Z.div_mod_to_equations. lia.
Qed.

Lemma decode1 (b0 : Z) (t : string) :
  0 <= b0 < 0x80 -> DecodeRuneInString (String (chr b0) t) = (b0, 1%nat).
Proof.
  intros H. unfold DecodeRuneInString. rewrite byte_chr by lia.
  unfold RuneSelf. tests. reflexivity.
Qed.

Lemma decode2 (b0 b1 : Z) (t : string) :
  0xC2 <= b0 <= 0xDF -> 0x80 <= b1 <= 0xBF ->
  DecodeRuneInString (String (chr b0) (String (chr b1) t))
  = ((b0 - 0xC0) * 64 + (b1 - 0x80), 2%nat).
Proof.
  intros H0 H1. unfold DecodeRuneInString. rewrite !byte_chr by lia.
  unfold RuneSelf, first, locb, hicb. tests.
  now rewrite rune2 by lia.
Qed.

Lemma decode3 (b0 b1 b2 : Z) (t : string) :
  0xE0 <= b0 <= 0xEF -> 0x80 <= b1 <= 0xBF -> 0x80 <= b2 <= 0xBF ->
  (b0 = 0xE0 -> 0xA0 <= b1) -> (b0 = 0xED -> b1 <= 0x9F) ->
  DecodeRuneInString (String (chr b0) (String (chr b1) (String (chr b2) t)))
  = ((b0 - 0xE0) * 4096 + (b1 - 0x80) * 64 + (b2 - 0x80), 3%nat).
Proof.
  intros H0 H1 H2 Hlo Hhi. unfold DecodeRuneInString. rewrite !byte_chr by lia.
  unfold RuneSelf, first, locb, hicb.
  assert (Hc : b0 = 224 \/ 225 <= b0 <= 236 \/ b0 = 237 \/ 238 <= b0 <= 239) by lia.
  destruct Hc as [Hc|[Hc|[Hc|Hc]]]; tests; now rewrite rune3 by lia.
Qed.

Lemma decode4 (b0 b1 b2 b3 : Z) (t : string) :
  0xF0 <= b0 <= 0xF4 -> 0x80 <= b1 <= 0xBF -> 0x80 <= b2 <= 0xBF ->
  0x80 <= b3 <= 0xBF ->
  (b0 = 0xF0 -> 0x90 <= b1) -> (b0 = 0xF4 -> b1 <= 0x8F) ->
  DecodeRuneInString
    (String (chr b0) (String (chr b1) (String (chr b2) (String (chr b3) t))))
  = ((b0 - 0xF0) * 262144 + (b1 - 0x80) * 4096 + (b2 - 0x80) * 64 + (b3 - 0x80),
     4%nat).
Proof.
  intros H0 H1 H2 H3 Hlo Hhi. unfold DecodeRuneInString. rewrite !byte_chr by lia.
  unfold RuneSelf, first, locb, hicb.
  assert (Hc : b0 = 240 \/ 241 <= b0 <= 243 \/ b0 = 244) by lia.
  destruct Hc as [Hc|[Hc|Hc]]; tests; now rewrite rune4 by lia.
Qed.

(** The tag bits of a leading or continuation byte sit above its
    payload. *)
Lemma lor_tag (k n x : Z) : 0 <= n -> 0 <= x < 2 ^ n -> Z.lor (Z.shiftl k n) x = k * 2 ^ n + x.
Proof. apply lor_shiftl_low. Qed.

Local Ltac tags :=
  unfold t2, t3, t4, tx, maskx;
  change 0xC0 with (Z.shiftl 3 6); change 0xE0 with (Z.shiftl 7 5);
  change 0xF0 with (Z.shiftl 15 4); change 0x80 with (Z.shiftl 1 7);
  change 0x3F with (Z.ones 6);
  rewrite ?land_low by lia; rewrite ?Z.shiftr_div_pow2 by lia;
  change (2 ^ 6) with 64; change (2 ^ 12) with 4096; change (2 ^ 18) with 262144.

Lemma EncodeRune_2 (r : Z) :
  0x80 <= r <= 0x7FF ->
  EncodeRune r = String (chr (0xC0 + r / 64)) (String (chr (0x80 + r mod 64)) "").
Proof.
  intros H. unfold EncodeRune. tests. tags.
  rewrite !lor_tag by (change (2 ^ 6) with 64; change (2 ^ 7) with 128;
                       Z.div_mod_to_equations; lia).
  reflexivity.
Qed.

Lemma threeBytes_eq (r : Z) :
  0 <= r <= 0xFFFF ->
  threeBytes r
  = String (chr (0xE0 + r / 4096))
      (String (chr (0x80 + (r / 64) mod 64)) (String (chr (0x80 + r mod 64)) "")).
Proof.
  intros H. unfold threeBytes. tags.
  rewrite !lor_tag by (change (2 ^ 5) with 32; change (2 ^ 7) with 128;
                       Z.div_mod_to_equations; lia).
  reflexivity.
Qed.

Lemma EncodeRune_4 (r : Z) :
  0x10000 <= r <= 0x10FFFF ->
  EncodeRune r
  = String (chr (0xF0 + r / 262144))
      (String (chr (0x80 + (r / 4096) mod 64))
         (String (chr (0x80 + (r / 64) mod 64)) (String (chr (0x80 + r mod 64)) ""))).
Proof.
  intros H. unfold EncodeRune. tests. tags.
  rewrite !lor_tag by (change (2 ^ 4) with 16; change (2 ^ 7) with 128;
                       Z.div_mod_to_equations; lia).
  reflexivity.
Qed.

(** A rune written by [EncodeRune] is read back by the range loop as one
    chunk, whatever follows it: the rune itself or, when it is no scalar
    value, [RuneError]. *)
Lemma rangeString_EncodeRune (r : Z) (t : string) :
  rangeString (EncodeRune r +:+ t) = mkChunk (scalar r) (EncodeRune r) :: rangeString t.
Proof.
  unfold scalar.
  assert (Herr : rangeString (threeBytes RuneError +:+ t)
                 = mkChunk RuneError (threeBytes RuneError) :: rangeString t).
  { rewrite (threeBytes_eq RuneError) by (unfold RuneError; lia).
    rewrite !app_String, app_empty_l. cbn [rangeString].
    rewrite decode3 by (unfold RuneError; Z.div_mod_to_equations; lia).
    reflexivity. }
  destruct (Z.ltb_spec r 0) as [Hneg|Hpos]; cbn [orb].
  { unfold EncodeRune. tests. exact Herr. }
  destruct (Z.ltb_spec 0x10FFFF r) as [Hbig|Hmax]; cbn [orb].
  { unfold EncodeRune. tests. exact Herr. }
  destruct ((0xD800 <=? r) && (r <=? 0xDFFF)) eqn:Hsur.
  { apply andb_true_iff in Hsur as [H1 H2]. apply Z.leb_le in H1, H2.
    unfold EncodeRune. tests. exact Herr. }
  assert (Hns : r < 0xD800 \/ 0xDFFF < r).
  { apply andb_false_iff in Hsur as [H|H]; apply Z.leb_gt in H; lia. }
  clear Hsur.
  destruct (Z.le_gt_cases r 0x7F) as [H1|H1].
  { unfold EncodeRune. tests. rewrite !app_String, app_empty_l.
    cbn [rangeString]. rewrite decode1 by lia. reflexivity. }
  destruct (Z.le_gt_cases r 0x7FF) as [H2|H2].
  { rewrite EncodeRune_2 by lia. rewrite !app_String, app_empty_l.
    cbn [rangeString]. rewrite decode2 by (Z.div_mod_to_equations; lia).
    replace ((0xC0 + r / 64 - 0xC0) * 64 + (0x80 + r mod 64 - 0x80)) with r
      by (Z.div_mod_to_equations; lia).
    reflexivity. }
  destruct (Z.le_gt_cases r 0xFFFF) as [H3|H3].
  { assert (He : EncodeRune r = threeBytes r) by (unfold EncodeRune; destruct Hns; tests; reflexivity).
    rewrite He, threeBytes_eq by lia. rewrite !app_String, app_empty_l.
    cbn [rangeString]. rewrite decode3 by (Z.div_mod_to_equations; lia).
    replace ((0xE0 + r / 4096 - 0xE0) * 4096 + (0x80 + (r / 64) mod 64 - 0x80) * 64
             + (0x80 + r mod 64 - 0x80)) with r
      by (Z.div_mod_to_equations; lia).
    reflexivity. }
  rewrite EncodeRune_4 by lia. rewrite !app_String, app_empty_l.
  cbn [rangeString]. rewrite decode4 by (Z.div_mod_to_equations; lia).
  replace ((0xF0 + r / 262144 - 0xF0) * 262144 + (0x80 + (r / 4096) mod 64 - 0x80) * 4096
           + (0x80 + (r / 64) mod 64 - 0x80) * 64 + (0x80 + r mod 64 - 0x80)) with r
    by (Z.div_mod_to_equations; lia).
  reflexivity.
Qed.

Lemma chr_byte (c : ascii) : chr (byte c) = c.
Proof. unfold chr, byte. rewrite N2Z.id. apply ascii_N_embedding. Qed.

Lemma byte_range (c : ascii) : 0 <= byte c < 256.
Proof.
  unfold byte. pose proof (N_ascii_bounded c). lia.
Qed.

(** What the table [first] holds for the bytes that start a sequence. *)
Lemma first_spec (s0 sz lo hi : Z) :
  first s0 = Some (sz, lo, hi) ->
  0x80 <= lo /\ hi <= 0xBF
  /\ ((sz = 2 /\ 0xC2 <= s0 <= 0xDF)
      \/ (sz = 3 /\ 0xE0 <= s0 <= 0xEF
          /\ (s0 = 0xE0 -> 0xA0 <= lo) /\ (s0 = 0xED -> hi <= 0x9F))
      \/ (sz = 4 /\ 0xF0 <= s0 <= 0xF4
          /\ (s0 = 0xF0 -> 0x90 <= lo) /\ (s0 = 0xF4 -> hi <= 0x8F))).
Proof.
  unfold first, locb, hicb.
  repeat match goal with
    | |- context [if ?b then _ else _] => destruct b eqn:?
    end;
    try discriminate; intros [= <- <- <-];
    repeat match goal with
      | H : _ = true |- _ =>
          rewrite ?andb_true_iff, ?Z.leb_le, ?Z.eqb_eq in H
      | H : _ = false |- _ =>
          rewrite ?andb_false_iff, ?Z.leb_gt, ?Z.eqb_neq in H
      end;
    lia.
Qed.

(** What the range loop reads is a scalar value held in one to four
    bytes. *)
Definition wellFormedChunk (c : Chunk) : Prop :=
  1 <= len (raw c) <= 4 /\ scalar (rune c) = rune c.

Lemma scalar_RuneError : scalar RuneError = RuneError.
Proof. reflexivity. Qed.

Lemma scalar_id (r : Z) :
  0 <= r <= 0x10FFFF -> r < 0xD800 \/ 0xDFFF < r -> scalar r = r.
Proof. intros H Hs. unfold scalar. destruct Hs; tests; reflexivity. Qed.

Lemma rangeString_step_wf (c0 : ascii) (r0 : string) :
  exists c rest,
    rangeString (String c0 r0) = c :: rangeString rest
    /\ (String.length rest <= String.length r0)%nat
    /\ wellFormedChunk c.
Proof.
  assert (Hone : wellFormedChunk (mkChunk RuneError (String c0 ""))).
  { split; [cbn [raw]; rewrite !len_String, len_empty; lia | apply scalar_RuneError]. }
  pose proof (byte_range c0) as R0.
  cbn [rangeString]. unfold DecodeRuneInString.
  destruct (Z.ltb_spec (byte c0) RuneSelf) as [E0|E0].
  { exists (mkChunk (byte c0) (String c0 "")), r0. split; [reflexivity|].
    split; [lia|]. split; [cbn [raw]; rewrite !len_String, len_empty; lia|]. unfold RuneSelf in E0.
    cbn [rune]. apply scalar_id; lia. }
  destruct (first (byte c0)) as [[[sz lo] hi]|] eqn:E1.
  2:{ exists (mkChunk RuneError (String c0 "")), r0. auto. }
  apply first_spec in E1 as (Hlo & Hhi & Hsz).
  destruct r0 as [|c1 r1].
  { exists (mkChunk RuneError (String c0 "")), "". auto. }
  pose proof (byte_range c1) as R1.
  destruct ((byte c1 <? lo) || (hi <? byte c1)) eqn:E2.
  { exists (mkChunk RuneError (String c0 "")), (String c1 r1). auto. }
  apply orb_false_iff in E2 as [E2 E2']. apply Z.ltb_ge in E2, E2'.
  destruct (Z.leb_spec sz 2) as [E3|E3].
  { exists (mkChunk (Z.lor (Z.shiftl (Z.land (byte c0) mask2) 6)
                           (Z.land (byte c1) maskx))
                    (String c0 (String c1 ""))), r1.
    split; [reflexivity|]. split; [cbn [String.length]; lia|].
    split; [cbn [raw]; rewrite !len_String, len_empty; lia|]. cbn [rune].
    rewrite rune2 by lia. apply scalar_id; lia. }
  destruct r1 as [|c2 r2].
  { exists (mkChunk RuneError (String c0 "")), (String c1 ""). auto. }
  pose proof (byte_range c2) as R2.
  destruct ((byte c2 <? locb) || (hicb <? byte c2)) eqn:E4.
  { exists (mkChunk RuneError (String c0 "")), (String c1 (String c2 r2)).
    split; [reflexivity|]. split; [cbn [String.length]; lia | exact Hone]. }
  apply orb_false_iff in E4 as [E4 E4']. apply Z.ltb_ge in E4, E4'.
  unfold locb, hicb in E4, E4'.
  destruct (Z.leb_spec sz 3) as [E5|E5].
  { exists (mkChunk (Z.lor (Z.lor (Z.shiftl (Z.land (byte c0) mask3) 12)
                                  (Z.shiftl (Z.land (byte c1) maskx) 6))
                           (Z.land (byte c2) maskx))
                    (String c0 (String c1 (String c2 "")))), r2.
    split; [reflexivity|]. split; [cbn [String.length]; lia|].
    split; [cbn [raw]; rewrite !len_String, len_empty; lia|]. cbn [rune].
    rewrite rune3 by lia. apply scalar_id; lia. }
  destruct r2 as [|c3 r3].
  { exists (mkChunk RuneError (String c0 "")), (String c1 (String c2 "")).
    split; [reflexivity|]. split; [cbn [String.length]; lia | exact Hone]. }
  pose proof (byte_range c3) as R3.
  destruct ((byte c3 <? locb) || (hicb <? byte c3)) eqn:E6.
  { exists (mkChunk RuneError (String c0 "")), (String c1 (String c2 (String c3 r3))).
    split; [reflexivity|]. split; [cbn [String.length]; lia | exact Hone]. }
  apply orb_false_iff in E6 as [E6 E6']. apply Z.ltb_ge in E6, E6'.
  unfold locb, hicb in E6, E6'.
  exists (mkChunk (Z.lor (Z.lor (Z.lor (Z.shiftl (Z.land (byte c0) mask4) 18)
                                       (Z.shiftl (Z.land (byte c1) maskx) 12))
                                (Z.shiftl (Z.land (byte c2) maskx) 6))
                         (Z.land (byte c3) maskx))
                  (String c0 (String c1 (String c2 (String c3 ""))))), r3.
  split; [reflexivity|]. split; [cbn [String.length]; lia|].
  split; [cbn [raw]; rewrite !len_String, len_empty; lia|]. cbn [rune].
  rewrite rune4 by lia. apply scalar_id; lia.
Qed.

Lemma rangeString_wf (s : string) : Forall wellFormedChunk (rangeString s).
Proof.
  remember (String.length s) as n eqn:Hn.
  assert (Hle : (String.length s <= n)%nat) by lia. clear Hn.
  revert s Hle. induction n as [|n IH]; intros s Hle.
  - destruct s; [constructor | cbn in Hle; lia].
  - destruct s as [|c0 r0]; [constructor|].
    destruct (rangeString_step_wf c0 r0) as (c & rest & Hr & Hlen & Hwf).
    rewrite Hr. constructor; [exact Hwf|].
    apply IH. cbn [String.length] in Hle. lia.
Qed.

(** [[]rune(string(runes))]: the runes come back, those that are no
    scalar values as [RuneError]. *)
Lemma rangeString_ofRunes (rs : list Z) :
  rangeString (ofRunes rs) = map (fun r => mkChunk (scalar r) (EncodeRune r)) rs.
Proof.
  induction rs as [|r rs IH]; [reflexivity|].
  change (ofRunes (r :: rs)) with (EncodeRune r +:+ ofRunes rs).
  rewrite rangeString_EncodeRune, IH. reflexivity.
Qed.

Lemma toRunes_ofRunes (rs : list Z) : toRunes (ofRunes rs) = map scalar rs.
Proof.
  unfold toRunes. rewrite rangeString_ofRunes, map_map. reflexivity.
Qed.

(** The runes of a string are scalar values. *)
Lemma toRunes_scalar (s : string) : map scalar (toRunes s) = toRunes s.
Proof.
  unfold toRunes. pose proof (rangeString_wf s) as H.
  induction H as [|c cs [_ Hc] _ IH]; [reflexivity|].
  cbn [map]. now rewrite Hc, IH.
Qed.

Lemma RuneCount_ofRunes (rs : list Z) :
  RuneCountInString (ofRunes rs) = Z.of_nat (List.length rs).
Proof.
  unfold RuneCountInString. now rewrite rangeString_ofRunes, length_map.
Qed.

Lemma EncodeRune_not_invalid (r : Z) :
  isInvalid (mkChunk (scalar r) (EncodeRune r)) = false.
Proof.
  unfold isInvalid. cbn [rune raw].
  destruct (Z.eqb_spec (scalar r) RuneError) as [E|E]; [|reflexivity].
  cbn [andb]. apply Z.eqb_neq.
  assert (H : 0 <= r <= 0x7F \/ ~ 0 <= r <= 0x7F) by lia.
  destruct H as [H|H].
  - exfalso. rewrite scalar_id in E by lia. unfold RuneError in E. lia.
  - unfold EncodeRune, threeBytes.
    repeat match goal with
      | |- context [if ?b then _ else _] => destruct b eqn:?
      end;
      rewrite ?len_String, len_empty; lia.
Qed.

(** [string(runes)] is valid UTF-8. *)
Lemma ValidString_ofRunes (rs : list Z) : ValidString (ofRunes rs) = true.
Proof.
  unfold ValidString. rewrite rangeString_ofRunes.
  induction rs as [|r rs IH]; [reflexivity|].
  cbn [map forallb]. now rewrite EncodeRune_not_invalid, IH.
Qed.

(** A string has at most four bytes to the rune. *)
Lemma len_le_RuneCount (s : string) : len s <= 4 * RuneCountInString s.
Proof.
  unfold RuneCountInString. rewrite <- (concatRaw_rangeString s) at 1.
  pose proof (rangeString_wf s) as H.
  induction H as [|c cs [Hc _] _ IH];
    [cbn [concatRaw fold_right List.length]; rewrite len_empty; lia|].
  rewrite concatRaw_cons, len_app. cbn [List.length]. lia.
Qed.

Lemma sliceRunes_firstn {A : Type} (n : Z) (l : list A) :
  sliceRunes n l = firstn (Z.to_nat n) l.
Proof.
  revert n. induction l as [|x l IH]; intros n; cbn [sliceRunes].
  - now rewrite firstn_nil.
  - destruct (Z.leb_spec n 0) as [H|H].
    + replace (Z.to_nat n) with 0%nat by lia. reflexivity.
    + replace (Z.to_nat n) with (S (Z.to_nat (n - 1))) by lia.
      cbn [firstn]. now rewrite IH.
Qed.

Lemma sliceRunes_length {A : Type} (n : Z) (l : list A) :
  0 <= n ->
  Z.of_nat (List.length (sliceRunes n l)) = Z.min n (Z.of_nat (List.length l)).
Proof.
  intros H. rewrite sliceRunes_firstn, length_firstn. lia.
Qed.

Lemma sliceRunes_all {A : Type} (n : Z) (l : list A) :
  Z.of_nat (List.length l) <= n -> sliceRunes n l = l.
Proof.
  intros H. rewrite sliceRunes_firstn. apply firstn_all2. lia.
Qed.

End RuneFacts.

(* ===================================================================== *)
(** * Trimming                                                            *)
(* ===================================================================== *)

Section TrimFacts.

Local Arguments byte : simpl never.
Local Arguments first : simpl never.
Local Arguments Z.lor : simpl never.
Local Arguments Z.land : simpl never.
Local Arguments Z.shiftl : simpl never.
Local Arguments Z.ltb : simpl never.
Local Arguments Z.leb : simpl never.
Local Arguments Z.eqb : simpl never.

(** An invalid byte in front of a text is an invalid byte in front of
    every text that starts the same way. *)
Definition invalidBefore (c0 : ascii) (r0 : string) : Prop :=
  forall t x, r0 = t +:+ x ->
              rangeString (String c0 t) = mkChunk RuneError (String c0 "") :: rangeString t.

Local Ltac cut_prefix :=
  intros t x Hpre; cbn [rangeString]; unfold DecodeRuneInString;
  repeat match goal with
    | H : ?r = ?t +:+ ?x |- _ =>
        is_var t; destruct t as [|? t];
        [ clear H
        | rewrite app_String in H; first [discriminate H | injection H as <- H] ]
    end.

Lemma rangeString_step_cut (c0 : ascii) (r0 : string) :
  exists c rest,
    rangeString (String c0 r0) = c :: rangeString rest
    /\ raw c +:+ rest = String c0 r0
    /\ (isInvalid c = true ->
        c = mkChunk RuneError (String c0 "") /\ rest = r0 /\ invalidBefore c0 r0).
Proof.
  cbn [rangeString]. unfold DecodeRuneInString.
  destruct (byte c0 <? RuneSelf) eqn:E0.
  { exists (mkChunk (byte c0) (String c0 "")), r0. split; [reflexivity|].
    split; [reflexivity|]. unfold isInvalid. cbn [rune raw].
    intros H. apply andb_true_iff in H as [H _]. apply Z.eqb_eq in H.
    apply Z.ltb_lt in E0. unfold RuneSelf, RuneError in *. lia. }
  destruct (first (byte c0)) as [[[sz lo] hi]|] eqn:E1.
  2:{ exists (mkChunk RuneError (String c0 "")), r0. split; [reflexivity|].
      split; [reflexivity|]. intros _. split; [reflexivity|]. split; [reflexivity|].
      cut_prefix; rewrite E0, E1; reflexivity. }
  destruct r0 as [|c1 r1].
  { exists (mkChunk RuneError (String c0 "")), "". split; [reflexivity|].
    split; [reflexivity|]. intros _. split; [reflexivity|]. split; [reflexivity|].
    cut_prefix; rewrite E0, E1; reflexivity. }
  destruct ((byte c1 <? lo) || (hi <? byte c1)) eqn:E2.
  { exists (mkChunk RuneError (String c0 "")), (String c1 r1). split; [reflexivity|].
    split; [reflexivity|]. intros _. split; [reflexivity|]. split; [reflexivity|].
    cut_prefix; rewrite E0, E1, ?E2; reflexivity. }
  destruct (sz <=? 2) eqn:E3.
  { exists (mkChunk (Z.lor (Z.shiftl (Z.land (byte c0) mask2) 6)
                           (Z.land (byte c1) maskx))
                    (String c0 (String c1 ""))), r1.
    split; [reflexivity|]. split; [reflexivity|]. unfold isInvalid. cbn [raw].
    rewrite andb_false_r. discriminate. }
  destruct r1 as [|c2 r2].
  { exists (mkChunk RuneError (String c0 "")), (String c1 ""). split; [reflexivity|].
    split; [reflexivity|]. intros _. split; [reflexivity|]. split; [reflexivity|].
    cut_prefix; rewrite E0, E1, ?E2, ?E3; reflexivity. }
  destruct ((byte c2 <? locb) || (hicb <? byte c2)) eqn:E4.
  { exists (mkChunk RuneError (String c0 "")), (String c1 (String c2 r2)).
    split; [reflexivity|].
    split; [reflexivity|]. intros _. split; [reflexivity|]. split; [reflexivity|].
    cut_prefix; rewrite E0, E1, ?E2, ?E3, ?E4; reflexivity. }
  destruct (sz <=? 3) eqn:E5.
  { exists (mkChunk (Z.lor (Z.lor (Z.shiftl (Z.land (byte c0) mask3) 12)
                                  (Z.shiftl (Z.land (byte c1) maskx) 6))
                           (Z.land (byte c2) maskx))
                    (String c0 (String c1 (String c2 "")))), r2.
    split; [reflexivity|]. split; [reflexivity|]. unfold isInvalid. cbn [raw].
    rewrite andb_false_r. discriminate. }
  destruct r2 as [|c3 r3].
  { exists (mkChunk RuneError (String c0 "")), (String c1 (String c2 "")).
    split; [reflexivity|].
    split; [reflexivity|]. intros _. split; [reflexivity|]. split; [reflexivity|].
    cut_prefix; rewrite E0, E1, ?E2, ?E3, ?E4, ?E5; reflexivity. }
  destruct ((byte c3 <? locb) || (hicb <? byte c3)) eqn:E6.
  { exists (mkChunk RuneError (String c0 "")), (String c1 (String c2 (String c3 r3))).
    split; [reflexivity|].
    split; [reflexivity|]. intros _. split; [reflexivity|]. split; [reflexivity|].
    cut_prefix; rewrite E0, E1, ?E2, ?E3, ?E4, ?E5, ?E6; reflexivity. }
  exists (mkChunk (Z.lor (Z.lor (Z.lor (Z.shiftl (Z.land (byte c0) mask4) 18)
                                       (Z.shiftl (Z.land (byte c1) maskx) 12))
                                (Z.shiftl (Z.land (byte c2) maskx) 6))
                         (Z.land (byte c3) maskx))
                  (String c0 (String c1 (String c2 (String c3 ""))))), r3.
  split; [reflexivity|]. split; [reflexivity|]. unfold isInvalid. cbn [raw].
  rewrite andb_false_r. discriminate.
Qed.

Lemma concatRaw_app (cs ds : list Chunk) :
  concatRaw (cs ++ ds) = concatRaw cs +:+ concatRaw ds.
Proof.
  induction cs as [|c cs IH]; [reflexivity|].
  cbn [app]. rewrite !concatRaw_cons, IH. now rewrite app_assoc_str.
Qed.

(** The chunks of a string, cut between two chunks, are the chunks of
    the two parts. *)
Lemma rangeString_cut (s : string) (p r : list Chunk) :
  rangeString s = (p ++ r)%list ->
  rangeString (concatRaw p) = p /\ rangeString (concatRaw r) = r.
Proof.
  revert s. induction p as [|c p IH]; intros s Hs.
  - cbn [app] in Hs. split; [reflexivity|]. rewrite <- Hs.
    now rewrite concatRaw_rangeString.
  - destruct s as [|c0 r0]; [discriminate Hs|].
    destruct (rangeString_step c0 r0) as (c' & rest & Hr & _ & Hraw & Hst).
    destruct (rangeString_step_cut c0 r0) as (c'' & rest' & Hr' & Hraw' & Hinv).
    rewrite Hr in Hs. cbn [app] in Hs. injection Hs as -> Hrest.
    rewrite Hr in Hr'. injection Hr' as <- Hsame.
    destruct (IH rest Hrest) as [IHp IHr]. split; [|exact IHr].
    rewrite concatRaw_cons. destruct (isInvalid c) eqn:Ei.
    + destruct (Hinv eq_refl) as (-> & _ & Hcut). cbn [raw] in *.
      rewrite app_String, app_empty_l in Hraw. injection Hraw as ->.
      rewrite app_String, app_empty_l.
      rewrite (Hcut (concatRaw p) (concatRaw r)), IHp; [reflexivity|].
      rewrite <- concatRaw_app, <- Hrest. symmetry. apply concatRaw_rangeString.
    + rewrite (Hst Ei), IHp. reflexivity.
Qed.

Lemma trimLeft_suffix (cs : list Chunk) : exists l, cs = (l ++ trimLeft cs)%list.
Proof.
  induction cs as [|c cs [l IH]]; [exists []; reflexivity|].
  cbn [trimLeft]. destruct (spaceChunk c).
  - exists (c :: l). cbn [app]. now rewrite <- IH.
  - exists []. reflexivity.
Qed.

Lemma trimRight_prefix (cs : list Chunk) : exists r, cs = (trimRight cs ++ r)%list.
Proof.
  unfold trimRight. destruct (trimLeft_suffix (rev cs)) as [l Hl].
  exists (rev l). rewrite <- rev_app_distr, <- Hl. symmetry. apply rev_involutive.
Qed.

(** The chunks of a trimmed string are the chunks of the string, without
    the white space at the two ends. *)
Lemma rangeString_TrimSpace (s : string) :
  rangeString (TrimSpace s) = trimRight (trimLeft (rangeString s)).
Proof.
  unfold TrimSpace.
  destruct (trimLeft_suffix (rangeString s)) as [l Hl].
  destruct (trimRight_prefix (trimLeft (rangeString s))) as [r Hr].
  destruct (rangeString_cut s l _ Hl) as [_ Hmid].
  assert (Hmid' : rangeString (concatRaw (trimLeft (rangeString s)))
                  = (trimRight (trimLeft (rangeString s)) ++ r)%list)
    by (rewrite Hmid; exact Hr).
  apply (rangeString_cut _ _ _ Hmid').
Qed.

(** The first chunk, if any, is no white space. *)
Definition startsBlack (cs : list Chunk) : Prop :=
  match cs with
  | [] => True
  | c :: _ => spaceChunk c = false
  end.

Lemma trimLeft_startsBlack (cs : list Chunk) : startsBlack (trimLeft cs).
Proof.
  induction cs as [|c cs IH]; [exact I|].
  cbn [trimLeft]. destruct (spaceChunk c) eqn:E; [exact IH | exact E].
Qed.

Lemma trimLeft_fixed (cs : list Chunk) : startsBlack cs -> trimLeft cs = cs.
Proof.
  destruct cs as [|c cs]; [reflexivity|]. cbn [startsBlack trimLeft]. now intros ->.
Qed.

Lemma trimRight_startsBlack (cs : list Chunk) :
  startsBlack cs -> startsBlack (trimRight cs).
Proof.
  destruct (trimRight_prefix cs) as [r Hr]. intros H. rewrite Hr in H.
  destruct (trimRight cs); [exact I | exact H].
Qed.

Lemma trimRight_idempotent (cs : list Chunk) : trimRight (trimRight cs) = trimRight cs.
Proof.
  unfold trimRight. rewrite rev_involutive.
  now rewrite (trimLeft_fixed (trimLeft (rev cs))) by apply trimLeft_startsBlack.
Qed.

(** Trimming a trimmed string changes nothing. *)
Lemma TrimSpace_idempotent (s : string) : TrimSpace (TrimSpace s) = TrimSpace s.
Proof.
  unfold TrimSpace at 1. rewrite rangeString_TrimSpace.
  rewrite (trimLeft_fixed (trimRight _))
    by apply trimRight_startsBlack, trimLeft_startsBlack.
  now rewrite trimRight_idempotent.
Qed.

(** A trimmed string neither starts nor ends with white space. *)
Lemma TrimSpace_ends (s : string) :
  startsBlack (rangeString (TrimSpace s))
  /\ startsBlack (rev (rangeString (TrimSpace s))).
Proof.
  rewrite rangeString_TrimSpace. split.
  - apply trimRight_startsBlack, trimLeft_startsBlack.
  - unfold trimRight. rewrite rev_involutive. apply trimLeft_startsBlack.
Qed.

End TrimFacts.

(* ===================================================================== *)
(** * Further properties of the crawler's functions                       *)
(* ===================================================================== *)

(** ** [safeUTF8] *)

Lemma len_validChunks (cs : list Chunk) :
  len (concatRaw (validChunks cs)) <= len (concatRaw cs).
Proof.
  induction cs as [|c cs IH]; [apply Z.le_refl|].
  unfold validChunks in *. cbn [List.filter].
  destruct (negb (isInvalid c)); rewrite ?concatRaw_cons, ?len_app;
    pose proof (len_nonneg (raw c)); lia.
Qed.

(** X1: [safeUTF8] returns its argument unchanged exactly when the
    argument is valid UTF-8. *)
Theorem safeUTF8_unchanged_iff_valid (s : string) :
  safeUTF8 s = s <-> ValidString s = true.
Proof.
  split.
  - intros H. rewrite <- H. apply ValidString_safeUTF8.
  - apply safeUTF8_valid.
Qed.

(** X2: applying [safeUTF8] twice is the same as applying it once, and
    its result is never longer than its argument. *)
Theorem safeUTF8_idempotent_never_longer (s : string) :
  safeUTF8 (safeUTF8 s) = safeUTF8 s /\ len (safeUTF8 s) <= len s.
Proof.
  split.
  - apply safeUTF8_valid, ValidString_safeUTF8.
  - rewrite safeUTF8_strips. rewrite <- (concatRaw_rangeString s) at 2.
    apply len_validChunks.
Qed.

(** ** The text of a page *)

(** The trimmed text of the [body], before it is cut. *)
Definition bodyText (doc : goquery.Document) : string :=
  TrimSpace (goquery.Text (goquery.Find doc (goquery.byTag "body"))).

Lemma extractPage_Text (u : string) (doc : goquery.Document) (now : Z) (p : Page) :
  extractPage u doc now = Some p -> Text p = extractText doc.
Proof.
  unfold extractPage. intros H.
  destruct (extractFavicon (url.Parse u) doc); [|discriminate H].
  destruct (extractSiteName (url.Parse u) doc); [|discriminate H].
  destruct (extractImage (url.Parse u) doc); [|discriminate H].
  cbn in H. injection H as <-. reflexivity.
Qed.

Lemma extractText_runes (doc : goquery.Document) :
  toRunes (extractText doc) = sliceRunes MaxTextChars (toRunes (bodyText doc)).
Proof.
  unfold extractText. fold (bodyText doc).
  destruct (Z.ltb_spec MaxTextChars (Z.of_nat (List.length (toRunes (bodyText doc)))))
    as [Hlong|Hshort].
  - rewrite toRunes_ofRunes, !sliceRunes_firstn.
    rewrite <- firstn_map. now rewrite toRunes_scalar.
  - now rewrite sliceRunes_all.
Qed.

(** X3: the text of an extracted page holds the first [MaxTextChars]
    runes of the trimmed text of the [body], all of them when there are
    no more; so it has at most [MaxTextChars] runes and four times as many
    bytes, it is the trimmed text itself when that is within the bound,
    and it is valid UTF-8 when the text was cut.  Both revisions do so. *)
Theorem stored_text_cut_to_rune_limit :
  (forall doc,
      toRunes (extractText doc) = sliceRunes MaxTextChars (toRunes (bodyText doc))
      /\ RuneCountInString (extractText doc)
         = Z.min MaxTextChars (RuneCountInString (bodyText doc))
      /\ len (extractText doc) <= 4 * MaxTextChars
      /\ (RuneCountInString (bodyText doc) <= MaxTextChars ->
          extractText doc = bodyText doc)
      /\ (MaxTextChars < RuneCountInString (bodyText doc) ->
          ValidString (extractText doc) = true))
  /\ (forall u doc now p, extractPage u doc now = Some p -> Text p = extractText doc)
  /\ (forall u doc now,
         Legacy.Text (Legacy.extractPage u doc now) = extractText doc).
Proof.
  split; [|split; [exact extractPage_Text | reflexivity]].
  intros doc.
  assert (Hcount : RuneCountInString (extractText doc)
                   = Z.min MaxTextChars (RuneCountInString (bodyText doc))).
  { unfold RuneCountInString at 1.
    rewrite <- (length_map rune). fold (toRunes (extractText doc)).
    rewrite extractText_runes, sliceRunes_length by (unfold MaxTextChars; lia).
    unfold toRunes. now rewrite length_map. }
  split; [apply extractText_runes|]. split; [exact Hcount|].
  split; [pose proof (len_le_RuneCount (extractText doc)); lia|].
  split.
  - intros Hle. unfold extractText. fold (bodyText doc).
    unfold RuneCountInString in Hle. unfold toRunes. rewrite length_map.
    destruct (Z.ltb_spec MaxTextChars (Z.of_nat (List.length (rangeString (bodyText doc)))));
      [lia | reflexivity].
  - intros Hlt. unfold extractText. fold (bodyText doc).
    unfold RuneCountInString in Hlt. unfold toRunes at 1. rewrite length_map.
    destruct (Z.ltb_spec MaxTextChars (Z.of_nat (List.length (rangeString (bodyText doc)))));
      [apply ValidString_ofRunes | lia].
Qed.

Lemma stored_text_cut_to_rune_limit_witness :
  extractPage "https://a.com/" (onlyParagraph " Hello ") 0
  = Some (mkPage "https://a.com/" "" "Hello" "" "a.com" "" "Hello" [] 0)
  /\ Text (mkPage "https://a.com/" "" "Hello" "" "a.com" "" "Hello" [] 0)
     = extractText (onlyParagraph " Hello ").
Proof.
  assert (H : extractPage "https://a.com/" (onlyParagraph " Hello ") 0
              = Some (mkPage "https://a.com/" "" "Hello" "" "a.com" "" "Hello" [] 0))
    by (vm_compute; reflexivity).
  split; [exact H|].
  exact (proj1 (proj2 stored_text_cut_to_rune_limit) _ _ _ _ H).
Defined.

(** ** The favicon and the image *)

(** A [link] element whose [rel] holds ["icon"], in any case of the
    letters. *)
Definition isIconLink (n : goquery.Node) : bool :=
  Contains (ToLower (fst (goquery.Attr [n] "rel"))) "icon".

(** The reference that becomes the favicon: the [href] of the last icon
    link of the document, empty when that link has no [href] or the
    document no icon link. *)
Definition faviconCandidate (doc : goquery.Document) : string :=
  match rev (List.filter isIconLink (goquery.Find doc (goquery.byTag "link"))) with
  | [] => ""
  | n :: _ => fst (goquery.Attr [n] "href")
  end.

(** An [img] element the image may come from: it has a [src], not empty
    and without ["logo"] in it. *)
Definition usableImage (n : goquery.Node) : bool :=
  snd (goquery.Attr [n] "src")
  && negb (String.eqb (fst (goquery.Attr [n] "src")) "")
  && negb (Contains (fst (goquery.Attr [n] "src")) "logo").

Definition firstImage (doc : goquery.Document) : string :=
  match List.find usableImage (goquery.Find doc (goquery.byTag "img")) with
  | Some n => fst (goquery.Attr [n] "src")
  | None => ""
  end.

(** The reference that becomes the image: the first of [og:image],
    [twitter:image] and the first usable [img] that is not empty. *)
Definition imageCandidate (doc : goquery.Document) : string :=
  firstNonEmpty [ fst (metaContent doc "property" "og:image");
                  fst (metaContent doc "name" "twitter:image");
                  firstImage doc ].

(** A reference as the page stores it: empty when there is none, else
    made absolute. *)
Definition stored (parsedURL : option url.URL) (ref : string) : option string :=
  if String.eqb ref "" then Some "" else absolute parsedURL ref.

Lemma favicon_loop (links : list goquery.Node) (favicon : string) :
  goquery.Each links
    (fun s favicon =>
       let (rel, _) := goquery.Attr s "rel" in
       let (href, _) := goquery.Attr s "href" in
       if Contains (ToLower rel) "icon" then href else favicon)
    favicon
  = match rev (List.filter isIconLink links) with
    | [] => favicon
    | n :: _ => fst (goquery.Attr [n] "href")
    end.
Proof.
  unfold goquery.Each. revert favicon.
  induction links as [|n links IH]; intros favicon; cbn [fold_left List.filter rev];
    [reflexivity|].
  rewrite IH. unfold isIconLink at 2.
  destruct (goquery.Attr [n] "rel") as [rel ok1].
  destruct (goquery.Attr [n] "href") as [href ok2] eqn:Eh. cbn [fst].
  destruct (Contains (ToLower rel) "icon"); [|reflexivity].
  cbn [rev]. destruct (rev (List.filter isIconLink links)); cbn [app];
    [now rewrite Eh | reflexivity].
Qed.

Lemma extractFavicon_stored (parsedURL : option url.URL) (doc : goquery.Document) :
  extractFavicon parsedURL doc = stored parsedURL (faviconCandidate doc).
Proof.
  unfold extractFavicon, stored. cbv zeta. rewrite favicon_loop.
  fold (faviconCandidate doc).
  destruct (String.eqb_spec (faviconCandidate doc) "") as [->|]; reflexivity.
Qed.

Lemma image_loop (imgs : list goquery.Node) (img : string) :
  goquery.Each imgs
    (fun s img =>
       if negb (String.eqb img "") then img
       else
         let (src, ok) := goquery.Attr s "src" in
         if negb ok || String.eqb src "" then img
         else if Contains src "logo" then img
         else src)
    img
  = if String.eqb img "" then
      match List.find usableImage imgs with
      | Some n => fst (goquery.Attr [n] "src")
      | None => ""
      end
    else img.
Proof.
  unfold goquery.Each. revert img.
  induction imgs as [|n imgs IH]; intros img; cbn [fold_left List.find].
  - destruct (String.eqb_spec img ""); congruence.
  - rewrite IH. unfold usableImage at 2.
    destruct (String.eqb_spec img "") as [->|Hne]; cbn [negb].
    + destruct (goquery.Attr [n] "src") as [src ok] eqn:Es. cbn [fst snd].
      destruct ok; cbn [negb orb andb]; [|reflexivity].
      destruct (String.eqb_spec src "") as [->|Hs]; cbn [negb andb]; [reflexivity|].
      destruct (Contains src "logo"); cbn [negb]; [reflexivity|].
      rewrite Es. cbn [fst]. destruct (String.eqb_spec src ""); congruence.
    + destruct (String.eqb_spec img ""); congruence.
Qed.

Lemma extractImage_stored (parsedURL : option url.URL) (doc : goquery.Document) :
  extractImage parsedURL doc = stored parsedURL (imageCandidate doc).
Proof.
  unfold extractImage, stored, imageCandidate, firstNonEmpty. cbv zeta.
  pose proof (metaContent_absent doc "property" "og:image") as Hog.
  pose proof (metaContent_absent doc "name" "twitter:image") as Htw.
  destruct (metaContent doc "property" "og:image") as [og ok1].
  destruct (metaContent doc "name" "twitter:image") as [tw ok2].
  cbn [fst snd] in *. cbn [List.find].
  assert (E1 : (if ok1 then og else "") = og)
    by (destruct ok1; [reflexivity | symmetry; now apply Hog]).
  rewrite E1.
  destruct (String.eqb_spec og "") as [->|Hog']; cbn [negb].
  2:{ repeat match goal with
             | |- context [String.eqb og ""] =>
                 destruct (String.eqb_spec og ""); [congruence|]; cbn [negb]
             end.
      reflexivity. }
  assert (E2 : (if ok2 then tw else "") = tw)
    by (destruct ok2; [reflexivity | symmetry; now apply Htw]).
  rewrite E2.
  destruct (String.eqb_spec tw "") as [->|Htw']; cbn [negb].
  2:{ repeat match goal with
             | |- context [String.eqb tw ""] =>
                 destruct (String.eqb_spec tw ""); [congruence|]; cbn [negb]
             end.
      reflexivity. }
  rewrite image_loop. cbn [String.eqb]. fold (firstImage doc).
  destruct (String.eqb_spec (firstImage doc) "") as [->|Hi]; [reflexivity|].
  cbn [negb]. destruct (String.eqb_spec (firstImage doc) ""); [congruence|reflexivity].
Qed.

(** X4: the favicon of a page is the [href] of the last [link] element
    whose [rel] holds ["icon"], made absolute against the page address;
    it is empty when there is no such link or the last one has no
    [href]. *)
Theorem favicon_from_last_icon_link :
  (forall parsedURL doc,
      extractFavicon parsedURL doc = stored parsedURL (faviconCandidate doc))
  /\ (forall u doc now p,
         extractPage u doc now = Some p ->
         Some (Favicon p) = stored (url.Parse u) (faviconCandidate doc)).
Proof.
  split; [exact extractFavicon_stored|].
  intros u doc now p H. unfold extractPage in H.
  rewrite extractFavicon_stored in H.
  destruct (stored (url.Parse u) (faviconCandidate doc)) as [favicon|];
    [|discriminate H].
  destruct (extractSiteName (url.Parse u) doc); [|discriminate H].
  destruct (extractImage (url.Parse u) doc); [|discriminate H].
  cbn in H. injection H as <-. reflexivity.
Qed.

(** A page with two icon links. *)
Definition twoIcons : goquery.Document :=
  [goquery.ElementNode "html" []
     [goquery.ElementNode "head" []
        [goquery.ElementNode "link"
           [goquery.mkAttr "rel" "icon"; goquery.mkAttr "href" "/first.ico"] [];
         goquery.ElementNode "link"
           [goquery.mkAttr "rel" "stylesheet"; goquery.mkAttr "href" "/site.css"] [];
         goquery.ElementNode "link"
           [goquery.mkAttr "rel" "Shortcut ICON"; goquery.mkAttr "href" "/last.ico"] []];
      goquery.ElementNode "body" [] []]].

Lemma favicon_from_last_icon_link_witness :
  faviconCandidate twoIcons = "/last.ico"
  /\ Some (Favicon (mkPage "https://a.com/x" "" "" "https://a.com/last.ico" "a.com" ""
                           "" [] 0))
     = stored (url.Parse "https://a.com/x") (faviconCandidate twoIcons).
Proof.
  split; [vm_compute; reflexivity|].
  apply (proj2 favicon_from_last_icon_link "https://a.com/x" twoIcons 0).
  vm_compute. reflexivity.
Defined.

(** X5: the image of a page is the first of these that is not empty:
    the content of [og:image], the content of [twitter:image], the [src]
    of the first [img] whose [src] is not empty and does not hold
    ["logo"]; it is made absolute against the page address. *)
Theorem image_priority_chain :
  (forall parsedURL doc,
      extractImage parsedURL doc = stored parsedURL (imageCandidate doc))
  /\ (forall u doc now p,
         extractPage u doc now = Some p ->
         Some (Image p) = stored (url.Parse u) (imageCandidate doc)).
Proof.
  split; [exact extractImage_stored|].
  intros u doc now p H. unfold extractPage in H.
  destruct (extractFavicon (url.Parse u) doc); [|discriminate H].
  destruct (extractSiteName (url.Parse u) doc); [|discriminate H].
  rewrite extractImage_stored in H.
  destruct (stored (url.Parse u) (imageCandidate doc)) as [img|];
    [|discriminate H].
  cbn in H. injection H as <-. reflexivity.
Qed.

(** A page with an empty [og:image], a logo and a photo. *)
Definition logoAndPhoto : goquery.Document :=
  [goquery.ElementNode "html" []
     [goquery.ElementNode "head" []
        [goquery.ElementNode "meta"
           [goquery.mkAttr "property" "og:image"; goquery.mkAttr "content" ""] []];
      goquery.ElementNode "body" []
        [goquery.ElementNode "img" [goquery.mkAttr "alt" "no source"] [];
         goquery.ElementNode "img" [goquery.mkAttr "src" "/img/logo.png"] [];
         goquery.ElementNode "img" [goquery.mkAttr "src" "photo.jpg"] []]]].

Lemma image_priority_chain_witness :
  imageCandidate logoAndPhoto = "photo.jpg"
  /\ Some (Image (mkPage "https://a.com/b/c" "" "" "" "a.com" "https://a.com/b/photo.jpg"
                         "" [] 0))
     = stored (url.Parse "https://a.com/b/c") (imageCandidate logoAndPhoto).
Proof.
  split; [vm_compute; reflexivity|].
  apply (proj2 image_priority_chain "https://a.com/b/c" logoAndPhoto 0).
  vm_compute. reflexivity.
Defined.

(** ** When [extractPage] panics *)

(** A reference that [extractPage] can make absolute: none at all, or
    one that [url.Parse] accepts. *)
Definition parsable (ref : string) : bool :=
  String.eqb ref ""
  || match url.Parse ref with Some _ => true | None => false end.

Lemma stored_None (base : url.URL) (ref : string) :
  stored (Some base) ref = None <-> parsable ref = false.
Proof.
  unfold stored, parsable, absolute.
  destruct (String.eqb ref ""); cbn [orb]; [split; discriminate|].
  destruct (url.Parse ref) as [fu|]; [|split; reflexivity].
  destruct (negb (url.IsAbs fu)); split; discriminate.
Qed.

Lemma extractPage_None (u : string) (doc : goquery.Document) (now : Z) :
  extractPage u doc now = None <->
  url.Parse u = None
  \/ parsable (faviconCandidate doc) = false
  \/ parsable (imageCandidate doc) = false.
Proof.
  unfold extractPage. rewrite extractFavicon_stored, extractImage_stored.
  destruct (url.Parse u) as [pu|] eqn:Ep.
  - pose proof (stored_None pu (faviconCandidate doc)) as Hf.
    pose proof (stored_None pu (imageCandidate doc)) as Hi.
    unfold extractSiteName.
    destruct (metaContent doc "property" "og:site_name") as [sn ok].
    destruct (stored (Some pu) (faviconCandidate doc)) as [favicon|];
      destruct (stored (Some pu) (imageCandidate doc)) as [img|]; cbn;
      (split; [try discriminate; intros _ | intros [H|[H|H]]; try discriminate H]);
      first [ reflexivity
            | right; left; now apply Hf
            | right; right; now apply Hi
            | apply Hf in H; discriminate H
            | apply Hi in H; discriminate H ].
  - split; [intros _; now left|]. intros _.
    destruct (stored None (faviconCandidate doc)); reflexivity.
Qed.

(** X6: [extractPage] panics in exactly three cases: the page address
    does not parse, the favicon reference is not empty and does not
    parse, or the image reference is not empty and does not parse.  In
    every other case it returns the page made of the address, the title,
    the snippet, the stored favicon, the site name, the stored image, the
    text, the links and the time. *)
Theorem extractPage_panics_exactly_when :
  (forall u doc now,
      extractPage u doc now = None <->
      url.Parse u = None
      \/ parsable (faviconCandidate doc) = false
      \/ parsable (imageCandidate doc) = false)
  /\ (forall u doc now parsedURL,
         url.Parse u = Some parsedURL ->
         parsable (faviconCandidate doc) = true ->
         parsable (imageCandidate doc) = true ->
         exists favicon siteName img,
           stored (Some parsedURL) (faviconCandidate doc) = Some favicon
           /\ extractSiteName (Some parsedURL) doc = Some siteName
           /\ stored (Some parsedURL) (imageCandidate doc) = Some img
           /\ extractPage u doc now
              = Some (mkPage u (extractTitle doc) (extractSnippet doc) favicon siteName
                             img (extractText doc) (extractLinks doc) now)).
Proof.
  split; [exact extractPage_None|].
  intros u doc now parsedURL Hu Hf Hi.
  destruct (stored (Some parsedURL) (faviconCandidate doc)) as [favicon|] eqn:Ef.
  2:{ apply stored_None in Ef. congruence. }
  destruct (stored (Some parsedURL) (imageCandidate doc)) as [img|] eqn:Ei.
  2:{ apply stored_None in Ei. congruence. }
  destruct (extractSiteName (Some parsedURL) doc) as [siteName|] eqn:Es.
  2:{ unfold extractSiteName in Es.
      destruct (metaContent doc "property" "og:site_name"); discriminate Es. }
  exists favicon, siteName, img. repeat split.
  unfold extractPage. rewrite Hu, extractFavicon_stored, extractImage_stored, Ef, Es, Ei.
  reflexivity.
Qed.

Lemma extractPage_panics_exactly_when_witness :
  exists favicon siteName img,
    stored (url.Parse "https://a.com/x") (faviconCandidate twoIcons) = Some favicon
    /\ extractSiteName (url.Parse "https://a.com/x") twoIcons = Some siteName
    /\ stored (url.Parse "https://a.com/x") (imageCandidate twoIcons) = Some img
    /\ extractPage "https://a.com/x" twoIcons 7
       = Some (mkPage "https://a.com/x" (extractTitle twoIcons) (extractSnippet twoIcons)
                      favicon siteName img (extractText twoIcons)
                      (extractLinks twoIcons) 7).
Proof.
  destruct (url.Parse "https://a.com/x") as [parsedURL|] eqn:Ep;
    [|vm_compute in Ep; discriminate Ep].
  apply (proj2 extractPage_panics_exactly_when "https://a.com/x" twoIcons 7 parsedURL Ep);
    vm_compute; reflexivity.
Defined.

(** ** [fetchPage] *)

Lemma fetchPage_Some {P : Type} (w : World P) (t : nat) (u : string)
                     (doc : goquery.Document) :
  fetchPage w t u = Some doc <->
  exists resp body,
    Get w t u = Some resp
    /\ Contains (ContentType resp) "text/html" = true
    /\ Body resp = Some body
    /\ NewDocumentFromReader w (sliceTo MaxBodyBytes body) = Some doc.
Proof.
  unfold fetchPage. split.
  - destruct (Get w t u) as [resp|]; [|discriminate].
    destruct (Contains (ContentType resp) "text/html") eqn:Ec; cbn [negb];
      [|discriminate].
    destruct (Body resp) as [body|] eqn:Eb; [|discriminate].
    intros H. exists resp, body. auto.
  - intros (resp & body & -> & -> & -> & H). exact H.
Qed.

(** ** The title *)

Lemma extractPage_Title (u : string) (doc : goquery.Document) (now : Z) (p : Page) :
  extractPage u doc now = Some p -> Title p = extractTitle doc.
Proof.
  unfold extractPage. intros H.
  destruct (extractFavicon (url.Parse u) doc); [|discriminate H].
  destruct (extractSiteName (url.Parse u) doc); [|discriminate H].
  destruct (extractImage (url.Parse u) doc); [|discriminate H].
  cbn in H. injection H as <-. reflexivity.
Qed.

(** X15: the title of a page is the text of its first [title] element,
    trimmed: it is empty when there is no such element, later [title]
    elements do not count, and it neither starts nor ends with white
    space.  Both revisions do so. *)
Theorem title_of_first_title_element :
  (forall doc,
      extractTitle doc
      = match goquery.Find doc (goquery.byTag "title") with
        | [] => ""
        | n :: _ => TrimSpace (goquery.nodeText n)
        end)
  /\ (forall doc,
         TrimSpace (extractTitle doc) = extractTitle doc
         /\ startsBlack (rangeString (extractTitle doc))
         /\ startsBlack (rev (rangeString (extractTitle doc))))
  /\ (forall u doc now p, extractPage u doc now = Some p -> Title p = extractTitle doc)
  /\ (forall u doc now,
         Legacy.Title (Legacy.extractPage u doc now) = extractTitle doc).
Proof.
  split; [|split; [|split; [exact extractPage_Title | reflexivity]]].
  - intros doc. unfold extractTitle.
    destruct (goquery.Find doc (goquery.byTag "title")) as [|n ns]; [reflexivity|].
    cbn [goquery.First]. now rewrite Text_single.
  - intros doc. unfold extractTitle. split; [apply TrimSpace_idempotent|].
    apply TrimSpace_ends.
Qed.

(** A page with two titles. *)
Definition twoTitles : goquery.Document :=
  [goquery.ElementNode "html" []
     [goquery.ElementNode "head" []
        [goquery.ElementNode "title" [] [goquery.TextNode "  First title "]];
      goquery.ElementNode "body" []
        [goquery.ElementNode "svg" []
           [goquery.ElementNode "title" [] [goquery.TextNode "Second"]]]]].

Lemma title_of_first_title_element_witness :
  extractTitle twoTitles = "First title"
  /\ Title (mkPage "https://a.com/" "First title" "Second" "" "a.com" "" "Second" [] 0)
     = extractTitle twoTitles.
Proof.
  split; [vm_compute; reflexivity|].
  apply (proj1 (proj2 (proj2 title_of_first_title_element)) "https://a.com/" twoTitles 0).
  vm_compute. reflexivity.
Defined.

(** ** Links, relative and absolute *)

Lemma withPath_keeps (u : url.URL) (p : string) :
  url.Scheme (url.withPath u p) = url.Scheme u
  /\ url.Host (url.withPath u p) = url.Host u.
Proof.
  unfold url.withPath, url.setPath.
  destruct (url.unescape p url.encodePath); split; reflexivity.
Qed.

Lemma ResolveReference_Scheme (base ref : url.URL) :
  url.IsAbs ref = false ->
  url.Scheme (url.ResolveReference base ref) = url.Scheme base.
Proof.
  unfold url.IsAbs. intros Habs. apply negb_false_iff in Habs.
  unfold url.ResolveReference. cbv zeta. rewrite Habs.
  repeat match goal with
    | |- context [if ?b then _ else _] => destruct b
    end;
    rewrite ?(proj1 (withPath_keeps _ _)); reflexivity.
Qed.

(** X16: [normalizeURL] on the two kinds of links.  White space around
    the link does not matter.  A link with a scheme is judged by itself:
    the page it stands on plays no part.  A link without scheme takes the
    scheme of its page, so on an http or https page every such link that
    parses is accepted. *)
Theorem normalizeURL_relative_and_absolute :
  (forall base href, normalizeURL base (TrimSpace href) = normalizeURL base href)
  /\ (forall base base' href parsed,
         url.Parse (TrimSpace href) = Some parsed -> url.IsAbs parsed = true ->
         normalizeURL base href = normalizeURL base' href)
  /\ (forall base href parsed,
         TrimSpace href <> "" ->
         url.Parse (TrimSpace href) = Some parsed -> url.IsAbs parsed = false ->
         httpScheme base = true ->
         exists u, normalizeURL base href = inl u
                   /\ url.Scheme u = url.Scheme base
                   /\ url.Fragment u = "").
Proof.
  split; [|split].
  - intros base href. rewrite !normalizeURL_unfold. now rewrite TrimSpace_idempotent.
  - intros base base' href parsed Hp Habs. rewrite !normalizeURL_unfold, Hp.
    unfold resolved. now rewrite Habs.
  - intros base href parsed Hne Hp Habs Hbase. rewrite normalizeURL_unfold, Hp.
    destruct (String.eqb_spec (TrimSpace href) ""); [congruence|].
    unfold resolved. rewrite Habs.
    assert (Hs : url.Scheme (url.ResolveReference base parsed) = url.Scheme base)
      by now apply ResolveReference_Scheme.
    unfold httpScheme in *. rewrite Hs, Hbase.
    eexists. split; [reflexivity|]. split; [exact Hs | reflexivity].
Qed.

Lemma normalizeURL_relative_and_absolute_witness :
  option_map
    (fun base => match normalizeURL base "  ../c?q=1#frag " with
                 | inl u => url.String u
                 | inr _ => ""
                 end)
    (url.Parse "https://a.com/b/page")
  = Some "https://a.com/c?q=1"
  /\ forall base,
       httpScheme base = true ->
       exists u, normalizeURL base "  ../c?q=1#frag " = inl u
                 /\ url.Scheme u = url.Scheme base /\ url.Fragment u = "".
Proof.
  split; [vm_compute; reflexivity|].
  intros base Hbase.
  destruct (url.Parse (TrimSpace "  ../c?q=1#frag ")) as [parsed|] eqn:Ep;
    [|vm_compute in Ep; discriminate Ep].
  apply (proj2 (proj2 normalizeURL_relative_and_absolute) base "  ../c?q=1#frag " parsed);
    [vm_compute; discriminate | exact Ep | | exact Hbase].
  vm_compute in Ep. injection Ep as <-. reflexivity.
Defined.

(** ** The two revisions of [extractPage], and [upsertPage] *)

Lemma legacy_Links (u : string) (doc : goquery.Document) (now : Z) :
  Legacy.Links (Legacy.extractPage u doc now) = hrefs doc.
Proof.
  unfold Legacy.extractPage, hrefs, goquery.Each. cbn [Legacy.Links].
  generalize (goquery.Find doc (goquery.byTagAttr "a" "href")) as ns.
  assert (G : forall ns acc,
             fold_left
               (fun links n =>
                  let (href, _) := goquery.Attr [n] "href" in (links ++ [href])%list)
               ns acc
             = (acc ++ map (fun n => fst (goquery.Attr [n] "href")) ns)%list).
  { induction ns as [|n ns IH]; intros acc; cbn [fold_left map].
    - now rewrite app_nil_r.
    - rewrite IH. destruct (goquery.Attr [n] "href") as [h ok]. cbn [fst].
      now rewrite <- app_assoc. }
  intros ns. apply (G ns []).
Qed.

(** X23: where the current revision returns a page, it agrees with the
    earlier revision on the fields they share: the address, the title,
    the text and the time are the same, and the links are those of the
    earlier revision, each passed through [safeUTF8], in the same
    order. *)
Theorem revisions_agree_on_shared_fields :
  forall u doc now p,
    extractPage u doc now = Some p ->
    URL p = Legacy.URL (Legacy.extractPage u doc now)
    /\ Title p = Legacy.Title (Legacy.extractPage u doc now)
    /\ Text p = Legacy.Text (Legacy.extractPage u doc now)
    /\ Links p = map safeUTF8 (Legacy.Links (Legacy.extractPage u doc now))
    /\ CrawlTime p = Legacy.CrawlTime (Legacy.extractPage u doc now).
Proof.
  intros u doc now p H.
  rewrite legacy_Links, (extractPage_URL _ _ _ _ H), (extractPage_Title _ _ _ _ H),
    (extractPage_Text _ _ _ _ H), (extractPage_Links _ _ _ _ H).
  repeat split. unfold extractPage in H.
  destruct (extractFavicon (url.Parse u) doc); [|discriminate H].
  destruct (extractSiteName (url.Parse u) doc); [|discriminate H].
  destruct (extractImage (url.Parse u) doc); [|discriminate H].
  cbn in H. injection H as <-. reflexivity.
Qed.

Lemma revisions_agree_on_shared_fields_witness :
  extractPage "https://a.com/" (pageWithLink badHref) 0
  = Some (mkPage "https://a.com/" "" "x" "" "a.com" "" "x" ["/x"] 0)
  /\ Legacy.Links (Legacy.extractPage "https://a.com/" (pageWithLink badHref) 0)
     = [badHref]
  /\ Links (mkPage "https://a.com/" "" "x" "" "a.com" "" "x" ["/x"] 0)
     = map safeUTF8
           (Legacy.Links (Legacy.extractPage "https://a.com/" (pageWithLink badHref) 0)).
Proof.
  assert (H : extractPage "https://a.com/" (pageWithLink badHref) 0
              = Some (mkPage "https://a.com/" "" "x" "" "a.com" "" "x" ["/x"] 0))
    by (vm_compute; reflexivity).
  split; [exact H|]. split; [vm_compute; reflexivity|].
  apply (revisions_agree_on_shared_fields _ _ _ _ H).
Defined.

(** X24: what [upsertPage] writes.  Sanitizing a page twice is
    sanitizing it once, so writing the page that was written writes it
    again unchanged, under the same key; a page whose seven scalar
    fields are valid UTF-8 is written as it is; and the key of the write
    is the address in the page written. *)
Theorem upsertPage_writes_sanitized_page :
  (forall p, sanitized (sanitized p) = sanitized p)
  /\ (forall (w : World Page) t p, upsertPage w t (sanitized p) = upsertPage w t p)
  /\ (forall p,
         ValidString (URL p) = true -> ValidString (Title p) = true ->
         ValidString (Snippet p) = true -> ValidString (Favicon p) = true ->
         ValidString (SiteName p) = true -> ValidString (Image p) = true ->
         ValidString (Text p) = true ->
         sanitized p = p)
  /\ (forall (w : World Page) t p filter doc err,
         fst (upsertPage w t p) = UpdateOneCall filter doc err ->
         filter = URL doc /\ doc = sanitized p /\ err = snd (upsertPage w t p)).
Proof.
  assert (Hs : forall p, sanitized (sanitized p) = sanitized p).
  { intros p. unfold sanitized. cbn [URL Title Snippet Favicon SiteName Image Text
                                      Links CrawlTime].
    now rewrite !(safeUTF8_valid (safeUTF8 _)) by apply ValidString_safeUTF8. }
  split; [exact Hs|]. split; [|split].
  - intros w t p. unfold upsertPage. cbv zeta. now rewrite Hs.
  - intros [u t s f n i x l c]. cbn [URL Title Snippet Favicon SiteName Image Text].
    intros H1 H2 H3 H4 H5 H6 H7. unfold sanitized.
    cbn [URL Title Snippet Favicon SiteName Image Text Links CrawlTime].
    now rewrite !safeUTF8_valid by assumption.
  - intros w t p filter doc err. unfold upsertPage. cbv zeta. cbn [fst snd].
    intros [= <- <- <-]. repeat split.
Qed.

Lemma upsertPage_writes_sanitized_page_witness :
  sanitized (mkPage "https://a.com/" "Title" "" "" "a.com" "" "Text" [badHref] 0)
  = mkPage "https://a.com/" "Title" "" "" "a.com" "" "Text" [badHref] 0.
Proof.
  apply (proj1 (proj2 (proj2 upsertPage_writes_sanitized_page))); vm_compute; reflexivity.
Defined.

(* ===================================================================== *)
(** * Further properties of a crawl run                                   *)
(* ===================================================================== *)

(** The URLs passed to [FindOne], the latest first. *)
Fixpoint lookups {P : Type} (tr : list (Event P)) : list string :=
  match tr with
  | [] => []
  | FindOneCall u :: tr' => u :: lookups tr'
  | _ :: tr' => lookups tr'
  end.

(** The number of calls of [time.Sleep]. *)
Fixpoint sleeps {P : Type} (tr : list (Event P)) : Z :=
  match tr with
  | [] => 0
  | Sleep :: tr' => 1 + sleeps tr'
  | _ :: tr' => sleeps tr'
  end.

(** The number of lines ["error: %v"], one for each fetch that failed. *)
Fixpoint failures {P : Type} (tr : list (Event P)) : Z :=
  match tr with
  | [] => 0
  | Log Error_ :: tr' => 1 + failures tr'
  | _ :: tr' => failures tr'
  end.

Lemma lookups_app {P : Type} (tr1 tr2 : list (Event P)) :
  lookups (tr1 ++ tr2) = (lookups tr1 ++ lookups tr2)%list.
Proof.
  induction tr1 as [|e tr1 IH]; [reflexivity|].
  destruct e; cbn [app lookups]; rewrite IH; reflexivity.
Qed.

Lemma sleeps_app {P : Type} (tr1 tr2 : list (Event P)) :
  sleeps (tr1 ++ tr2) = sleeps tr1 + sleeps tr2.
Proof.
  induction tr1 as [|e tr1 IH]; [reflexivity|].
  destruct e; cbn [app sleeps]; rewrite IH; lia.
Qed.

Lemma failures_app {P : Type} (tr1 tr2 : list (Event P)) :
  failures (tr1 ++ tr2) = failures tr1 + failures tr2.
Proof.
  induction tr1 as [|e tr1 IH]; [reflexivity|].
  destruct e as [[]| | | |]; cbn [app failures]; rewrite IH; lia.
Qed.

(** The state in which a run of [crawlSeeds] ended, by its [return nil]
    or by a panic. *)
Definition endsIn (result : option (RunResult Page)) (s : State Page) : Prop :=
  result = Some (ReturnedNil s) \/ result = Some (Crashed s).

Section EndFacts.
Variables (cfg : Config) (w : World Page) (seedsEnv allowedDomainsEnv : string).

Local Abbreviation crawl := (crawlStep cfg (allowedDomainsOf allowedDomainsEnv) w).

(** A property of the first state that every turn keeps, be it a full
    turn or one cut short by a panic, holds where the run ends. *)
Lemma run_invariant (I : State Page -> Prop) :
  I (initialState seedsEnv) ->
  (forall s s', I s -> crawl s = Continue s' \/ crawl s = Panic s' -> I s') ->
  forall fuel s,
    endsIn (crawlSeedsWith cfg w seedsEnv allowedDomainsEnv fuel) s -> I s.
Proof.
  intros H0 Hstep fuel s Hend. unfold crawlSeedsWith in Hend.
  destruct (String.eqb seedsEnv ""); [destruct Hend; discriminate|].
  destruct (loop crawl fuel (initialState seedsEnv)) as [out|] eqn:El;
    [|destruct Hend; discriminate].
  pose proof (crawl_loop_invariant cfg _ w I _ H0 Hstep fuel out El) as Hi.
  destruct out as [s1|s1]; cbn [finalState] in Hi;
    destruct Hend as [[= <-]|[= <-]]; exact Hi.
Qed.


(** How a run ends: on the loop condition after some full turns, or by
    a panic in the turn after them. *)
Lemma crawlSeedsWith_end (fuel : nat) (result : RunResult Page) :
  crawlSeedsWith cfg w seedsEnv allowedDomainsEnv fuel = Some result ->
  match result with
  | SeedsNotSet => seedsEnv = ""
  | ReturnedNil s =>
      exists n, iterate crawl n (initialState seedsEnv) = Some s /\ crawl s = Exit
  | Crashed s =>
      exists n m, iterate crawl n (initialState seedsEnv) = Some m /\ crawl m = Panic s
  end.
Proof.
  unfold crawlSeedsWith.
  destruct (String.eqb_spec seedsEnv "") as [E|E]; [intros [= <-]; exact E|].
  destruct (loop crawl fuel (initialState seedsEnv)) as [out|] eqn:El; [|discriminate].
  apply loop_Some in El as (n & m & Hm & [[Hx ->]|(s' & Hp & ->)]);
    intros [= <-]; eauto.
Qed.

(** *** The allowed domains *)

(** Every address looked up parses and is in an allowed domain; every
    address fetched was looked up; every page written was fetched. *)
Definition withinDomains (s : State Page) : Prop :=
  (forall u, In u (lookups (trace s)) ->
             exists parsedURL,
               url.Parse u = Some parsedURL
               /\ isAllowedDomain parsedURL (allowedDomainsOf allowedDomainsEnv) = true)
  /\ (forall u, In u (fetches (trace s)) -> In u (lookups (trace s)))
  /\ (forall p, In p (upserts (trace s)) ->
                exists u, In u (fetches (trace s)) /\ URL p = safeUTF8 u).

Lemma withinDomains_step (s s' : State Page) :
  withinDomains s -> crawl s = Continue s' \/ crawl s = Panic s' -> withinDomains s'.
Proof.
  intros (Hl & Hf & Hu) Hs.
  pose proof (crawlStep_iteration cfg (allowedDomainsOf allowedDomainsEnv) w s) as Hit.
  unfold withinDomains.
  destruct Hs as [Hs|Hs]; rewrite Hs in Hit; inversion Hit; subst;
    cbn [trace];
    rewrite ?lookups_app, ?fetches_app, ?upserts_app;
    cbn [lookups fetches upserts fetchEvents app fst upsertPage];
    repeat match goal with
      | H : admitted _ _ _ _ _ |- _ => destruct H as (_ & Hparse & Hallowed & _)
      end;
    (split;
     [ first [ exact Hl | intros u [<-|Hin]; [eauto | exact (Hl u Hin)] ]
     | split;
       [ first [ exact Hf
               | intros u [<-|Hin]; [now left | right; exact (Hf u Hin)]
               | intros u Hin; right; exact (Hf u Hin) ]
       | first [ exact Hu
               | intros p [<-|Hin];
                 [ eexists; split; [now left|]; cbn [URL sanitized];
                   erewrite extractPage_URL by eassumption; reflexivity
                 | destruct (Hu p Hin) as (u & Hin' & E); exists u;
                   split; [now right | exact E] ]
               | intros p Hin; destruct (Hu p Hin) as (u & Hin' & E); exists u;
                 split; [now right | exact E] ] ] ]).
Qed.

(** *** Lookups before fetches *)

(** Every address fetched was looked up in an earlier turn or the same
    one, and the collection did not answer that it holds the page. *)
Definition lookedUpFirst (s : State Page) : Prop :=
  forall u, In u (fetches (trace s)) ->
            exists t, (t < tick s)%nat /\ FindOne w t u <> None.

Lemma lookedUpFirst_step (s s' : State Page) :
  lookedUpFirst s -> crawl s = Continue s' \/ crawl s = Panic s' -> lookedUpFirst s'.
Proof.
  intros Hl Hs.
  pose proof (crawlStep_iteration cfg (allowedDomainsOf allowedDomainsEnv) w s) as Hit.
  unfold lookedUpFirst.
  destruct Hs as [Hs|Hs]; rewrite Hs in Hit; inversion Hit; subst;
    cbn [trace tick];
    rewrite ?fetches_app;
    cbn [fetches fetchEvents app fst upsertPage];
    repeat match goal with
      | H : admitted _ _ _ _ _ |- _ => destruct H as (_ & _ & _ & Hfound)
      end;
    intros u Hin;
    first [ destruct (Hl u Hin) as (t & Ht & Hne); exists t; split; [lia | exact Hne]
          | destruct Hin as [<-|Hin];
            [ exists (tick s); split; [lia | exact Hfound]
            | destruct (Hl u Hin) as (t & Ht & Hne); exists t;
              split; [lia | exact Hne] ] ].
Qed.

(** No address is looked up twice, and every address looked up is
    marked visited. *)
Definition lookedUpOnce (s : State Page) : Prop :=
  List.NoDup (lookups (trace s))
  /\ forall u, In u (lookups (trace s)) -> u ∈ visited s.

Lemma lookedUpOnce_step (s s' : State Page) :
  lookedUpOnce s -> crawl s = Continue s' \/ crawl s = Panic s' -> lookedUpOnce s'.
Proof.
  intros [Hn Hv] Hs.
  pose proof (crawlStep_iteration cfg (allowedDomainsOf allowedDomainsEnv) w s) as Hit.
  unfold lookedUpOnce.
  destruct Hs as [Hs|Hs]; rewrite Hs in Hit; inversion Hit; subst;
    cbn [trace visited];
    rewrite ?lookups_app; cbn [lookups fetchEvents app fst upsertPage];
    repeat match goal with
      | H : admitted _ _ _ _ _ |- _ => destruct H as (Hnew & _)
      end;
    (split;
     [ first [ exact Hn
             | constructor; [intros Hin; eapply Hv in Hin; contradiction | exact Hn] ]
     | intros u Hin;
       first [ specialize (Hv u Hin); set_solver
             | destruct Hin as [<-|Hin]; [|specialize (Hv u Hin)]; set_solver ] ]).
Qed.

(** *** Counting the effects *)

(** After full turns: one pause for each page counted, and each fetch
    either failed or gave a page that was counted. *)
Definition accounted (s : State Page) : Prop :=
  sleeps (trace s) = pagesCrawled s
  /\ Z.of_nat (List.length (fetches (trace s))) = pagesCrawled s + failures (trace s)
  /\ (List.length (fetches (trace s)) <= List.length (lookups (trace s)))%nat.

Lemma accounted_step (s s' : State Page) :
  accounted s -> crawl s = Continue s' -> accounted s'.
Proof.
  intros (Hs1 & Hs2 & Hs3) Hs.
  pose proof (crawlStep_iteration cfg (allowedDomainsOf allowedDomainsEnv) w s) as Hit.
  unfold accounted.
  rewrite Hs in Hit; inversion Hit; subst;
    cbn [trace pagesCrawled];
    rewrite ?fetches_app, ?lookups_app, ?sleeps_app, ?failures_app;
    cbn [fetches lookups sleeps failures fetchEvents app fst upsertPage List.length];
    lia.
Qed.

Lemma accounted_panic (s s' : State Page) :
  accounted s -> crawl s = Panic s' ->
  sleeps (trace s') = pagesCrawled s'
  /\ Z.of_nat (List.length (fetches (trace s')))
     = pagesCrawled s' + failures (trace s') + 1
  /\ (List.length (fetches (trace s')) <= List.length (lookups (trace s')))%nat.
Proof.
  intros (Hs1 & Hs2 & Hs3) Hs.
  pose proof (crawlStep_iteration cfg (allowedDomainsOf allowedDomainsEnv) w s) as Hit.
  rewrite Hs in Hit; inversion Hit; subst;
    cbn [trace pagesCrawled];
    rewrite ?fetches_app, ?lookups_app, ?sleeps_app, ?failures_app;
    cbn [fetches lookups sleeps failures fetchEvents app fst upsertPage List.length];
    lia.
Qed.

(** *** The order of the queue *)

(** The queue is in the order of the depths, it spans at most two
    depths, one after the other, and no depth is beyond the bound. *)
Definition breadthFirst (q : list QueueItem.t) : Prop :=
  exists d front back,
    q = (front ++ back)%list
    /\ Forall (fun item => QueueItem.Depth item = d) front
    /\ Forall (fun item => QueueItem.Depth item = d + 1) back
    /\ 0 <= d
    /\ (front <> [] -> d <= Z.max 0 (maxDepth cfg))
    /\ (back <> [] -> d < maxDepth cfg).

Lemma linkItems_depth (parsedURL : url.URL) (visited : gset string) (depth : Z)
                      (links : list string) :
  Forall (fun item => QueueItem.Depth item = depth + 1)
         (linkItems parsedURL visited depth links).
Proof.
  apply List.Forall_forall. intros item Hin.
  apply in_linkItems in Hin as (href & norm & _ & _ & _ & ->). reflexivity.
Qed.

(** Taking the head and adding items one level below it keeps the
    order. *)
Lemma breadthFirst_next (item : QueueItem.t) (rest added : list QueueItem.t) :
  breadthFirst (item :: rest) ->
  Forall (fun q => QueueItem.Depth q = QueueItem.Depth item + 1) added ->
  (added <> [] -> QueueItem.Depth item < maxDepth cfg) ->
  breadthFirst (rest ++ added).
Proof.
  intros (d & front & back & Hq & Hf & Hb & Hd & Hfront & Hback) Ha Hlt.
  destruct front as [|x front].
  - (* the head is the first item of the deeper level *)
    cbn [app] in Hq. subst back.
    inversion Hb as [|? ? Hx Hrest]; subst.
    assert (Hdeep : d < maxDepth cfg) by (apply Hback; discriminate).
    exists (d + 1), rest, added. rewrite Hx in Ha.
    repeat split; try assumption; try lia. intros Hne. rewrite <- Hx. now apply Hlt.
  - cbn [app] in Hq. injection Hq as <- ->.
    inversion Hf as [|? ? Hx Hrest]; subst.
    exists (QueueItem.Depth item), front, (back ++ added)%list.
    split; [now rewrite app_assoc|]. split; [exact Hrest|].
    split; [apply List.Forall_app; split; assumption|].
    split; [exact Hd|]. split.
    + intros _. apply Hfront. discriminate.
    + intros Hne. destruct back as [|y back]; [apply Hlt; exact Hne|].
      apply Hback. discriminate.
Qed.

Lemma breadthFirst_step (s s' : State Page) :
  breadthFirst (queue s) -> crawl s = Continue s' -> breadthFirst (queue s').
Proof.
  intros Hq Hs.
  pose proof (crawlStep_iteration cfg (allowedDomainsOf allowedDomainsEnv) w s) as Hit.
  rewrite Hs in Hit; inversion Hit; subst; cbn [queue];
    repeat match goal with
      | H : dequeues _ _ _ _ |- _ => destruct H as [Hhead _]
      end;
    rewrite Hhead in Hq.
  1-5: rewrite <- (app_nil_r rest);
       (apply (breadthFirst_next item); [exact Hq | constructor | congruence]).
  apply (breadthFirst_next item); [exact Hq | |].
  - destruct (QueueItem.Depth item <? maxDepth cfg);
      [apply linkItems_depth | constructor].
  - destruct (Z.ltb_spec (QueueItem.Depth item) (maxDepth cfg)); [auto | congruence].
Qed.

Lemma breadthFirst_seeds : breadthFirst (seedQueue seedsEnv).
Proof.
  exists 0, (seedQueue seedsEnv), []. rewrite app_nil_r.
  split; [reflexivity|]. split.
  - rewrite seedQueue_map. apply List.Forall_forall. intros item Hin.
    apply in_map_iff in Hin as (u & <- & _). reflexivity.
  - split; [constructor|]. split; [lia|]. split; [lia | congruence].
Qed.

End EndFacts.
(** ** Sample runs *)

(** A site of three pages; the first links to the other two and to a
    page that is not there. *)
Definition smallSite : list (string * goquery.Document) :=
  [ ("https://a.com/", linksTo ["https://b.com/"; "/x"; "/gone"]);
    ("https://a.com/x", linksTo ["/"]);
    ("https://b.com/", linksTo []) ].

Definition smallWeb : World Page := staticWeb smallSite (Some ErrNoDocuments) None.

(** The end of the run over [smallWeb] from the seed [a.com], with
    [a.com] the only allowed domain. *)
Definition smallEnd : State Page :=
  match crawlSeeds smallWeb "https://a.com/" "a.com" 10 with
  | Some (ReturnedNil s) => s
  | _ => initialState ""
  end.

Lemma smallEnd_ends : endsIn (crawlSeeds smallWeb "https://a.com/" "a.com" 10) smallEnd.
Proof. left. vm_compute. reflexivity. Qed.

(** The same run from two seeds, after two turns. *)
Definition smallMid : State Page :=
  match iterate (crawlStep sourceConfig (allowedDomainsOf "") smallWeb) 2
                (initialState "https://a.com/,https://b.com/") with
  | Some s => s
  | None => initialState ""
  end.

(** The same site when the collection holds the page [/x] already. *)
Definition knownWeb : World Page :=
  mkWorld Page
    (fun _ u => if String.eqb u "https://a.com/x" then None else Some ErrNoDocuments)
    (UpdateOne smallWeb) (Get smallWeb) (NewDocumentFromReader smallWeb) (Now smallWeb).

Definition knownEnd : State Page :=
  match crawlSeeds knownWeb "https://a.com/" "" 10 with
  | Some (ReturnedNil s) => s
  | _ => initialState ""
  end.

Lemma knownEnd_ends : endsIn (crawlSeeds knownWeb "https://a.com/" "" 10) knownEnd.
Proof. left. vm_compute. reflexivity. Qed.

(** ** The allowed domains *)

(** X8: in a run, every address looked up in the collection parses and
    is in an allowed domain, every address fetched was looked up, and
    every page written has the address of a fetch, passed through
    [safeUTF8]: nothing outside the allowed domains is looked up, fetched
    or written. *)
Theorem crawl_stays_in_allowed_domains :
  forall cfg w seedsEnv allowedDomainsEnv fuel s,
    endsIn (crawlSeedsWith cfg w seedsEnv allowedDomainsEnv fuel) s ->
    (forall u, In u (lookups (trace s)) ->
               exists parsedURL,
                 url.Parse u = Some parsedURL
                 /\ isAllowedDomain parsedURL (allowedDomainsOf allowedDomainsEnv) = true)
    /\ (forall u, In u (fetches (trace s)) -> In u (lookups (trace s)))
    /\ (forall p, In p (upserts (trace s)) ->
                  exists u, In u (fetches (trace s)) /\ URL p = safeUTF8 u).
Proof.
  intros cfg w seedsEnv allowedDomainsEnv fuel s Hend.
  apply (run_invariant cfg w seedsEnv allowedDomainsEnv
           (withinDomains allowedDomainsEnv)) with (fuel := fuel);
    [ | apply withinDomains_step | exact Hend].
  repeat split; intros ? [].
Qed.

Lemma crawl_stays_in_allowed_domains_witness :
  lookups (trace smallEnd) = ["https://a.com/gone"; "https://a.com/x"; "https://a.com/"]
  /\ forall u, In u (fetches (trace smallEnd)) -> In u (lookups (trace smallEnd)).
Proof.
  split; [vm_compute; reflexivity|].
  apply (crawl_stays_in_allowed_domains sourceConfig smallWeb "https://a.com/" "a.com"
           10%nat smallEnd smallEnd_ends).
Defined.

(** ** Pages the collection holds *)

(** X9: in a run, an address is fetched only after a lookup to which the
    collection did not answer that it holds the page; so a page that the
    collection holds throughout the run is not fetched. *)
Theorem known_pages_are_not_fetched :
  forall cfg w seedsEnv allowedDomainsEnv fuel s,
    endsIn (crawlSeedsWith cfg w seedsEnv allowedDomainsEnv fuel) s ->
    (forall u, In u (fetches (trace s)) ->
               exists t, (t < tick s)%nat /\ FindOne w t u <> None)
    /\ (forall u, (forall t, FindOne w t u = None) -> ~ In u (fetches (trace s))).
Proof.
  intros cfg w seedsEnv allowedDomainsEnv fuel s Hend.
  assert (H : lookedUpFirst w s).
  { apply (run_invariant cfg w seedsEnv allowedDomainsEnv (lookedUpFirst w))
      with (fuel := fuel);
      [ intros u [] | apply lookedUpFirst_step | exact Hend]. }
  split; [exact H|].
  intros u Hknown Hin. destruct (H u Hin) as (t & _ & Hne). exact (Hne (Hknown t)).
Qed.

Lemma known_pages_are_not_fetched_witness :
  lookups (trace knownEnd)
  = ["https://a.com/gone"; "https://a.com/x"; "https://b.com/"; "https://a.com/"]
  /\ fetches (trace knownEnd) = ["https://a.com/gone"; "https://b.com/"; "https://a.com/"]
  /\ ~ In "https://a.com/x" (fetches (trace knownEnd)).
Proof.
  split; [vm_compute; reflexivity|]. split; [vm_compute; reflexivity|].
  apply (proj2 (known_pages_are_not_fetched sourceConfig knownWeb "https://a.com/" ""
                  10%nat knownEnd knownEnd_ends)).
  intros t. reflexivity.
Defined.

(** X25: in a run no address is looked up in the collection twice, and
    every address looked up is marked visited: each address costs at
    most one lookup, as it costs at most one fetch. *)
Theorem each_address_looked_up_once :
  forall cfg w seedsEnv allowedDomainsEnv fuel s,
    endsIn (crawlSeedsWith cfg w seedsEnv allowedDomainsEnv fuel) s ->
    List.NoDup (lookups (trace s))
    /\ (forall u, In u (lookups (trace s)) -> u ∈ visited s).
Proof.
  intros cfg w seedsEnv allowedDomainsEnv fuel s Hend.
  apply (run_invariant cfg w seedsEnv allowedDomainsEnv lookedUpOnce) with (fuel := fuel);
    [ | apply lookedUpOnce_step | exact Hend].
  split; [constructor | intros u []].
Qed.

Lemma each_address_looked_up_once_witness :
  lookups (trace knownEnd)
  = ["https://a.com/gone"; "https://a.com/x"; "https://b.com/"; "https://a.com/"]
  /\ List.NoDup (lookups (trace knownEnd)).
Proof.
  split; [vm_compute; reflexivity|].
  apply (each_address_looked_up_once sourceConfig knownWeb "https://a.com/" "" 10%nat
           knownEnd knownEnd_ends).
Defined.

(** ** Counting the effects *)

(** X10: when a run ends, there was one pause of [PolitenessDelay] for
    each page counted and none after a failed fetch; every fetch either
    failed, with a line in the log, or gave a page that was counted, but
    for the fetch of the page on which the run crashed; and there were at
    least as many lookups as fetches. *)
Theorem effects_accounted :
  forall cfg w seedsEnv allowedDomainsEnv fuel,
    match crawlSeedsWith cfg w seedsEnv allowedDomainsEnv fuel with
    | Some (ReturnedNil s) =>
        sleeps (trace s) = pagesCrawled s
        /\ Z.of_nat (List.length (fetches (trace s)))
           = pagesCrawled s + failures (trace s)
        /\ (List.length (fetches (trace s)) <= List.length (lookups (trace s)))%nat
    | Some (Crashed s) =>
        sleeps (trace s) = pagesCrawled s
        /\ Z.of_nat (List.length (fetches (trace s)))
           = pagesCrawled s + failures (trace s) + 1
        /\ (List.length (fetches (trace s)) <= List.length (lookups (trace s)))%nat
    | _ => True
    end.
Proof.
  intros cfg w seedsEnv allowedDomainsEnv fuel.
  destruct (crawlSeedsWith cfg w seedsEnv allowedDomainsEnv fuel) as [result|] eqn:E;
    [|exact I].
  apply crawlSeedsWith_end in E.
  assert (Hinv : forall n s,
             iterate (crawlStep cfg (allowedDomainsOf allowedDomainsEnv) w) n
                     (initialState seedsEnv) = Some s ->
             accounted s).
  { intros n s Hs.
    eapply (iterate_invariant _ accounted); [| |exact Hs].
    - repeat split. cbn. lia.
    - intros s1 s2 H1 H2.
      exact (accounted_step cfg w allowedDomainsEnv s1 s2 H1 H2). }
  destruct result as [|s|s]; [exact I| |].
  - destruct E as (n & Hs & _). exact (Hinv n s Hs).
  - destruct E as (n & m & Hm & Hp).
    exact (accounted_panic cfg w allowedDomainsEnv m s (Hinv n m Hm) Hp).
Qed.

(** ** The order of the queue *)

(** X11: the queue is kept in breadth-first order.  At every turn of a
    run its items are in the order of their depths, they span at most two
    depths, one after the other, and no item is deeper than [MaxDepth]. *)
Theorem queue_in_breadth_first_order :
  forall cfg w seedsEnv allowedDomainsEnv n s,
    iterate (crawlStep cfg (allowedDomainsOf allowedDomainsEnv) w) n
            (initialState seedsEnv) = Some s ->
    (forall i j a b,
        (i <= j)%nat -> queue s !! i = Some a -> queue s !! j = Some b ->
        QueueItem.Depth a <= QueueItem.Depth b <= QueueItem.Depth a + 1)
    /\ (forall a, In a (queue s) ->
                  0 <= QueueItem.Depth a <= Z.max 0 (maxDepth cfg)).
Proof.
  intros cfg w seedsEnv allowedDomainsEnv n s Hs.
  assert (H : breadthFirst cfg (queue s)).
  { eapply (iterate_invariant _ (fun s => breadthFirst cfg (queue s))); [| |exact Hs].
    - apply breadthFirst_seeds.
    - intros s1 s2 H1 H2.
      exact (breadthFirst_step cfg w allowedDomainsEnv s1 s2 H1 H2). }
  destruct H as (d & front & back & Hq & Hf & Hb & Hd & Hfront & Hback).
  rewrite Hq. split.
  - intros i j a b Hij Ha Hb'.
    apply lookup_app_Some in Ha as [Ha|[Hi Ha]];
      apply lookup_app_Some in Hb' as [Hb'|[Hj Hb']].
    + rewrite (Forall_lookup_1 _ _ _ _ Hf Ha), (Forall_lookup_1 _ _ _ _ Hf Hb'). lia.
    + rewrite (Forall_lookup_1 _ _ _ _ Hf Ha), (Forall_lookup_1 _ _ _ _ Hb Hb'). lia.
    + apply lookup_lt_Some in Hb'. lia.
    + rewrite (Forall_lookup_1 _ _ _ _ Hb Ha), (Forall_lookup_1 _ _ _ _ Hb Hb'). lia.
  - intros a Hin. apply in_app_iff in Hin as [Hin|Hin].
    + rewrite (proj1 (List.Forall_forall _ _) Hf a Hin).
      assert (front <> []) by (intros ->; destruct Hin). specialize (Hfront H). lia.
    + rewrite (proj1 (List.Forall_forall _ _) Hb a Hin).
      assert (back <> []) by (intros ->; destruct Hin). specialize (Hback H). lia.
Qed.

Lemma queue_in_breadth_first_order_witness :
  queue smallMid
  = [QueueItem.mk "https://b.com/" 1; QueueItem.mk "https://a.com/x" 1;
     QueueItem.mk "https://a.com/gone" 1]
  /\ forall a, In a (queue smallMid) ->
                0 <= QueueItem.Depth a <= Z.max 0 (maxDepth sourceConfig).
Proof.
  split; [vm_compute; reflexivity|].
  apply (proj2 (queue_in_breadth_first_order sourceConfig smallWeb
                  "https://a.com/,https://b.com/" "" 2%nat smallMid
                  ltac:(vm_compute; reflexivity))).
Defined.

Lemma effects_accounted_witness :
  sleeps (trace smallEnd) = 2
  /\ failures (trace smallEnd) = 1
  /\ sleeps (trace smallEnd) = pagesCrawled smallEnd
  /\ Z.of_nat (List.length (fetches (trace smallEnd)))
     = pagesCrawled smallEnd + failures (trace smallEnd).
Proof.
  pose proof (effects_accounted sourceConfig smallWeb "https://a.com/" "a.com" 10%nat)
    as H.
  replace (crawlSeedsWith sourceConfig smallWeb "https://a.com/" "a.com" 10)
    with (Some (ReturnedNil smallEnd)) in H by (vm_compute; reflexivity).
  split; [vm_compute; reflexivity|]. split; [vm_compute; reflexivity|].
  split; apply H.
Defined.

(** ** Crashes *)

Lemma crawlStep_Panic (cfg : Config) (allowedDomains : list string) (w : World Page)
                      (s s' : State Page) :
  crawlStep cfg allowedDomains w s = Panic s' ->
  exists item rest doc,
    queue s = item :: rest
    /\ fetchPage w (tick s) (QueueItem.URL item) = Some doc
    /\ (parsable (faviconCandidate doc) = false
        \/ parsable (imageCandidate doc) = false).
Proof.
  intros Hs. pose proof (crawlStep_iteration cfg allowedDomains w s) as Hit.
  rewrite Hs in Hit.
  inversion Hit as [ | | | | | | item rest parsedURL doc [Hq _] (_ & Hp & _) Hf Hx | ].
  exists item, rest, doc. split; [exact Hq|]. split; [exact Hf|].
  apply extractPage_None in Hx as [Hx|Hx]; [congruence | exact Hx].
Qed.

(** X12: a run crashes only in [extractPage], on a fetched page whose
    favicon or image reference does not parse; the address of the page
    itself always parses there.  So a run over pages whose references
    parse does not crash: it returns [nil]. *)
Theorem crawl_crashes_only_on_unparsable_reference :
  (forall cfg allowedDomains w s s',
      crawlStep cfg allowedDomains w s = Panic s' ->
      exists item rest doc,
        queue s = item :: rest
        /\ fetchPage w (tick s) (QueueItem.URL item) = Some doc
        /\ (parsable (faviconCandidate doc) = false
            \/ parsable (imageCandidate doc) = false))
  /\ (forall cfg w seedsEnv allowedDomainsEnv,
         seedsEnv <> "" ->
         (forall body doc,
             NewDocumentFromReader w body = Some doc ->
             parsable (faviconCandidate doc) = true
             /\ parsable (imageCandidate doc) = true) ->
         exists fuel s,
           crawlSeedsWith cfg w seedsEnv allowedDomainsEnv fuel = Some (ReturnedNil s)).
Proof.
  split; [exact crawlStep_Panic|].
  intros cfg w seedsEnv allowedDomainsEnv Hseeds Hdocs.
  destruct (crawl_loop_terminates cfg (allowedDomainsOf allowedDomainsEnv) w
              (initialState seedsEnv)) as (fuel & out & Hl).
  exists fuel. unfold crawlSeedsWith.
  destruct (String.eqb_spec seedsEnv ""); [congruence|]. rewrite Hl.
  destruct out as [s|s]; [eauto|]. exfalso.
  apply loop_Some in Hl as (k & m & _ & [[_ [=]]|(s' & Hp & _)]).
  apply crawlStep_Panic in Hp as (item & rest & doc & _ & Hf & Hbad).
  apply fetchPage_Some in Hf as (resp & body & _ & _ & _ & Hdoc).
  destruct (Hdocs _ _ Hdoc) as [H1 H2]. destruct Hbad; congruence.
Qed.

Lemma crawl_crashes_only_on_unparsable_reference_witness :
  exists fuel s, crawlSeeds smallWeb "https://a.com/" "a.com" fuel = Some (ReturnedNil s).
Proof.
  apply (proj2 crawl_crashes_only_on_unparsable_reference sourceConfig smallWeb
           "https://a.com/" "a.com"); [discriminate|].
  intros body doc. unfold smallWeb, staticWeb, smallSite.
  cbn [NewDocumentFromReader List.find fst snd option_map].
  repeat match goal with
    | |- context [String.eqb ?a body] => destruct (String.eqb a body)
    end;
    cbn [option_map snd]; intros [= <-]; split; vm_compute; reflexivity.
Defined.


(** ** Pages written come from HTML responses *)





Section HtmlFacts.
Variables (cfg : Config) (w : World Page) (seedsEnv allowedDomainsEnv : string).

Local Abbreviation crawl := (crawlStep cfg (allowedDomainsOf allowedDomainsEnv) w).




Hypothesis noHTML :
  forall t u resp, Get w t u = Some resp ->
                   Contains (ContentType resp) "text/html" = false.




End HtmlFacts.






(* ===================================================================== *)
(** * The environment of a run                                            *)
(* ===================================================================== *)

(** ** Splitting at commas *)

(** The comma-separated fields of a string, by recursion on the string. *)
Fixpoint fields (s : string) : list string :=
  match s with
  | "" => [""]
  | String c r =>
      if Ascii.eqb c "," then "" :: fields r
      else match fields r with
           | [] => [String c ""]
           | p :: ps => String c p :: ps
           end
  end.

Lemma Index_comma (c : ascii) (r : string) :
  Index (String c r) ","
  = if Ascii.eqb c "," then 0
    else let i := Index r "," in if i <? 0 then -1 else i + 1.
Proof.
  cbn [Index HasPrefix]. destruct (Ascii.eqb c ","); cbn [andb]; [|reflexivity].
  destruct r; reflexivity.
Qed.

Lemma Index_lower (s sub : string) : -1 <= Index s sub.
Proof.
  induction s as [|c r IH]; cbn [Index].
  - destruct (HasPrefix "" sub); lia.
  - destruct (HasPrefix (String c r) sub); [lia|].
    destruct (Z.ltb_spec (Index r sub) 0); lia.
Qed.

Lemma sliceFrom_0 (s : string) : sliceFrom 0 s = s.
Proof. destruct s; reflexivity. Qed.

(** The first cut of [Split]: the first field, and the text after the
    comma. *)
Lemma fields_cut (s : string) :
  if Index s "," <? 0 then fields s = [s]
  else
    fields s = sliceTo (Index s ",") s :: fields (sliceFrom (Index s "," + len ",") s)
    /\ (String.length (sliceFrom (Index s "," + len ",") s) < String.length s)%nat.
Proof.
  induction s as [|c r IH].
  - reflexivity.
  - rewrite Index_comma. cbn [fields]. destruct (Ascii.eqb c ",") eqn:Ec.
    + change (0 <? 0) with false. cbv iota. change (0 + len ",") with 1.
      cbn [sliceTo sliceFrom]. change (0 <=? 0) with true. change (1 <=? 0) with false.
      cbv iota. change (1 - 1) with 0. rewrite sliceFrom_0.
      split; [reflexivity | cbn [String.length]; lia].
    + cbv zeta. pose proof (Index_lower r ",") as Hlow.
      destruct (Z.ltb_spec (Index r ",") 0) as [Hneg|Hpos].
      * rewrite IH. reflexivity.
      * destruct IH as [IH Hlen]. rewrite IH.
        destruct (Z.ltb_spec (Index r "," + 1) 0); [lia|].
        cbn [sliceTo sliceFrom].
        destruct (Z.leb_spec (Index r "," + 1) 0); [lia|].
        change (len ",") with 1 in *.
        destruct (Z.leb_spec (Index r "," + 1 + 1) 0); [lia|].
        replace (Index r "," + 1 - 1) with (Index r ",") by lia.
        replace (Index r "," + 1 + 1 - 1) with (Index r "," + 1) by lia.
        split; [reflexivity | cbn [String.length]; lia].
Qed.

Lemma splitFrom_fields (fuel : nat) (s : string) :
  (String.length s <= fuel)%nat -> splitFrom fuel s "," = fields s.
Proof.
  revert s. induction fuel as [|fuel IH]; intros s Hlen.
  - destruct s; [reflexivity | cbn [String.length] in Hlen; lia].
  - cbn [splitFrom]. pose proof (fields_cut s) as Hcut.
    destruct (Index s "," <? 0); [now rewrite Hcut|].
    destruct Hcut as [-> Hshort]. rewrite IH by lia. reflexivity.
Qed.

(** [strings.Split(s, ",")] gives the fields of [s]. *)
Lemma Split_fields (s : string) : Split s "," = fields s.
Proof. apply splitFrom_fields. lia. Qed.

Lemma fields_nonempty (s : string) : fields s <> [].
Proof.
  destruct s as [|c r]; cbn [fields]; [discriminate|].
  destruct (Ascii.eqb c ","); [discriminate|]. destruct (fields r); discriminate.
Qed.

Lemma fields_app (a b : string) :
  fields (a +:+ "," +:+ b) = (fields a ++ fields b)%list.
Proof.
  induction a as [|c a IH].
  - rewrite app_empty_l, app_String, app_empty_l. reflexivity.
  - rewrite app_String. cbn [fields]. rewrite IH.
    destruct (Ascii.eqb c ","); [reflexivity|].
    pose proof (fields_nonempty a). destruct (fields a); [congruence | reflexivity].
Qed.

(** ** The environment *)

(** The environment of the process: the variables that are set, with
    their values. *)
Definition Environ := gmap string string.

(** [os.Getenv]: the value of the variable, empty when it is not set. *)
Definition Getenv (env : Environ) (key : string) : string :=
  default "" (env !! key).

(** [getEnv], lines 58-64 *)
Definition getEnv (env : Environ) (key def : string) : string :=
  let v := Getenv env key in
  if String.eqb v "" then def else v.

(** [crawlSeeds] in the environment [env]: lines 311-319 read
    [SEED_URLS] and [ALLOWED_DOMAINS]. *)
Definition crawlSeedsIn (env : Environ) (w : World Page) (fuel : nat)
  : option (RunResult Page) :=
  let seedsEnv := getEnv env "SEED_URLS" "" in
  let allowedDomainsEnv := getEnv env "ALLOWED_DOMAINS" "" in
  crawlSeeds w seedsEnv allowedDomainsEnv fuel.

(** ** The allowed domains *)

Lemma HasSuffix_empty (s : string) : HasSuffix s "" = true.
Proof. apply HasSuffix_iff. exists s. symmetry. apply app_empty_r. Qed.

Lemma blank_entry_allows (u : url.URL) (allowedDomains : list string) :
  In "" allowedDomains -> isAllowedDomain u allowedDomains = true.
Proof.
  intros Hin. unfold isAllowedDomain.
  destruct (Z.of_nat (List.length allowedDomains) =? 0); [reflexivity|].
  apply existsb_exists. exists "". split; [exact Hin | apply HasSuffix_empty].
Qed.

Lemma allowedDomainsOf_fields (v : string) :
  allowedDomainsOf v = if String.eqb v "" then [] else map TrimSpace (fields v).
Proof.
  unfold allowedDomainsOf. rewrite Split_fields. now destruct (String.eqb v "").
Qed.

Lemma app_not_empty (a b : string) : b <> "" -> a +:+ b <> "".
Proof. destruct a; [now rewrite app_empty_l | rewrite app_String; discriminate]. Qed.

(** X13: an empty entry in [ALLOWED_DOMAINS] lifts the restriction.  The
    entries are the trimmed fields between the commas, the empty ones
    kept, and every hostname ends with the empty string; so a value that
    ends or starts with a comma, or holds two commas with nothing but
    white space between them, allows every address.  A variable that is
    not set, or set to the empty string, allows every address too. *)
Theorem blank_allowed_domain_lifts_restriction :
  (forall v, allowedDomainsOf v
             = if String.eqb v "" then [] else map TrimSpace (fields v))
  /\ (forall a b, fields (a +:+ "," +:+ b) = (fields a ++ fields b)%list)
  /\ (forall u allowedDomains,
         In "" allowedDomains -> isAllowedDomain u allowedDomains = true)
  /\ (forall a u, isAllowedDomain u (allowedDomainsOf (a +:+ ",")) = true)
  /\ (forall b u, isAllowedDomain u (allowedDomainsOf ("," +:+ b)) = true)
  /\ (forall a blank b u,
         TrimSpace blank = "" -> fields blank = [blank] ->
         isAllowedDomain u (allowedDomainsOf (a +:+ "," +:+ blank +:+ "," +:+ b)) = true)
  /\ (forall env u,
         Getenv env "ALLOWED_DOMAINS" = "" ->
         isAllowedDomain u (allowedDomainsOf (getEnv env "ALLOWED_DOMAINS" "")) = true).
Proof.
  split; [exact allowedDomainsOf_fields|]. split; [exact fields_app|].
  split; [exact blank_entry_allows|].
  split; [|split; [|split]].
  - intros a u. apply blank_entry_allows. rewrite allowedDomainsOf_fields.
    destruct (String.eqb_spec (a +:+ ",") "") as [E|_];
      [now apply app_not_empty in E|].
    rewrite <- (app_empty_r (a +:+ ",")), app_assoc_str, fields_app.
    rewrite map_app. apply in_or_app. right. now left.
  - intros b u. apply blank_entry_allows. rewrite allowedDomainsOf_fields.
    rewrite app_String, app_empty_l. cbn [String.eqb fields Ascii.eqb Bool.eqb].
    now left.
  - intros a blank b u Hblank Hone. apply blank_entry_allows.
    rewrite allowedDomainsOf_fields.
    destruct (String.eqb_spec (a +:+ "," +:+ blank +:+ "," +:+ b) "") as [E|_].
    { apply app_not_empty in E; [destruct E|]. rewrite app_String. discriminate. }
    rewrite fields_app, fields_app, Hone, !map_app. apply in_or_app. right.
    cbn [map app]. left. exact Hblank.
  - intros env u Hunset. unfold getEnv. rewrite Hunset. reflexivity.
Qed.

Lemma blank_allowed_domain_lifts_restriction_witness :
  allowedDomainsOf "a.com, ,b.com" = ["a.com"; ""; "b.com"]
  /\ (forall u, isAllowedDomain u (allowedDomainsOf "a.com, ,b.com") = true)
  /\ option_map (fun u => isAllowedDomain u (allowedDomainsOf "a.com,b.com"))
       (url.Parse "https://c.org/")
     = Some false.
Proof.
  split; [vm_compute; reflexivity|]. split; [|vm_compute; reflexivity].
  intros u.
  apply (proj1 (proj2 (proj2 (proj2 (proj2 (proj2
           blank_allowed_domain_lifts_restriction)))))
           "a.com" " " "b.com" u);
    vm_compute; reflexivity.
Defined.

(** ** The seeds *)

Lemma seedAddresses_fields (v : string) :
  seedAddresses v
  = List.filter (fun s => negb (String.eqb s "")) (map TrimSpace (fields v)).
Proof. unfold seedAddresses. now rewrite Split_fields. Qed.

(** X14: the seeds are the fields of [SEED_URLS] between the commas, in
    their order: each is trimmed, the empty ones are left out, and what
    remains is queued at depth 0 as it is written, so the queue of a list
    is the queue of its first part followed by the queue of the rest.  An
    empty or unset [SEED_URLS] is the error of line 313, before any effect;
    a value with nothing but commas and white space is no error: the run
    returns [nil] at once, with no lookup, fetch or write. *)
Theorem seeds_queued_in_order :
  (forall a b, seedQueue (a +:+ "," +:+ b) = (seedQueue a ++ seedQueue b)%list)
  /\ (forall v, fields v = [v] ->
                seedQueue v = if String.eqb (TrimSpace v) "" then []
                              else [QueueItem.mk (TrimSpace v) 0])
  /\ (forall v item, In item (seedQueue v) ->
                     QueueItem.Depth item = 0
                     /\ QueueItem.URL item <> ""
                     /\ TrimSpace (QueueItem.URL item) = QueueItem.URL item)
  /\ (forall env w fuel,
         Getenv env "SEED_URLS" = "" -> crawlSeedsIn env w fuel = Some SeedsNotSet)
  /\ (forall cfg w v allowedDomainsEnv fuel,
         v <> "" -> seedQueue v = [] ->
         crawlSeedsWith cfg w v allowedDomainsEnv (S fuel)
         = Some (ReturnedNil (mkState [] ∅ 0 0%nat []))).
Proof.
  split; [|split; [|split; [|split]]].
  - intros a b. rewrite !seedQueue_map, !seedAddresses_fields, fields_app.
    now rewrite map_app, List.filter_app, map_app.
  - intros v Hone. rewrite seedQueue_map, seedAddresses_fields, Hone.
    cbn [map List.filter]. now destruct (String.eqb (TrimSpace v) "").
  - intros v item Hin. rewrite seedQueue_map, seedAddresses_fields in Hin.
    apply in_map_iff in Hin as (u & <- & Hin).
    apply filter_In in Hin as [Hin Hne].
    apply in_map_iff in Hin as (piece & <- & _). cbn [QueueItem.Depth QueueItem.URL].
    split; [reflexivity|]. split; [|apply TrimSpace_idempotent].
    apply negb_true_iff, String.eqb_neq in Hne. exact Hne.
  - intros env w fuel Hunset. unfold crawlSeedsIn, getEnv. rewrite Hunset. reflexivity.
  - intros cfg w v allowedDomainsEnv fuel Hv Hnone. unfold crawlSeedsWith.
    destruct (String.eqb_spec v ""); [congruence|].
    unfold initialState. rewrite Hnone. reflexivity.
Qed.

Lemma seeds_queued_in_order_witness :
  seedQueue " https://a.com/ ,, https://b.com/#top"
  = [QueueItem.mk "https://a.com/" 0; QueueItem.mk "https://b.com/#top" 0]
  /\ (forall item, In item (seedQueue " https://a.com/ ,, https://b.com/#top") ->
                   QueueItem.Depth item = 0
                   /\ QueueItem.URL item <> ""
                   /\ TrimSpace (QueueItem.URL item) = QueueItem.URL item)
  /\ crawlSeeds smallWeb " , ," "" 1 = Some (ReturnedNil (mkState [] ∅ 0 0%nat [])).
Proof.
  split; [vm_compute; reflexivity|]. split.
  - apply (proj1 (proj2 (proj2 seeds_queued_in_order))).
  - apply (proj2 (proj2 (proj2 (proj2 seeds_queued_in_order)))
             sourceConfig smallWeb " , ," "" 0%nat); [discriminate|].
    vm_compute. reflexivity.
Defined.

(* ===================================================================== *)
(** * Further properties of the earlier revision                          *)
(* ===================================================================== *)

(** The number of pages that [UpdateOne] wrote without error. *)
Fixpoint written {P : Type} (tr : list (Event P)) : Z :=
  match tr with
  | [] => 0
  | UpdateOneCall _ _ None :: tr' => 1 + written tr'
  | _ :: tr' => written tr'
  end.

(** The depths in the lines ["Fetching: %s (depth %d)"], the latest
    first. *)
Fixpoint fetchDepths {P : Type} (tr : list (Event P)) : list Z :=
  match tr with
  | [] => []
  | Log (FetchingAt _ depth) :: tr' => depth :: fetchDepths tr'
  | _ :: tr' => fetchDepths tr'
  end.

(** A list of depths, the latest first, in which no depth is followed
    in time by a smaller one. *)
Definition deepening (depths : list Z) : Prop :=
  forall i j later earlier,
    (i <= j)%nat -> depths !! i = Some later -> depths !! j = Some earlier ->
    earlier <= later.

Lemma deepening_cons (d : Z) (depths : list Z) :
  deepening depths -> (forall e, In e depths -> e <= d) -> deepening (d :: depths).
Proof.
  intros Hs Hd i j later earlier Hij Hi Hj.
  destruct i as [|i]; destruct j as [|j]; cbn in Hi, Hj.
  - injection Hi as <-. injection Hj as <-. lia.
  - injection Hi as <-. apply Hd. apply list_elem_of_In.
    now apply list_elem_of_lookup_2 in Hj.
  - lia.
  - apply (Hs i j); [lia | exact Hi | exact Hj].
Qed.

Section LegacyFacts.
Variables (cfg : Config) (allowedDomains : list string) (w : World Legacy.Page).

Local Abbreviation crawl := (Legacy.crawlStep cfg allowedDomains w).

(** What a turn of the earlier revision does to the queue, the count
    and the effects. *)
Lemma legacy_turn (s s' : State Legacy.Page) :
  crawl s = Continue s' ->
  pagesCrawled s < maxPages cfg
  /\ (exists item rest added,
         queue s = item :: rest
         /\ queue s' = (rest ++ added)%list
         /\ Forall (fun q => QueueItem.Depth q = QueueItem.Depth item + 1) added
         /\ (added <> [] -> QueueItem.Depth item < maxDepth cfg)
         /\ (fetchDepths (trace s') = fetchDepths (trace s)
             \/ fetchDepths (trace s') = QueueItem.Depth item :: fetchDepths (trace s))
         /\ (pagesCrawled s' = pagesCrawled s -> added = []))
  /\ (pagesCrawled s' = pagesCrawled s \/ pagesCrawled s' = pagesCrawled s + 1)
  /\ written (trace s') = written (trace s) + (pagesCrawled s' - pagesCrawled s)
  /\ sleeps (trace s') = sleeps (trace s) + (pagesCrawled s' - pagesCrawled s).
Proof.
  unfold Legacy.crawlStep.
  destruct (queue s) as [|item rest] eqn:Eq; [discriminate|].
  destruct (Z.ltb_spec (pagesCrawled s) (maxPages cfg)) as [Hlt|Hge]; cbn [negb];
    [|discriminate].
  cbn [visited queue pagesCrawled tick trace].
  intros H. split; [exact Hlt|]. revert H.
  destruct (bool_decide (QueueItem.URL item ∈ visited s)).
  { intros [= <-]. cbn [queue pagesCrawled trace].
    split; [exists item, rest, []; rewrite app_nil_r;
            repeat split; [constructor | congruence | now left]|].
    split; [now left | split; lia]. }
  destruct (url.Parse (QueueItem.URL item)) as [parsedURL|].
  2:{ intros [= <-]. cbn [queue pagesCrawled trace logPrintf emit fetchDepths written sleeps].
      split; [exists item, rest, []; rewrite app_nil_r;
              repeat split; [constructor | congruence | now left]|].
      split; [now left | split; lia]. }
  destruct (isAllowedDomain parsedURL allowedDomains); cbn [negb].
  2:{ intros [= <-]. cbn [queue pagesCrawled trace logPrintf emit fetchDepths written sleeps].
      split; [exists item, rest, []; rewrite app_nil_r;
              repeat split; [constructor | congruence | now left]|].
      split; [now left | split; lia]. }
  destruct (pageExists w (tick s) (QueueItem.URL item)) as [exists_ err].
  destruct exists_.
  { intros [= <-]. destruct err;
      cbn [queue pagesCrawled trace logPrintf emit fetchDepths written sleeps];
      (split; [exists item, rest, []; rewrite app_nil_r;
               repeat split; [constructor | congruence | now left]|]);
      (split; [now left | split; lia]). }
  destruct (fetchPage w (tick s) (QueueItem.URL item)) as [doc|].
  2:{ intros [= <-]. destruct err;
        cbn [queue pagesCrawled trace logPrintf emit fetchDepths written sleeps];
        (split; [exists item, rest, []; rewrite app_nil_r;
                 repeat split; [constructor | congruence | now right]|]);
        (split; [now left | split; lia]). }
  unfold Legacy.upsertPage.
  destruct (UpdateOne w (tick s) _ _) as [e|].
  { intros [= <-]. destruct err;
      cbn [queue pagesCrawled trace logPrintf emit fetchDepths written sleeps];
      (split; [exists item, rest, []; rewrite app_nil_r;
               repeat split; [constructor | congruence | now right]|]);
      (split; [now left | split; lia]). }
  intros [= <-].
  split.
  - exists item, rest,
      (if QueueItem.Depth item <? maxDepth cfg
       then linkItems parsedURL ({[QueueItem.URL item]} ∪ visited s)
                      (QueueItem.Depth item)
                      (Legacy.Links (Legacy.extractPage (QueueItem.URL item) doc
                                       (Now w (tick s))))
       else []).
    split; [reflexivity|].
    destruct (Z.ltb_spec (QueueItem.Depth item) (maxDepth cfg)) as [Hd|Hd];
      destruct err;
      cbn [queue pagesCrawled trace logPrintf emit fetchDepths written sleeps visited tick];
      rewrite ?enqueueLinks_app, ?app_nil_r;
      (split; [reflexivity|]);
      (split; [first [apply linkItems_depth | constructor]|]);
      (split; [first [intros _; exact Hd | congruence]|]);
      (split; [now right | lia]).
  - destruct (QueueItem.Depth item <? maxDepth cfg); destruct err;
      cbn [queue pagesCrawled trace logPrintf emit fetchDepths written sleeps];
      (split; [now right | split; lia]).
Qed.

Lemma legacy_progress (s s' : State Legacy.Page) :
  crawl s = Continue s' ->
  pagesCrawled s < maxPages cfg
  /\ ((pagesCrawled s' = pagesCrawled s
       /\ (List.length (queue s') < List.length (queue s))%nat)
      \/ pagesCrawled s' = pagesCrawled s + 1).
Proof.
  intros H. apply legacy_turn in H
    as (Hlt & (item & rest & added & Hq & Hq' & _ & _ & _ & Hsame) & [Hc|Hc] & _).
  - split; [exact Hlt|]. left. split; [exact Hc|].
    rewrite Hq, Hq', (Hsame Hc), app_nil_r. cbn [List.length]. lia.
  - split; [exact Hlt|]. now right.
Qed.

(** The pages counted are the pages written without error, each
    followed by a pause, and the count stays within the budget. *)
Definition legacyCounted (s : State Legacy.Page) : Prop :=
  written (trace s) = pagesCrawled s
  /\ sleeps (trace s) = pagesCrawled s
  /\ 0 <= pagesCrawled s <= Z.max 0 (maxPages cfg).

Lemma legacyCounted_step (s s' : State Legacy.Page) :
  legacyCounted s -> crawl s = Continue s' -> legacyCounted s'.
Proof.
  intros (Hw & Hs & Hb) H. apply legacy_turn in H as (Hlt & _ & Hc & Hw' & Hs').
  unfold legacyCounted. destruct Hc; lia.
Qed.

(** The depths logged so far are in order, and none is beyond the head
    of the queue. *)
Definition legacyOrdered (s : State Legacy.Page) : Prop :=
  breadthFirst cfg (queue s)
  /\ deepening (fetchDepths (trace s))
  /\ (forall d item, In d (fetchDepths (trace s)) -> In item (queue s) ->
                     d <= QueueItem.Depth item)
  /\ (forall d, In d (fetchDepths (trace s)) -> 0 <= d <= Z.max 0 (maxDepth cfg)).

Lemma breadthFirst_head (item : QueueItem.t) (rest : list QueueItem.t) :
  breadthFirst cfg (item :: rest) ->
  0 <= QueueItem.Depth item <= Z.max 0 (maxDepth cfg)
  /\ forall q, In q rest -> QueueItem.Depth item <= QueueItem.Depth q.
Proof.
  intros (d & front & back & Hq & Hf & Hb & Hd & Hfront & Hback).
  destruct front as [|x front]; cbn [app] in Hq.
  - subst back. inversion Hb as [|? ? Hx Hrest]; subst.
    assert (d < maxDepth cfg) by (apply Hback; discriminate).
    split; [lia|]. intros q Hin.
    rewrite (proj1 (List.Forall_forall _ _) Hrest q Hin). lia.
  - injection Hq as <- ->. inversion Hf as [|? ? Hx Hrest]; subst.
    assert (QueueItem.Depth item <= Z.max 0 (maxDepth cfg))
      by (apply Hfront; discriminate).
    split; [lia|]. intros q Hin. apply in_app_iff in Hin as [Hin|Hin].
    + rewrite (proj1 (List.Forall_forall _ _) Hrest q Hin). lia.
    + rewrite (proj1 (List.Forall_forall _ _) Hb q Hin). lia.
Qed.

Lemma legacyOrdered_step (s s' : State Legacy.Page) :
  legacyOrdered s -> crawl s = Continue s' -> legacyOrdered s'.
Proof.
  intros (Hbf & Hsorted & Hbelow & Hbound) H.
  apply legacy_turn in H
    as (_ & (item & rest & added & Hq & Hq' & Hadded & Hdeep & Hlog & _) & _).
  rewrite Hq in Hbf, Hbelow. pose proof (breadthFirst_head item rest Hbf) as [Hitem Hrest].
  assert (Hnew : forall q, In q (rest ++ added) -> QueueItem.Depth item <= QueueItem.Depth q).
  { intros q Hin. apply in_app_iff in Hin as [Hin|Hin]; [now apply Hrest|].
    rewrite (proj1 (List.Forall_forall _ _) Hadded q Hin). lia. }
  unfold legacyOrdered. rewrite Hq'.
  split; [exact (breadthFirst_next cfg item rest added Hbf Hadded Hdeep)|].
  destruct Hlog as [-> | ->].
  - split; [exact Hsorted|]. split; [|exact Hbound].
    intros d q Hd Hin. specialize (Hnew q Hin).
    specialize (Hbelow d item Hd (or_introl eq_refl)). lia.
  - split; [|split].
    + apply deepening_cons; [exact Hsorted|]. intros d Hd.
      exact (Hbelow d item Hd (or_introl eq_refl)).
    + intros d q [<-|Hd] Hin; [now apply Hnew|].
      specialize (Hnew q Hin). specialize (Hbelow d item Hd (or_introl eq_refl)). lia.
    + intros d [<-|Hd]; [exact Hitem | now apply Hbound].
Qed.

End LegacyFacts.

(** The site [smallSite] for the earlier revision, with a collection that
    fails to write the page [/x]. *)
Definition legacyWeb : World Legacy.Page :=
  mkWorld Legacy.Page
    (fun _ _ => Some ErrNoDocuments)
    (fun _ u _ => if String.eqb u "https://a.com/x" then Some ErrOther else None)
    (Get smallWeb) (NewDocumentFromReader smallWeb) (Now smallWeb).

Definition legacyEnd : State Legacy.Page :=
  match Legacy.crawlSeeds legacyWeb "https://a.com/" "" 10 with
  | Some (ReturnedNil s) => s
  | _ => initialState ""
  end.

(** X17: a run of the earlier revision always returns [nil], whatever
    the collection and the network answer, unless [SEED_URLS] is empty; it
    never panics.  It ends when the queue is empty or the budget is
    spent, with the line ["Finished crawl run"] last in the log.  Its
    count is the number of pages written without error, each followed by
    one pause, and is within [MaxPagesPerRun]. *)
Theorem legacy_crawl_returns_counting_written_pages :
  forall cfg w seedsEnv allowedDomainsEnv,
  exists fuel result,
    (forall fuel', (fuel <= fuel')%nat ->
                   Legacy.crawlSeedsWith cfg w seedsEnv allowedDomainsEnv fuel'
                   = Some result)
    /\ match result with
       | SeedsNotSet => seedsEnv = ""
       | ReturnedNil s =>
           (queue s = [] \/ maxPages cfg <= pagesCrawled s)
           /\ written (trace s) = pagesCrawled s
           /\ sleeps (trace s) = pagesCrawled s
           /\ pagesCrawled s <= Z.max 0 (maxPages cfg)
           /\ exists tr, trace s = Log (Finished (pagesCrawled s)) :: tr
       | Crashed _ => False
       end.
Proof.
  intros cfg w seedsEnv allowedDomainsEnv.
  destruct (String.eqb_spec seedsEnv "") as [->|Hne].
  { exists 0%nat, SeedsNotSet. split; [reflexivity | reflexivity]. }
  set (step := Legacy.crawlStep cfg (allowedDomainsOf allowedDomainsEnv) w).
  destruct (loop_terminates step (maxPages cfg)
              (legacy_progress cfg (allowedDomainsOf allowedDomainsEnv) w)
              (initialState seedsEnv)) as (fuel & out & Hl).
  pose proof (loop_Some step fuel _ out Hl) as (n & m & Hm & Hend).
  assert (Hinv : legacyCounted cfg m).
  { eapply (iterate_invariant step (legacyCounted cfg)); [| |exact Hm].
    - repeat split; cbn; lia.
    - intros s1 s2 H1 H2.
      exact (legacyCounted_step cfg (allowedDomainsOf allowedDomainsEnv) w s1 s2 H1 H2). }
  destruct Hend as [[Hx ->]|(s' & Hp & _)];
    [|now apply legacy_crawlStep_no_panic in Hp].
  exists fuel, (ReturnedNil (logPrintf (Finished (pagesCrawled m)) m)). split.
  - intros fuel' Hle. unfold Legacy.crawlSeedsWith.
    destruct (String.eqb_spec seedsEnv ""); [congruence|].
    fold step. now rewrite (loop_fuel_le step fuel fuel' _ _ Hl Hle).
  - destruct Hinv as (Hw & Hs & Hb).
    cbn [logPrintf emit queue pagesCrawled trace written sleeps].
    split; [now apply legacy_crawlStep_Exit in Hx|].
    split; [exact Hw|]. split; [exact Hs|]. split; [lia|]. eauto.
Qed.

Lemma legacy_crawl_returns_counting_written_pages_witness :
  Legacy.crawlSeeds legacyWeb "https://a.com/" "" 10 = Some (ReturnedNil legacyEnd)
  /\ pagesCrawled legacyEnd = 2
  /\ List.length (upserts (trace legacyEnd)) = 3%nat
  /\ exists fuel result,
       (forall fuel', (fuel <= fuel')%nat ->
                      Legacy.crawlSeeds legacyWeb "https://a.com/" "" fuel' = Some result)
       /\ result <> SeedsNotSet.
Proof.
  split; [vm_compute; reflexivity|]. split; [vm_compute; reflexivity|].
  split; [vm_compute; reflexivity|].
  destruct (legacy_crawl_returns_counting_written_pages sourceConfig legacyWeb
              "https://a.com/" "") as (fuel & result & Hrun & Hres).
  exists fuel, result. split; [exact Hrun|].
  intros ->. discriminate Hres.
Defined.

(** X18: the earlier revision fetches in breadth-first order, and its
    log shows it: in the lines ["Fetching: %s (depth %d)"] of a run the
    depth never goes down, and it stays between 0 and [MaxDepth]. *)
Theorem legacy_fetches_by_depth :
  forall cfg w seedsEnv allowedDomainsEnv fuel s,
    Legacy.crawlSeedsWith cfg w seedsEnv allowedDomainsEnv fuel = Some (ReturnedNil s) ->
    (forall i j later earlier,
        (i <= j)%nat ->
        fetchDepths (trace s) !! i = Some later ->
        fetchDepths (trace s) !! j = Some earlier ->
        earlier <= later)
    /\ (forall d, In d (fetchDepths (trace s)) -> 0 <= d <= Z.max 0 (maxDepth cfg)).
Proof.
  intros cfg w seedsEnv allowedDomainsEnv fuel s. unfold Legacy.crawlSeedsWith.
  destruct (String.eqb seedsEnv ""); [discriminate|].
  set (step := Legacy.crawlStep cfg (allowedDomainsOf allowedDomainsEnv) w).
  destruct (loop step fuel (initialState seedsEnv)) as [out|] eqn:Hl; [|discriminate].
  pose proof (loop_Some step fuel _ out Hl) as (n & m & Hm & Hend).
  assert (Hinv : legacyOrdered cfg m).
  { eapply (iterate_invariant step (legacyOrdered cfg)); [| |exact Hm].
    - split; [apply breadthFirst_seeds|]. split; [intros i j a b _ Hi; discriminate Hi|].
      split; [intros d item [] | intros d []].
    - intros s1 s2 H1 H2.
      exact (legacyOrdered_step cfg (allowedDomainsOf allowedDomainsEnv) w s1 s2 H1 H2). }
  destruct Hend as [[_ ->]|(s' & _ & ->)]; [|discriminate].
  intros [= <-]. cbn [logPrintf emit trace fetchDepths].
  destruct Hinv as (_ & Hsorted & _ & Hbound). split; [exact Hsorted | exact Hbound].
Qed.

Lemma legacy_fetches_by_depth_witness :
  fetchDepths (trace legacyEnd) = [1; 1; 1; 0]
  /\ forall d, In d (fetchDepths (trace legacyEnd)) ->
               0 <= d <= Z.max 0 (maxDepth sourceConfig).
Proof.
  split; [vm_compute; reflexivity|].
  apply (legacy_fetches_by_depth sourceConfig legacyWeb "https://a.com/" "" 10%nat).
  vm_compute. reflexivity.
Defined.

(* ===================================================================== *)
(** * The process: [connectMongo] and [main]                              *)
(* ===================================================================== *)

(** The MongoDB driver at start-up: the answers of [mongo.Connect], for
    a URI, and of [client.Ping]; [true] is a [nil] error. *)
Record Driver := mkDriver { Connect : string -> bool; Ping : bool }.

(** What the process does outside the crawl, in order, the latest
    first. *)
Inductive ProcessEvent :=
| ConnectCall (uri : string)
| PingCall
| Collection (dbName name : string)   (* client.Database(dbName).Collection(name) *)
| CrawlRun (s : State Page)           (* the crawl, with its effects *)
| DisconnectCall
| LogFatal.

(** The three [return nil, nil, err] of [connectMongo]. *)
Inductive ConnectError := UriNotSet | ConnectFailed | PingFailed.

(** [connectMongo], lines 102-121: the calls made, and the error if
    any. *)
Definition connectMongo (env : Environ) (d : Driver)
  : list ProcessEvent * option ConnectError :=
  let uri := getEnv env "MONGO_URI" "" in
  let dbName := getEnv env "MONGO_DB_NAME" "basic_search_engine" in
  if String.eqb uri "" then ([], Some UriNotSet)
  else
    let events := [ConnectCall uri] in
    if negb (Connect d uri) then (events, Some ConnectFailed)
    else
      let events := PingCall :: events in
      if negb (Ping d) then (events, Some PingFailed)
      else (Collection dbName "pages" :: events, None).

(** How the process ends: [main] returns (status 0), [log.Fatal] calls
    [os.Exit(1)], or a panic ends it (status 2). *)
Inductive Status := Returns | Exits1 | Panics.

(** [main], lines 394-409.  [dotenv] holds the variables of the [.env]
    file, if there is one: [godotenv.Load] sets those that the
    environment does not hold yet.  A deferred call runs when [main]
    returns or panics, not when [log.Fatal] exits. *)
Definition main (dotenv : option Environ) (env : Environ) (d : Driver)
                (w : World Page) (fuel : nat)
  : option (list ProcessEvent * Status) :=
  let env := match dotenv with Some file => env ∪ file | None => env end in
  let (events, err) := connectMongo env d in
  match err with
  | Some _ => Some (LogFatal :: events, Exits1)
  | None =>
      match crawlSeedsIn env w fuel with
      | None => None
      | Some SeedsNotSet => Some (LogFatal :: events, Exits1)
      | Some (ReturnedNil s) => Some (DisconnectCall :: CrawlRun s :: events, Returns)
      | Some (Crashed s) => Some (DisconnectCall :: CrawlRun s :: events, Panics)
      end
  end.

Lemma connectMongo_events (env : Environ) (d : Driver) :
  let (events, err) := connectMongo env d in
  (forall s, ~ In (CrawlRun s) events)
  /\ ~ In DisconnectCall events /\ ~ In LogFatal events
  /\ (err = None ->
      Getenv env "MONGO_URI" <> ""
      /\ Connect d (Getenv env "MONGO_URI") = true /\ Ping d = true
      /\ events = [Collection (getEnv env "MONGO_DB_NAME" "basic_search_engine") "pages";
                   PingCall; ConnectCall (Getenv env "MONGO_URI")])
  /\ (Getenv env "MONGO_URI" = "" -> events = [] /\ err = Some UriNotSet).
Proof.
  unfold connectMongo, getEnv. cbv zeta.
  destruct (String.eqb_spec (Getenv env "MONGO_URI") "") as [E|E].
  { cbn [String.eqb]. repeat split; try (intros ? []); try (intros []); try discriminate;
      congruence. }
  destruct (String.eqb_spec (Getenv env "MONGO_URI") "") as [E'|_]; [congruence|].
  destruct (Connect d (Getenv env "MONGO_URI")) eqn:Ec; cbn [negb].
  - destruct (Ping d) eqn:Ep; cbn [negb];
      (split; [intros s [H|[H|[H|[]]]] || intros s [H|[H|[]]]; discriminate H|]);
      (split; [intros [H|[H|[H|[]]]] || intros [H|[H|[]]]; discriminate H|]);
      (split; [intros [H|[H|[H|[]]]] || intros [H|[H|[]]]; discriminate H|]);
      (split; [first [discriminate | intros _; repeat split; assumption]
              | intros H; congruence]).
  - (split; [intros s [H|[]]; discriminate H|]);
      (split; [intros [H|[]]; discriminate H|]);
      (split; [intros [H|[]]; discriminate H|]);
      (split; [discriminate | intros H; congruence]).
Qed.

(** X19: [main] crawls only after [connectMongo] found a non-empty
    [MONGO_URI], connected and pinged; the collection is [pages] in the
    database named by [MONGO_DB_NAME], by default [basic_search_engine].
    The deferred [Disconnect] runs exactly when the crawl was started:
    after its [return nil] and after a panic, not when [log.Fatal] ends
    the process, which it does exactly when the connection fails or
    [SEED_URLS] is not set.  A variable of the environment wins over
    the [.env] file. *)
Theorem main_crawls_when_connected :
  (forall dotenv env d w fuel events status,
      main dotenv env d w fuel = Some (events, status) ->
      let env' := match dotenv with Some file => env ∪ file | None => env end in
      ((exists s, In (CrawlRun s) events) <->
       In DisconnectCall events)
      /\ (In DisconnectCall events <-> status <> Exits1)
      /\ (In LogFatal events <-> status = Exits1)
      /\ (status = Exits1 <->
          snd (connectMongo env' d) <> None \/ Getenv env' "SEED_URLS" = "")
      /\ (In DisconnectCall events ->
          Getenv env' "MONGO_URI" <> ""
          /\ Connect d (Getenv env' "MONGO_URI") = true /\ Ping d = true
          /\ In (Collection (getEnv env' "MONGO_DB_NAME" "basic_search_engine") "pages")
                events))
  /\ (forall (env file : Environ) key v,
         env !! key = Some v -> Getenv (env ∪ file) key = v)
  /\ (forall dotenv env d w, exists fuel result, main dotenv env d w fuel = Some result).
Proof.
  split; [|split].
  - intros dotenv env d w fuel events status. unfold main.
    set (env' := match dotenv with Some file => env ∪ file | None => env end).
    pose proof (connectMongo_events env' d) as Hc.
    destruct (connectMongo env' d) as [evs err].
    destruct Hc as (Hrun & Hdis & Hfatal & Hok & Hunset). cbn [snd].
    destruct err as [e|].
    { intros [= <- <-]. cbv zeta. split; [|split; [|split; [|split]]].
      - split; [intros (s & [H|H]); [discriminate H | destruct (Hrun s H)]
               | intros [H|H]; [discriminate H | contradiction]].
      - split; [intros [H|H]; [discriminate H | contradiction] | congruence].
      - split; [reflexivity | intros _; now left].
      - split; [intros _; left; discriminate | reflexivity].
      - intros [H|H]; [discriminate H | contradiction]. }
    destruct (Hok eq_refl) as (Huri & Hconn & Hping & Hevs).
    unfold crawlSeedsIn, getEnv, crawlSeeds, crawlSeedsWith. cbv zeta.
    destruct (String.eqb_spec (Getenv env' "SEED_URLS") "") as [Es|Es].
    { cbn [String.eqb]. intros [= <- <-]. cbv zeta. split; [|split; [|split; [|split]]].
      - split; [intros (s & [H|H]); [discriminate H | destruct (Hrun s H)]
               | intros [H|H]; [discriminate H | contradiction]].
      - split; [intros [H|H]; [discriminate H | contradiction] | congruence].
      - split; [reflexivity | intros _; now left].
      - split; [intros _; now right | reflexivity].
      - intros [H|H]; [discriminate H | contradiction]. }
    destruct (String.eqb_spec (Getenv env' "SEED_URLS") "") as [Es'|_]; [congruence|].
    destruct (loop _ fuel _) as [[s|s]|]; [| |discriminate];
      intros [= <- <-]; cbv zeta;
      (split; [split; [intros _; now left | intros _; exists s; right; now left]|]);
      (split; [split; [discriminate | intros _; now left]|]);
      (split; [split; [intros [H|[H|H]]; [discriminate H | discriminate H | contradiction]
                      | discriminate]|]);
      (split; [split; [discriminate | intros [H|H]; congruence]|]);
      intros _; repeat split; try assumption; right; right; rewrite Hevs; now left.
  - intros env file key v Hkey. unfold Getenv.
    now rewrite (lookup_union_Some_l env file key v Hkey).
  - intros dotenv env d w. unfold main.
    set (env' := match dotenv with Some file => env ∪ file | None => env end).
    destruct (connectMongo env' d) as [evs [e|]]; [exists 0%nat; eauto|].
    unfold crawlSeedsIn, crawlSeeds, crawlSeedsWith. cbv zeta.
    destruct (String.eqb (getEnv env' "SEED_URLS" "") ""); [exists 0%nat; eauto|].
    destruct (crawl_loop_terminates sourceConfig
                (allowedDomainsOf (getEnv env' "ALLOWED_DOMAINS" "")) w
                (initialState (getEnv env' "SEED_URLS" ""))) as (fuel & out & Hl).
    exists fuel. rewrite Hl. destruct out; eauto.
Qed.

(** An environment with the two variables that a run needs, and a
    driver that connects. *)
Definition sampleEnv : Environ :=
  {[ "MONGO_URI" := "mongodb://db.example"; "SEED_URLS" := "https://a.com/" ]}.

Definition sampleDriver : Driver := mkDriver (fun _ => true) true.

Lemma main_crawls_when_connected_witness :
  option_map snd (main None sampleEnv sampleDriver smallWeb 10) = Some Returns
  /\ option_map snd (main None (delete "SEED_URLS" sampleEnv) sampleDriver smallWeb 10)
     = Some Exits1
  /\ forall events,
       main None (delete "SEED_URLS" sampleEnv) sampleDriver smallWeb 10
       = Some (events, Exits1) ->
       ~ In DisconnectCall events.
Proof.
  split; [vm_compute; reflexivity|]. split; [vm_compute; reflexivity|].
  intros events H Hin.
  apply (proj1 main_crawls_when_connected) in H as (_ & Hd & _).
  now apply Hd in Hin.
Defined.

(* ===================================================================== *)
(** * The results page: [src/script.js]                                   *)
(* ===================================================================== *)

(** A JavaScript string is a sequence of UTF-16 code units; [cleanSnippet]
    is modelled on strings, which is what the results page passes to it
    when the snippet of a result is a string. *)
Module script.

Definition jsString := list Z.

Definition LT : Z := 60.      (* < *)
Definition GT : Z := 62.      (* > *)
Definition SP : Z := 32.      (* the space *)

(** The class [[{}<>;=*]] of line 48. *)
Definition noise (c : Z) : bool :=
  (c =? 123) || (c =? 125) || (c =? LT) || (c =? GT) || (c =? 59) || (c =? 61)
  || (c =? 42).

(** The class [\s], which is also what [trim] removes: white space and
    line terminators. *)
Definition white (c : Z) : bool :=
  ((9 <=? c) && (c <=? 13)) || (c =? SP) || (c =? 0xA0) || (c =? 0x1680)
  || ((0x2000 <=? c) && (c <=? 0x200A)) || (c =? 0x2028) || (c =? 0x2029)
  || (c =? 0x202F) || (c =? 0x205F) || (c =? 0x3000) || (c =? 0xFEFF).

(** After a [<]: one unit other than [>], and a [>] somewhere behind it;
    then [/<[^>]+>/] matches, up to the first such [>]. *)
Definition startsTag (r : jsString) : bool :=
  match r with
  | c1 :: r1 => negb (c1 =? GT) && existsb (Z.eqb GT) r1
  | [] => false
  end.

(** [s.replace(/<[^>]+>/g, " ")]; [inTag] tells that the units read are
    inside a match. *)
Fixpoint replaceTags (inTag : bool) (s : jsString) : jsString :=
  match s with
  | [] => []
  | c :: r =>
      if inTag then replaceTags (negb (c =? GT)) r
      else if (c =? LT) && startsTag r then SP :: replaceTags true r
      else c :: replaceTags false r
  end.

(** [s.replace(/[cls]+/g, " ")]: each run of units of the class becomes
    one space; [inRun] tells that the unit before was of the class. *)
Fixpoint replaceRuns (cls : Z -> bool) (inRun : bool) (s : jsString) : jsString :=
  match s with
  | [] => []
  | c :: r =>
      if cls c then
        if inRun then replaceRuns cls true r else SP :: replaceRuns cls true r
      else c :: replaceRuns cls false r
  end.

Fixpoint trimStart (s : jsString) : jsString :=
  match s with
  | [] => []
  | c :: r => if white c then trimStart r else s
  end.

(** [s.trim()] *)
Definition trim (s : jsString) : jsString := rev (trimStart (rev (trimStart s))).

(** The string literal of line 55, the file read as UTF-8: three units. *)
Definition ellipsis : jsString := [0xE2; 0x20AC; 0xA6].

(** [cleanSnippet], lines 38-59 *)
Definition cleanSnippet (raw : jsString) : jsString :=
  match raw with
  | [] => []
  | _ =>
      let s := raw in
      let s := replaceTags false s in
      let s := replaceRuns noise false s in
      let s := trim (replaceRuns white false s) in
      if (220 <? List.length s)%nat then (firstn 220 s ++ ellipsis)%list else s
  end.

End script.
(** ** Properties of [cleanSnippet] *)

Section SnippetFacts.
Import script.
Local Open Scope list_scope.

Local Arguments Z.eqb : simpl never.
Local Arguments Z.leb : simpl never.

(** *** What the result is made of *)

Lemma replaceRuns_In (cls : Z -> bool) (inRun : bool) (s : jsString) (c : Z) :
  In c (replaceRuns cls inRun s) -> c = SP \/ (In c s /\ cls c = false).
Proof.
  revert inRun. induction s as [|x s IH]; intros inRun; cbn [replaceRuns]; [intros []|].
  destruct (cls x) eqn:E.
  - destruct inRun.
    + intros H. destruct (IH _ H) as [->|[H1 H2]]; [now left | right; split; [now right|]].
      exact H2.
    + intros [<-|H]; [now left|].
      destruct (IH _ H) as [->|[H1 H2]]; [now left | right; split; [now right|]].
      exact H2.
  - intros [<-|H]; [right; split; [now left | exact E]|].
    destruct (IH _ H) as [->|[H1 H2]]; [now left | right; split; [now right|]].
    exact H2.
Qed.

Lemma trimStart_suffix (s : jsString) : exists l, s = (l ++ trimStart s)%list.
Proof.
  induction s as [|c s [l IH]]; [exists []; reflexivity|].
  cbn [trimStart]. destruct (white c).
  - exists (c :: l). cbn [app]. now rewrite <- IH.
  - exists []. reflexivity.
Qed.

(** What [trim] returns is a part of the string, between two parts that
    [trim] removed. *)
Lemma trim_part (s : jsString) : exists l r, s = (l ++ trim s ++ r)%list.
Proof.
  unfold trim. destruct (trimStart_suffix s) as [l Hl].
  destruct (trimStart_suffix (rev (trimStart s))) as [r Hr].
  exists l, (rev r). rewrite <- rev_app_distr, <- Hr, rev_involutive. exact Hl.
Qed.

Lemma trim_In (s : jsString) (c : Z) : In c (trim s) -> In c s.
Proof.
  destruct (trim_part s) as (l & r & Hs). intros H. rewrite Hs.
  apply in_or_app. right. apply in_or_app. now left.
Qed.

Lemma firstn_In {A : Type} (n : nat) (l : list A) (x : A) : In x (firstn n l) -> In x l.
Proof.
  intros H. rewrite <- (firstn_skipn n l). apply in_or_app. now left.
Qed.

(** The text before it is cut to 220 units. *)
Definition cleaned (raw : jsString) : jsString :=
  trim (replaceRuns white false (replaceRuns noise false (replaceTags false raw))).

Lemma cleanSnippet_cleaned (raw : jsString) :
  cleanSnippet raw
  = if (220 <? List.length (cleaned raw))%nat
    then (firstn 220 (cleaned raw) ++ ellipsis)%list
    else cleaned raw.
Proof.
  destruct raw as [|c r]; [reflexivity|]. reflexivity.
Qed.

Lemma cleaned_In (raw : jsString) (c : Z) :
  In c (cleaned raw) -> noise c = false /\ (white c = true -> c = SP).
Proof.
  unfold cleaned. intros H. apply trim_In in H.
  apply replaceRuns_In in H as [->|[H Hw]]; [split; reflexivity|].
  split; [|congruence].
  apply replaceRuns_In in H as [->|[_ Hn]]; [reflexivity | exact Hn].
Qed.

Lemma cleanSnippet_In (raw : jsString) (c : Z) :
  In c (cleanSnippet raw) -> noise c = false /\ (white c = true -> c = SP).
Proof.
  rewrite cleanSnippet_cleaned.
  destruct (220 <? List.length (cleaned raw))%nat; [|apply cleaned_In].
  intros H. apply in_app_iff in H as [H|H]; [apply firstn_In in H; now apply (cleaned_In raw)|].
  destruct H as [<-|[<-|[<-|[]]]]; split; try reflexivity; discriminate.
Qed.

Lemma cleanSnippet_length (raw : jsString) :
  (List.length (cleanSnippet raw) <= 223)%nat.
Proof.
  rewrite cleanSnippet_cleaned.
  destruct (Nat.ltb_spec 220 (List.length (cleaned raw))) as [H|H]; [|lia].
  rewrite length_app, length_firstn. cbn [List.length ellipsis]. lia.
Qed.

(** X20: what [cleanSnippet] returns has at most 223 units, 220 of the
    text and the three of the mark that it was cut, and none of the units
    [{ } < > ; = *]: no tag and no tag bracket is left in it.  The empty
    string gives the empty string. *)
Theorem cleanSnippet_short_and_plain :
  forall raw,
    (List.length (cleanSnippet raw) <= 223)%nat
    /\ (forall c, In c (cleanSnippet raw) -> noise c = false)
    /\ ((List.length (cleanSnippet raw) <= 220)%nat \/
        exists text, cleanSnippet raw = (text ++ ellipsis)%list
                     /\ List.length text = 220%nat)
    /\ cleanSnippet [] = [].
Proof.
  intros raw. split; [apply cleanSnippet_length|].
  split; [intros c H; now apply cleanSnippet_In in H|]. split; [|reflexivity].
  rewrite cleanSnippet_cleaned.
  destruct (Nat.ltb_spec 220 (List.length (cleaned raw))) as [H|H]; [right | left; lia].
  eexists. split; [reflexivity|]. rewrite length_firstn. lia.
Qed.

(** *** The white space of the result *)

(** No two units of white space side by side. *)
Fixpoint apart (s : jsString) : bool :=
  match s with
  | a :: r => match r with
              | b :: _ => negb (white a && white b)
              | [] => true
              end && apart r
  | [] => true
  end.

(** The first unit, if any, is no white space. *)
Definition startsWithText (s : jsString) : Prop :=
  match s with
  | c :: _ => white c = false
  | [] => True
  end.

Lemma apart_spec (s : jsString) :
  apart s = true <->
  forall pre a b post, s = (pre ++ a :: b :: post)%list -> white a = true -> white b = false.
Proof.
  induction s as [|x s IH]; cbn [apart].
  - split; [|reflexivity]. intros _ pre a b post H. now destruct pre.
  - rewrite andb_true_iff, IH. split.
    + intros [Hx Hs] pre a b post H Ha. destruct pre as [|p pre]; cbn [app] in H.
      * injection H as -> ->. rewrite Ha in Hx. cbn in Hx.
        now apply negb_true_iff in Hx.
      * injection H as -> ->. now apply (Hs pre a b post).
    + intros H. split.
      * destruct s as [|y s]; [reflexivity|]. apply negb_true_iff.
        destruct (white x) eqn:Ex; [|reflexivity]. cbn [andb].
        exact (H [] x y s eq_refl Ex).
      * intros pre a b post ->. exact (H (x :: pre) a b post eq_refl).
Qed.

Lemma apart_part (l s r : jsString) : apart (l ++ s ++ r) = true -> apart s = true.
Proof.
  rewrite !apart_spec. intros H pre a b post ->.
  apply (H (l ++ pre)%list a b (post ++ r)%list).
  now rewrite <- !app_assoc.
Qed.

Lemma apart_black (s t : jsString) :
  apart s = true -> (forall c, In c t -> white c = false) -> apart (s ++ t) = true.
Proof.
  intros Hs Ht. induction s as [|x s IH]; cbn [app].
  - induction t as [|y t IHt]; [reflexivity|]. cbn [apart].
    rewrite IHt by (intros c Hc; apply Ht; now right).
    rewrite (Ht y) by now left. destruct t; reflexivity.
  - cbn [apart] in Hs |- *. apply andb_true_iff in Hs as [Hx Hs].
    rewrite (IH Hs), andb_true_r.
    destruct s as [|y s]; cbn [app]; [|exact Hx].
    destruct t as [|z t]; [reflexivity|]. rewrite (Ht z) by now left.
    now rewrite andb_false_r.
Qed.

(** After a run was replaced, the next unit is no white space. *)
Lemma replaceRuns_white (inRun : bool) (s : jsString) :
  apart (replaceRuns white inRun s) = true
  /\ (inRun = true -> startsWithText (replaceRuns white inRun s)).
Proof.
  revert inRun. induction s as [|x s IH]; intros inRun; cbn [replaceRuns];
    [split; [reflexivity | intros _; exact I]|].
  destruct (white x) eqn:Ex.
  - destruct (IH true) as [Ha Hb]. destruct inRun; [split; [exact Ha | exact Hb]|].
    split; [|discriminate]. cbn [apart]. rewrite Ha, andb_true_r.
    specialize (Hb eq_refl). destruct (replaceRuns white true s) as [|y t]; [reflexivity|].
    cbn [startsWithText] in Hb. rewrite Hb. now rewrite andb_false_r.
  - destruct (IH false) as [Ha _]. split; [|intros _; exact Ex].
    cbn [apart]. rewrite Ha, andb_true_r, Ex.
    destruct (replaceRuns white false s); reflexivity.
Qed.

Lemma trimStart_startsWithText (s : jsString) : startsWithText (trimStart s).
Proof.
  induction s as [|c s IH]; [exact I|].
  cbn [trimStart]. destruct (white c) eqn:E; [exact IH | exact E].
Qed.

Lemma trimStart_fixed (s : jsString) : startsWithText s -> trimStart s = s.
Proof.
  destruct s as [|c s]; [reflexivity|]. cbn [startsWithText trimStart]. now intros ->.
Qed.

Lemma trim_ends (s : jsString) : startsWithText (trim s) /\ startsWithText (rev (trim s)).
Proof.
  unfold trim. split; [|rewrite rev_involutive; apply trimStart_startsWithText].
  destruct (trimStart_suffix (rev (trimStart s))) as [l Hl].
  pose proof (trimStart_startsWithText s) as Hs.
  apply (f_equal (@rev Z)) in Hl. rewrite rev_involutive, rev_app_distr in Hl.
  rewrite Hl in Hs. destruct (rev (trimStart (rev (trimStart s)))); [exact I | exact Hs].
Qed.

Lemma trim_fixed (s : jsString) : startsWithText s -> startsWithText (rev s) -> trim s = s.
Proof.
  intros H1 H2. unfold trim. rewrite (trimStart_fixed s H1), (trimStart_fixed _ H2).
  apply rev_involutive.
Qed.

Lemma cleaned_spacing (raw : jsString) :
  apart (cleaned raw) = true
  /\ startsWithText (cleaned raw) /\ startsWithText (rev (cleaned raw)).
Proof.
  unfold cleaned. split; [|apply trim_ends].
  destruct (trim_part (replaceRuns white false
                         (replaceRuns noise false (replaceTags false raw))))
    as (l & r & Hp).
  apply (apart_part l _ r). rewrite <- Hp. apply replaceRuns_white.
Qed.

(** X21: in what [cleanSnippet] returns the only white space is the
    single space between two words: every unit of white space is a space,
    no two stand side by side, and the result neither starts nor ends
    with one. *)
Theorem cleanSnippet_single_spaces :
  forall raw,
    (forall c, In c (cleanSnippet raw) -> white c = true -> c = SP)
    /\ (forall pre a b post,
           cleanSnippet raw = (pre ++ a :: b :: post)%list ->
           white a = true -> white b = false)
    /\ startsWithText (cleanSnippet raw)
    /\ startsWithText (rev (cleanSnippet raw)).
Proof.
  intros raw. split; [intros c H; now apply cleanSnippet_In in H|].
  destruct (cleaned_spacing raw) as (Ha & Hs & He).
  rewrite cleanSnippet_cleaned.
  destruct (Nat.ltb_spec 220 (List.length (cleaned raw))) as [Hlong|Hshort].
  - split; [|split].
    + apply apart_spec, apart_black.
      * apply (apart_part [] _ (skipn 220 (cleaned raw))). cbn [app].
        now rewrite firstn_skipn.
      * intros c [<-|[<-|[<-|[]]]]; reflexivity.
    + destruct (cleaned raw) as [|c t]; [cbn in Hlong; lia | exact Hs].
    + rewrite rev_app_distr. reflexivity.
  - split; [now apply apart_spec | split; assumption].
Qed.

(** *** Cleaning twice *)

Lemma replaceTags_plain (s : jsString) :
  (forall c, In c s -> noise c = false) -> replaceTags false s = s.
Proof.
  induction s as [|c s IH]; intros H; [reflexivity|]. cbn [replaceTags].
  assert (Hc : (c =? LT) = false).
  { specialize (H c (or_introl eq_refl)). unfold noise in H.
    destruct (c =? LT); [|reflexivity]. rewrite !orb_true_r in H. cbn in H.
    now rewrite ?orb_true_r in H. }
  rewrite Hc. cbn [andb]. rewrite IH; [reflexivity|]. intros x Hx. apply H. now right.
Qed.

Lemma replaceRuns_plain (cls : Z -> bool) (inRun : bool) (s : jsString) :
  (forall c, In c s -> cls c = false) -> replaceRuns cls inRun s = s.
Proof.
  revert inRun. induction s as [|c s IH]; intros inRun H; [reflexivity|].
  cbn [replaceRuns]. rewrite (H c) by now left.
  rewrite IH; [reflexivity|]. intros x Hx. apply H. now right.
Qed.

Lemma replaceRuns_spaced (inRun : bool) (s : jsString) :
  apart s = true -> (forall c, In c s -> white c = true -> c = SP) ->
  (inRun = true -> startsWithText s) ->
  replaceRuns white inRun s = s.
Proof.
  revert inRun. induction s as [|x s IH]; intros inRun Ha Hsp Hb; [reflexivity|].
  cbn [replaceRuns]. cbn [apart] in Ha. apply andb_true_iff in Ha as [Hx Ha].
  assert (Hs : forall c, In c s -> white c = true -> c = SP)
    by (intros c Hc; apply Hsp; now right).
  destruct (white x) eqn:Ex.
  - destruct inRun; [specialize (Hb eq_refl); cbn in Hb; congruence|].
    rewrite (Hsp x (or_introl eq_refl) Ex). f_equal.
    apply IH; [exact Ha | exact Hs|]. intros _.
    destruct s as [|y s]; [exact I|]. cbn [startsWithText].
    cbn [andb] in Hx. now apply negb_true_iff in Hx.
  - f_equal. apply IH; [exact Ha | exact Hs | discriminate].
Qed.

(** Cleaning a cleaned text changes nothing. *)
Lemma cleaned_fixed (raw : jsString) : cleaned (cleaned raw) = cleaned raw.
Proof.
  destruct (cleaned_spacing raw) as (Ha & Hs & He).
  unfold cleaned at 1.
  rewrite replaceTags_plain by (intros c Hc; now apply cleaned_In in Hc).
  rewrite (replaceRuns_plain noise) by (intros c Hc; now apply cleaned_In in Hc).
  rewrite replaceRuns_spaced;
    [ | exact Ha | intros c Hc; now apply cleaned_In in Hc | discriminate].
  now apply trim_fixed.
Qed.

(** X22: cleaning twice is cleaning once, as long as the result was not
    cut: a result of at most 220 units is returned unchanged by
    [cleanSnippet]. *)
Theorem cleanSnippet_idempotent_when_short :
  forall raw,
    (List.length (cleanSnippet raw) <= 220)%nat ->
    cleanSnippet (cleanSnippet raw) = cleanSnippet raw.
Proof.
  intros raw. rewrite (cleanSnippet_cleaned raw).
  destruct (Nat.ltb_spec 220 (List.length (cleaned raw))) as [Hlong|Hshort].
  - rewrite length_app, length_firstn. cbn [List.length ellipsis]. lia.
  - intros _. rewrite cleanSnippet_cleaned, cleaned_fixed.
    destruct (Nat.ltb_spec 220 (List.length (cleaned raw))); [lia | reflexivity].
Qed.

(** The units of a text in ASCII. *)
Definition ofAscii (s : string) : jsString := map byte (list_ascii_of_string s).

Lemma cleanSnippet_idempotent_when_short_witness :
  cleanSnippet (ofAscii "<p>Hello,   <b>world</b>;  {x}</p>") = ofAscii "Hello, world x"
  /\ cleanSnippet (cleanSnippet (ofAscii "<p>Hello,   <b>world</b>;  {x}</p>"))
     = cleanSnippet (ofAscii "<p>Hello,   <b>world</b>;  {x}</p>").
Proof.
  split; [vm_compute; reflexivity|].
  apply cleanSnippet_idempotent_when_short. vm_compute. lia.
Defined.

End SnippetFacts.

